(** * The OpenAI chat adapter of [llm] ([llm/default_plugins/openai_models.py])

    A shallow embedding of the request/response translation engine:
    message building, request parameters, the streamed chunk aggregator,
    usage normalisation and the redaction of the persisted request. *)

From Stdlib Require Import ZArith String Ascii Lia.
From stdpp Require Import base tactics option list strings.

Local Open Scope string_scope.
Local Open Scope Z_scope.
Local Open Scope list_scope.

(** ** Python results: a value or a raised exception *)

Inductive exn : Type :=
| NotImplementedError (msg : string)
| KeyError (key : string)
| AttributeError
| IndexError
| TypeError
| JSONDecodeError
| RecursionError
| TransportFailure (status : Z).

Inductive result (A : Type) : Type :=
| Ok (a : A)
| Err (e : exn).
Arguments Ok {A} a.
Arguments Err {A} e.

#[global] Instance result_ret : MRet result := fun A a => Ok a.
#[global] Instance result_bind : MBind result := fun A B k m =>
  match m with
  | Ok a => k a
  | Err e => Err e
  end.
#[global] Instance result_fmap : FMap result := fun A B f m =>
  match m with
  | Ok a => Ok (f a)
  | Err e => Err e
  end.

Definition is_ok {A} (m : result A) : bool :=
  match m with Ok _ => true | Err _ => false end.

(** ** Python values as they appear in messages, request parameters and
       parsed JSON.  A dict keeps its insertion order; a float is carried
       by the decimal literal that denotes it (the adapter never computes
       with one). *)

Inductive atom : Type :=
| ANone
| ABool (b : bool)
| AInt (z : Z)
| AFloat (lit : string)
| AStr (s : string).

#[warnings="-register-all"]
Inductive value : Type :=
| VAtom (a : atom)
| VList (items : list value)
| VDict (items : list (string * value)).

Abbreviation VNone := (VAtom ANone).
Abbreviation VBool b := (VAtom (ABool b)).
Abbreviation VInt z := (VAtom (AInt z)).
Abbreviation VFloat lit := (VAtom (AFloat lit)).
Abbreviation VStr s := (VAtom (AStr s)).

(** [key in d] *)
Fixpoint dict_mem {V} (k : string) (d : list (string * V)) : bool :=
  match d with
  | [] => false
  | (k', _) :: r => if String.eqb k' k then true else dict_mem k r
  end.

(** [d[key]] when the key is present *)
Fixpoint dict_get {V} (k : string) (d : list (string * V)) : option V :=
  match d with
  | [] => None
  | (k', v) :: r => if String.eqb k' k then Some v else dict_get k r
  end.

(** [d[key] = v]: an existing key keeps its position, a new key goes last *)
Fixpoint dict_set {V} (k : string) (v : V) (d : list (string * V)) : list (string * V) :=
  match d with
  | [] => [(k, v)]
  | (k', v') :: r =>
      if String.eqb k' k then (k', v) :: r else (k', v') :: dict_set k v r
  end.

(** [del d[key]] *)
Fixpoint dict_remove {V} (k : string) (d : list (string * V)) : list (string * V) :=
  match d with
  | [] => []
  | (k', v') :: r =>
      if String.eqb k' k then r else (k', v') :: dict_remove k r
  end.

(** [d.pop(key)]: raises [KeyError] when the key is missing *)
Definition dict_pop {V} (k : string) (d : list (string * V)) : result (V * list (string * V)) :=
  match dict_get k d with
  | Some v => Ok (v, dict_remove k d)
  | None => Err (KeyError k)
  end.

(** [s.startswith(p)] *)
Fixpoint startswith (p s : string) : bool :=
  match p, s with
  | EmptyString, _ => true
  | String a p', String b s' => if Ascii.eqb a b then startswith p' s' else false
  | String _ _, EmptyString => false
  end.
Arguments startswith : simpl never.

(** Truthiness of an optional string: [None] and the empty string are falsy *)
Definition truthy_str (s : option string) : bool :=
  match s with
  | Some (String _ _) => true
  | _ => false
  end.

(** Truthiness of a Python value *)
Definition truthy (v : value) : bool :=
  match v with
  | VNone => false
  | VBool b => b
  | VInt z => negb (z =? 0)
  | VFloat lit => true
  | VStr s => truthy_str (Some s)
  | VList l => match l with [] => false | _ => true end
  | VDict d => match d with [] => false | _ => true end
  end.

Definition opt_str (s : option string) : value :=
  match s with
  | Some s => VStr s
  | None => VNone
  end.

(** ** The redactor ([redact_data]) read as a function on a tree-shaped
       structure: the tree the input holds once the in-place rewrite is
       done. *)

Definition DATA_PLACEHOLDER : string := "data:...".
Definition AUDIO_PLACEHOLDER : string := "...".

Section RedactEntry.
Variable rec : value -> result value.

(** One turn of [for key, value in input_dict.items()]; the result is
    what the key holds afterwards. *)
Definition redact_entry (key : string) (v : value) : result value :=
  let otherwise :=
    match String.eqb key "input_audio", v with
    | true, VDict d =>
        if dict_mem "data" d
        then Ok (VDict (dict_set "data" (VStr AUDIO_PLACEHOLDER) d))
        else rec v
    | _, _ => rec v
    end in
  match String.eqb key "image_url", v with
  | true, VDict d =>
      match dict_get "url" d with
      | Some (VStr u) =>
          if startswith "data:" u
          then Ok (VDict (dict_set "url" (VStr DATA_PLACEHOLDER) d))
          else otherwise
      | Some _ => Err AttributeError
      | None => otherwise
      end
  | _, _ => otherwise
  end.
End RedactEntry.

Fixpoint redact (v : value) : result value :=
  match v with
  | VDict d =>
      VDict <$> mapM (fun kx => x' ← redact_entry redact kx.1 kx.2; mret (kx.1, x')) d
  | VList l => VList <$> mapM redact l
  | VAtom _ => Ok v
  end.

(** ** The object store: lists and dicts are mutable objects reached
       through references, so that two names for one object see each
       other's writes. *)

Abbreviation loc := nat.

Inductive val : Type :=
| Imm (a : atom)
| Ref (l : loc).

Inductive obj : Type :=
| OList (items : list val)
| ODict (items : list (string * val)).

Abbreviation heap := (list obj).

Section AllocAll.
Context {A B : Type} (f : A -> heap -> B * heap).

Fixpoint alloc_all (xs : list A) (h : heap) : list B * heap :=
  match xs with
  | [] => ([], h)
  | x :: r =>
      let '(v, h1) := f x h in
      let '(vs, h2) := alloc_all r h1 in
      (v :: vs, h2)
  end.
End AllocAll.

(** Building a fresh structure: every list and dict display creates a new
    object, its parts first. *)
Fixpoint alloc (t : value) (h : heap) : val * heap :=
  match t with
  | VAtom a => (Imm a, h)
  | VList ts =>
      let '(vs, h') := alloc_all alloc ts h in
      (Ref (length h'), (h' ++ [OList vs])%list)
  | VDict kts =>
      let '(kvs, h') :=
        alloc_all (fun kt h => let '(v, h') := alloc kt.2 h in ((kt.1, v), h')) kts h in
      (Ref (length h'), (h' ++ [ODict kvs])%list)
  end.

(** The tree a value stands for in a store *)
#[warnings="-register-all"]
Inductive reads (h : heap) : val -> value -> Prop :=
| reads_atom a : reads h (Imm a) (VAtom a)
| reads_list l vs ts :
    h !! l = Some (OList vs) ->
    Forall2 (reads h) vs ts ->
    reads h (Ref l) (VList ts)
| reads_dict l kvs kts :
    h !! l = Some (ODict kvs) ->
    Forall2 (fun kv kt => kv.1 = kt.1 /\ reads h kv.2 kt.2) kvs kts ->
    reads h (Ref l) (VDict kts).

Definition heap_dict (h : heap) (v : val) : option (loc * list (string * val)) :=
  match v with
  | Ref l =>
      match h !! l with
      | Some (ODict d) => Some (l, d)
      | _ => None
      end
  | Imm _ => None
  end.

(** ** [redact_data], as written: an in-place rewrite of the store *)

Section RedactStep.
Variable rec : val -> heap -> result heap.

(** the loop body of [for key, value in input_dict.items()] *)
Definition redact_step (key : string) (v : val) (h : heap) : result heap :=
  let otherwise :=
    match String.eqb key "input_audio", heap_dict h v with
    | true, Some (l, d) =>
        if dict_mem "data" d
        then Ok (<[l := ODict (dict_set "data" (Imm (AStr AUDIO_PLACEHOLDER)) d)]> h)
        else rec v h
    | _, _ => rec v h
    end in
  match String.eqb key "image_url", heap_dict h v with
  | true, Some (l, d) =>
      match dict_get "url" d with
      | Some (Imm (AStr u)) =>
          if startswith "data:" u
          then Ok (<[l := ODict (dict_set "url" (Imm (AStr DATA_PLACEHOLDER)) d)]> h)
          else otherwise
      | Some _ => Err AttributeError
      | None => otherwise
      end
  | _, _ => otherwise
  end.

(** [.items()] is a live view: entry [i] is read from the store when the
    loop reaches it. *)
Fixpoint dict_loop (l : loc) (i todo : nat) (h : heap) : result heap :=
  match todo with
  | O => Ok h
  | S todo' =>
      match h !! l with
      | Some (ODict d) =>
          match d !! i with
          | Some (key, v) => h' ← redact_step key v h; dict_loop l (S i) todo' h'
          | None => Ok h
          end
      | _ => Ok h
      end
  end.

Fixpoint list_loop (items : list val) (h : heap) : result heap :=
  match items with
  | [] => Ok h
  | item :: r => h' ← rec item h; list_loop r h'
  end.
End RedactStep.

(** [redact_data(input_dict)]; [depth] is the room left on the
    interpreter's call stack.  The function returns its argument, so the
    caller goes on with the same reference. *)
Fixpoint redact_data (depth : nat) (input_dict : val) (h : heap) : result heap :=
  match depth with
  | O => Err RecursionError
  | S depth' =>
      match input_dict with
      | Ref l =>
          match h !! l with
          | Some (ODict d) => dict_loop (redact_data depth') l 0 (length d) h
          | Some (OList items) => list_loop (redact_data depth') items h
          | None => Ok h
          end
      | Imm _ => Ok h
      end
  end.

(** ** The data model *)

Record Attachment := {
  att_url : option string;        (* attachment.url *)
  att_type : string;              (* attachment.resolve_type() *)
  att_base64 : string;            (* attachment.base64_content() *)
  att_id : string                 (* attachment.id() *)
}.

Record ToolResult := {
  tr_tool_call_id : option string;
  tr_output : string
}.

Record ToolCall := {
  tc_tool_call_id : option string;
  tc_name : option string;
  tc_arguments : value
}.

Record Tool := {
  tool_name : string;
  tool_description : option string;
  tool_input_schema : value
}.

(** [SharedOptions] with the fields that [Chat.Options],
    [OptionsForReasoning] and [Completion.Options] add; a field a class
    does not declare is [None]. *)
Record Options := {
  temperature : option string;
  max_tokens : option Z;
  top_p : option string;
  frequency_penalty : option string;
  presence_penalty : option string;
  stop : option string;
  logit_bias : option value;
  seed : option Z;
  json_object : option bool;
  reasoning_effort : option string;
  logprobs : option Z
}.

Record Prompt := {
  p_system : option string;
  p_prompt : option string;
  p_attachments : list Attachment;
  p_tool_results : list ToolResult;
  p_schema : option value;
  p_tools : list Tool;
  p_options : Options
}.

(** An element of [conversation.responses] *)
Record PrevResponse := {
  r_prompt : Prompt;
  r_attachments : list Attachment;
  r_text : string;                (* text_or_raise() *)
  r_tool_calls : list ToolCall    (* tool_calls_or_raise() *)
}.

Record Model := {
  model_id : string;
  model_name : option string;
  allows_system_prompt : bool;
  default_max_tokens : option Z
}.

(** ** [_attachment] *)

Definition _attachment (attachment : Attachment) : value :=
  let type := att_type attachment in
  let fetch := negb (truthy_str (att_url attachment)) || startswith "audio/" type in
  let base64_content := if fetch then att_base64 attachment else EmptyString in
  let url :=
    if fetch then "data:" +:+ type +:+ ";base64," +:+ base64_content
    else default EmptyString (att_url attachment) in
  if String.eqb type "application/pdf" then
    let base64_content :=
      if truthy_str (Some base64_content) then base64_content
      else att_base64 attachment in
    VDict [("type", VStr "file");
           ("file", VDict [("filename", VStr (att_id attachment +:+ ".pdf"));
                           ("file_data", VStr ("data:application/pdf;base64," +:+ base64_content))])]
  else if startswith "image/" type then
    VDict [("type", VStr "image_url"); ("image_url", VDict [("url", VStr url)])]
  else
    let format_ := if String.eqb type "audio/wav" then "wav" else "mp3" in
    VDict [("type", VStr "input_audio");
           ("input_audio", VDict [("data", VStr base64_content); ("format", VStr format_)])].

(** ** [_Shared.build_messages] *)

Section BuildMessages.
(** [json.dumps], of the standard library: the text it produces for the
    arguments of an earlier tool call is not looked into here. *)
Variable json_dumps : value -> string.

Definition system_message (system : string) : value :=
  VDict [("role", VStr "system"); ("content", VStr system)].

Definition tool_message (tool_result : ToolResult) : value :=
  VDict [("role", VStr "tool");
         ("tool_call_id", opt_str (tr_tool_call_id tool_result));
         ("content", VStr (tr_output tool_result))].

Definition attachment_message (text : option string) (attachments : list Attachment) : value :=
  let text_part :=
    match text with
    | Some (String a s) => [VDict [("type", VStr "text"); ("text", VStr (String a s))]]
    | _ => []
    end in
  VDict [("role", VStr "user");
         ("content", VList (text_part ++ map _attachment attachments))].

Definition tool_calls_message (tool_calls : list ToolCall) : value :=
  VDict [("role", VStr "assistant");
         ("tool_calls",
           VList (map (fun tool_call =>
             VDict [("type", VStr "function");
                    ("id", opt_str (tc_tool_call_id tool_call));
                    ("function",
                      VDict [("name", opt_str (tc_name tool_call));
                             ("arguments", VStr (json_dumps (tc_arguments tool_call)))])])
             tool_calls))].

(** [x != current_system], for a system text [x] that is a string *)
Definition differs (system : string) (current_system : option string) : bool :=
  match current_system with
  | Some c => negb (String.eqb system c)
  | None => true
  end.

(** [if system and system != current_system]: the message appended and
    the new [current_system] *)
Definition system_step (current_system system : option string)
  : list value * option string :=
  match system with
  | Some (String a s) =>
      if differs (String a s) current_system
      then ([system_message (String a s)], Some (String a s))
      else ([], current_system)
  | _ => ([], current_system)
  end.

(** what one earlier response appends after its system message *)
Definition turn_body (prev_response : PrevResponse) : list value :=
  let prompt := r_prompt prev_response in
  let user :=
    match r_attachments prev_response with
    | _ :: _ => [attachment_message (p_prompt prompt) (r_attachments prev_response)]
    | [] =>
        match p_prompt prompt with
        | Some (String a s) => [VDict [("role", VStr "user"); ("content", VStr (String a s))]]
        | _ => []
        end
    end in
  let tools := map tool_message (p_tool_results prompt) in
  let text :=
    match r_text prev_response with
    | String a s => [VDict [("role", VStr "assistant"); ("content", VStr (String a s))]]
    | EmptyString => []
    end in
  let calls :=
    match r_tool_calls prev_response with
    | _ :: _ => [tool_calls_message (r_tool_calls prev_response)]
    | [] => []
    end in
  (user ++ tools ++ text ++ calls)%list.

(** The body of [for prev_response in conversation.responses]: the
    messages it appends and the new [current_system]. *)
Definition turn_messages (current_system : option string) (prev_response : PrevResponse)
  : list value * option string :=
  let '(sys, current_system) :=
    system_step current_system (p_system (r_prompt prev_response)) in
  ((sys ++ turn_body prev_response)%list, current_system).

Fixpoint history_messages (current_system : option string) (responses : list PrevResponse)
  : list value * option string :=
  match responses with
  | [] => ([], current_system)
  | prev_response :: rest =>
      let '(ms, current_system) := turn_messages current_system prev_response in
      let '(ms', current_system) := history_messages current_system rest in
      ((ms ++ ms')%list, current_system)
  end.

(** what the prompt appends after its system message *)
Definition prompt_body (prompt : Prompt) : list value :=
  let tools := map tool_message (p_tool_results prompt) in
  let user :=
    match p_attachments prompt with
    | [] =>
        match p_prompt prompt with
        | Some (String a s) => [VDict [("role", VStr "user"); ("content", VStr (String a s))]]
        | _ => []
        end
    | _ :: _ => [attachment_message (p_prompt prompt) (p_attachments prompt)]
    end in
  (tools ++ user)%list.

Definition build_messages (prompt : Prompt) (conversation : option (list PrevResponse))
  : list value :=
  let '(messages, current_system) :=
    match conversation with
    | Some responses => history_messages None responses
    | None => ([], None)
    end in
  (messages ++ (system_step current_system (p_system prompt)).1 ++ prompt_body prompt)%list.
End BuildMessages.

(** ** [not_nulls] and [_Shared.build_kwargs] *)

Definition opt_float (x : option string) : value :=
  match x with Some lit => VFloat lit | None => VNone end.
Definition opt_int (x : option Z) : value :=
  match x with Some z => VInt z | None => VNone end.
Definition opt_bool (x : option bool) : value :=
  match x with Some b => VBool b | None => VNone end.

(** Iterating over [prompt.options] gives the declared fields in order,
    unset ones with the value [None]. *)
Definition options_items (o : Options) : list (string * value) :=
  [("temperature", opt_float (temperature o));
   ("max_tokens", opt_int (max_tokens o));
   ("top_p", opt_float (top_p o));
   ("frequency_penalty", opt_float (frequency_penalty o));
   ("presence_penalty", opt_float (presence_penalty o));
   ("stop", opt_str (stop o));
   ("logit_bias", default VNone (logit_bias o));
   ("seed", opt_int (seed o));
   ("json_object", opt_bool (json_object o));
   ("reasoning_effort", opt_str (reasoning_effort o));
   ("logprobs", opt_int (logprobs o))].

Definition is_none (v : value) : bool :=
  match v with VNone => true | _ => false end.

Definition not_nulls (data : list (string * value)) : list (string * value) :=
  filter (fun kv => negb (is_none kv.2)) data.

Definition tool_descriptor (tool : Tool) : value :=
  VDict [("type", VStr "function");
         ("function",
           VDict [("name", VStr (tool_name tool));
                  ("description",
                    if truthy_str (tool_description tool)
                    then opt_str (tool_description tool) else VNone);
                  ("parameters", tool_input_schema tool)])].

Definition build_kwargs (self : Model) (prompt : Prompt) (stream : bool)
  : list (string * value) :=
  let kwargs := not_nulls (options_items (p_options prompt)) in
  let json_object := default VNone (dict_get "json_object" kwargs) in
  let kwargs := dict_remove "json_object" kwargs in
  let kwargs :=
    match dict_mem "max_tokens" kwargs, default_max_tokens self with
    | false, Some n => dict_set "max_tokens" (VInt n) kwargs
    | _, _ => kwargs
    end in
  let kwargs :=
    if truthy json_object
    then dict_set "response_format" (VDict [("type", VStr "json_object")]) kwargs
    else kwargs in
  let kwargs :=
    match p_schema prompt with
    | Some schema =>
        if truthy schema
        then dict_set "response_format"
               (VDict [("type", VStr "json_schema");
                       ("json_schema", VDict [("name", VStr "output"); ("schema", schema)])])
               kwargs
        else kwargs
    | None => kwargs
    end in
  let kwargs :=
    match p_tools prompt with
    | _ :: _ => dict_set "tools" (VList (map tool_descriptor (p_tools prompt))) kwargs
    | [] => kwargs
    end in
  if stream
  then dict_set "stream_options" (VDict [("include_usage", VBool true)]) kwargs
  else kwargs.

(** ** The response record and [_Shared.set_usage] *)

Record Usage := {
  input_tokens : value;
  output_tokens : value;
  details : list (string * value)
}.

Record Response := {
  response_json : option value;
  tool_calls : list ToolCall;
  usage : option Usage;
  _prompt_json : option val
}.

(** Modelled from the spec: [llm.utils.simplify_usage_dict] is imported
    from a module that is not among the sources; section 4.5 has it drop
    the zero and empty nested counters of what is left of the snapshot. *)
Fixpoint simplify_usage (v : value) : value :=
  match v with
  | VDict d =>
      VDict (omap (fun kx =>
        match simplify_usage kx.2 with
        | VNone | VInt 0 | VDict [] => None
        | x => Some (kx.1, x)
        end) d)
  | _ => v
  end.

Definition simplify_usage_dict (d : list (string * value)) : list (string * value) :=
  match simplify_usage (VDict d) with
  | VDict d' => d'
  | _ => []
  end.

(** Modelled from the spec: [llm.utils.remove_dict_none_values] is
    imported from a module that is not among the sources; section 3 has
    the stored payload be the provider-shape dict with null fields
    stripped. *)
Fixpoint remove_dict_none_values (v : value) : value :=
  match v with
  | VDict d =>
      VDict (omap (fun kx =>
        if is_none kx.2 then None
        else Some (kx.1, remove_dict_none_values kx.2)) d)
  | VList l => VList (map remove_dict_none_values l)
  | VAtom _ => v
  end.

Definition set_usage (response : Response) (usage : option (list (string * value)))
  : result Response :=
  match usage with
  | None | Some [] => Ok response
  | Some usage =>
      '(input_tokens, usage) ← dict_pop "prompt_tokens" usage;
      '(output_tokens, usage) ← dict_pop "completion_tokens" usage;
      '(_, usage) ← dict_pop "total_tokens" usage;
      Ok {| response_json := response_json response;
            tool_calls := tool_calls response;
            usage := Some {| input_tokens := input_tokens;
                             output_tokens := output_tokens;
                             details := simplify_usage_dict usage |};
            _prompt_json := _prompt_json response |}
  end.

(** ** [json.loads] on the text of a tool call's arguments *)

Module Json.
Definition code (c : ascii) : Z := Z.of_N (N_of_ascii c).

Definition is_ws (c : ascii) : bool :=
  (code c =? 32) || (code c =? 9) || (code c =? 10) || (code c =? 13).

Fixpoint skip_ws (s : string) : string :=
  match s with
  | String c r => if is_ws c then skip_ws r else s
  | EmptyString => s
  end.

Definition digit (c : ascii) : option Z :=
  let n := code c in
  if (48 <=? n) && (n <=? 57) then Some (n - 48) else None.

Definition hex (c : ascii) : option Z :=
  let n := code c in
  if (48 <=? n) && (n <=? 57) then Some (n - 48)
  else if (65 <=? n) && (n <=? 70) then Some (n - 55)
  else if (97 <=? n) && (n <=? 102) then Some (n - 87)
  else None.

(** the digits at the head of [s]: their text, their value after [acc],
    and what follows *)
Fixpoint digits (acc : Z) (s : string) : string * Z * string :=
  match s with
  | String c r =>
      match digit c with
      | Some d => let '(txt, z, rest) := digits (10 * acc + d) r in (String c txt, z, rest)
      | None => (EmptyString, acc, s)
      end
  | EmptyString => (EmptyString, acc, s)
  end.

Definition byte (z : Z) : ascii := ascii_of_N (Z.to_N z).

(** a code point as UTF-8 *)
Definition utf8 (cp : Z) : string :=
  if cp <? 128 then String (byte cp) EmptyString
  else if cp <? 2048 then
    String (byte (192 + cp / 64)) (String (byte (128 + cp mod 64)) EmptyString)
  else if cp <? 65536 then
    String (byte (224 + cp / 4096))
      (String (byte (128 + (cp / 64) mod 64)) (String (byte (128 + cp mod 64)) EmptyString))
  else
    String (byte (240 + cp / 262144))
      (String (byte (128 + (cp / 4096) mod 64))
         (String (byte (128 + (cp / 64) mod 64)) (String (byte (128 + cp mod 64)) EmptyString))).

Definition hex4 (a b c d : ascii) : option Z :=
  match hex a, hex b, hex c, hex d with
  | Some a, Some b, Some c, Some d => Some (4096 * a + 256 * b + 16 * c + d)
  | _, _, _, _ => None
  end.

(** the character a one-letter escape stands for *)
Definition escape (e : ascii) : option ascii :=
  let n := code e in
  if (n =? 34) || (n =? 92) || (n =? 47) then Some e
  else if n =? 98 then Some (byte 8)
  else if n =? 102 then Some (byte 12)
  else if n =? 110 then Some (byte 10)
  else if n =? 114 then Some (byte 13)
  else if n =? 116 then Some (byte 9)
  else None.

Definition emit (txt : string) (r : option (string * string)) : option (string * string) :=
  match r with
  | Some (t, rest) => Some (txt +:+ t, rest)
  | None => None
  end.

(** the body of a string, after its opening quote *)
Fixpoint scan_string (s : string) : option (string * string) :=
  match s with
  | EmptyString => None
  | String c r =>
      if code c =? 34 then Some (EmptyString, r)
      else if code c =? 92 then
        match r with
        | EmptyString => None
        | String e r1 =>
            if code e =? 117 then
              match r1 with
              | String a (String b (String c' (String d r4))) =>
                  match hex4 a b c' d with
                  | None => None
                  | Some hi =>
                      match r4 with
                      | String b1 (String u1 (String a2 (String b2 (String c2 (String d2 r10))))) =>
                          match hex4 a2 b2 c2 d2 with
                          | Some lo =>
                              if (55296 <=? hi) && (hi <=? 56319) && (code b1 =? 92)
                                 && (code u1 =? 117) && (56320 <=? lo) && (lo <=? 57343)
                              then emit (utf8 (65536 + (hi - 55296) * 1024 + (lo - 56320)))
                                        (scan_string r10)
                              else emit (utf8 hi) (scan_string r4)
                          | None => emit (utf8 hi) (scan_string r4)
                          end
                      | _ => emit (utf8 hi) (scan_string r4)
                      end
                  end
              | _ => None
              end
            else
              match escape e with
              | Some ch => emit (String ch EmptyString) (scan_string r1)
              | None => None
              end
        end
      else if code c <? 32 then None
      else emit (String c EmptyString) (scan_string r)
  end.

Definition head_is (n : Z) (s : string) : option string :=
  match s with
  | String c r => if code c =? n then Some r else None
  | EmptyString => None
  end.

(** [NUMBER_RE]: integer part, then an optional fraction and an optional
    exponent, each taken only when complete *)
Definition scan_number (s : string) : option (value * string) :=
  let '(sign, neg, s1) :=
    match head_is 45 s with
    | Some r => ("-", true, r)
    | None => (EmptyString, false, s)
    end in
  let int_part : option (string * Z * string) :=
    match head_is 48 s1 with
    | Some r => Some ("0", 0, r)
    | None =>
        match digits 0 s1 with
        | (EmptyString, _, _) => None
        | found => Some found
        end
    end in
  '(itxt, z, s2) ← int_part;
  let '(ftxt, s3) :=
    match head_is 46 s2 with
    | Some r =>
        match digits 0 r with
        | (EmptyString, _, _) => (EmptyString, s2)
        | (txt, _, rest) => ("." +:+ txt, rest)
        end
    | None => (EmptyString, s2)
    end in
  let '(etxt, s4) :=
    match s3 with
    | String e r =>
        if (code e =? 101) || (code e =? 69) then
          let '(stxt, r') :=
            match head_is 43 r, head_is 45 r with
            | Some r', _ => ("+", r')
            | None, Some r' => ("-", r')
            | None, None => (EmptyString, r)
            end in
          match digits 0 r' with
          | (EmptyString, _, _) => (EmptyString, s3)
          | (txt, _, rest) => (String e stxt +:+ txt, rest)
          end
        else (EmptyString, s3)
    | EmptyString => (EmptyString, s3)
    end in
  match ftxt, etxt with
  | EmptyString, EmptyString => Some (VInt (if neg then - z else z), s4)
  | _, _ => Some (VFloat (sign +:+ itxt +:+ ftxt +:+ etxt), s4)
  end.

Fixpoint strip_prefix (p s : string) : option string :=
  match p, s with
  | EmptyString, _ => Some s
  | String a p', String b s' => if Ascii.eqb a b then strip_prefix p' s' else None
  | String _ _, EmptyString => None
  end.

Definition literal (lit : string) (v : value) (s : string) : option (value * string) :=
  rest ← strip_prefix lit s; Some (v, rest).

Definition first_of {A} (xs : list (option A)) : option A :=
  foldr (fun x r => match x with Some _ => x | None => r end) None xs.

Section Containers.
Variable scan_once : string -> option (value * string).

(** after [[] or a comma: a value, then a comma or the closing bracket *)
Fixpoint scan_items (fuel : nat) (acc : list value) (s : string) : option (value * string) :=
  match fuel with
  | O => None
  | S fuel' =>
      '(v, rest) ← scan_once s;
      let rest := skip_ws rest in
      match head_is 44 rest, head_is 93 rest with
      | Some r, _ => scan_items fuel' (acc ++ [v])%list (skip_ws r)
      | None, Some r => Some (VList (acc ++ [v])%list, r)
      | None, None => None
      end
  end.

(** after [{] or a comma: a quoted key, a colon, a value, then a comma
    or the closing brace; a repeated key keeps its place and takes the
    last value *)
Fixpoint scan_pairs (fuel : nat) (acc : list (string * value)) (s : string)
  : option (value * string) :=
  match fuel with
  | O => None
  | S fuel' =>
      r ← head_is 34 s;
      '(key, rest) ← scan_string r;
      r ← head_is 58 (skip_ws rest);
      '(v, rest) ← scan_once (skip_ws r);
      let rest := skip_ws rest in
      match head_is 44 rest, head_is 125 rest with
      | Some r, _ => scan_pairs fuel' (dict_set key v acc) (skip_ws r)
      | None, Some r => Some (VDict (dict_set key v acc), r)
      | None, None => None
      end
  end.
End Containers.

Fixpoint scan_once (fuel : nat) (s : string) : option (value * string) :=
  match fuel with
  | O => None
  | S fuel' =>
      match head_is 34 s, head_is 123 s, head_is 91 s with
      | Some r, _, _ => '(txt, rest) ← scan_string r; Some (VStr txt, rest)
      | None, Some r, _ =>
          match head_is 125 (skip_ws r) with
          | Some r' => Some (VDict [], r')
          | None => scan_pairs (scan_once fuel') fuel' [] (skip_ws r)
          end
      | None, None, Some r =>
          match head_is 93 (skip_ws r) with
          | Some r' => Some (VList [], r')
          | None => scan_items (scan_once fuel') fuel' [] (skip_ws r)
          end
      | None, None, None =>
          first_of [literal "null" VNone s;
                    literal "true" (VBool true) s;
                    literal "false" (VBool false) s;
                    scan_number s;
                    literal "NaN" (VFloat "nan") s;
                    literal "Infinity" (VFloat "inf") s;
                    literal "-Infinity" (VFloat "-inf") s]
      end
  end.

(** [json.loads(s)]: one value between optional white space, and nothing
    after it *)
Definition loads (s : string) : result value :=
  match scan_once (S (String.length s)) (skip_ws s) with
  | Some (v, rest) =>
      match skip_ws rest with
      | EmptyString => Ok v
      | _ => Err JSONDecodeError
      end
  | None => Err JSONDecodeError
  end.
End Json.

(** Text with a double quote in it is written with [dq]. *)
Definition dq : string := String (Json.byte 34) EmptyString.
Definition quoted (s : string) : string := dq +:+ s +:+ dq.

(** ** What the transport delivers *)

Record ChoiceDeltaToolCallFunction := {
  fn_arguments : option string;
  fn_name : option string
}.

Record ChoiceDeltaToolCall := {
  tcd_index : Z;
  tcd_id : option string;
  tcd_function : option ChoiceDeltaToolCallFunction
}.

Record ChoiceDelta := {
  delta_role : option string;
  delta_content : option string;
  delta_tool_calls : option (list ChoiceDeltaToolCall)
}.

(** [top_logprobs] is [None] when the object has no such attribute. *)
Record Logprobs := { top_logprobs : option value }.

(** A choice of a chat chunk has a [delta] and no [text]; a choice of a
    legacy completion chunk has a [text] and no [delta]. *)
Inductive Choice : Type :=
| ChatChoice (delta : option ChoiceDelta) (finish_reason : option string)
             (choice_logprobs : option Logprobs)
| TextChoice (text : option string) (finish_reason : option string)
             (choice_logprobs : option Logprobs).

(** [chunk_usage] is [chunk.usage.model_dump()] when [chunk.usage] is set. *)
Record Chunk := {
  chunk_usage : option (list (string * value));
  chunk_choices : list Choice;
  chunk_id : option string;
  chunk_object : option string;
  chunk_model : option string;
  chunk_created : option Z;
  chunk_index : option Z
}.

Record ChatCompletionMessage := {
  message_content : option string;
  message_tool_calls : option (list ChoiceDeltaToolCall)
}.

Record ChatCompletion := {
  completion_usage : option (list (string * value));
  completion_choices : list ChatCompletionMessage;
  completion_dump : value                      (* completion.model_dump() *)
}.

Record TextCompletion := {
  text_choices : list string;
  text_dump : value
}.

(** What comes back from the remote endpoint: the payload, or a failure
    with its status. *)
Inductive reply (A : Type) : Type :=
| Delivered (a : A)
| Failed (status : Z).
Arguments Delivered {A} a.
Arguments Failed {A} status.

Definition receive {A} (r : reply A) : result A :=
  match r with
  | Delivered a => Ok a
  | Failed status => Err (TransportFailure status)
  end.

(** The replies of the remote endpoint to the one call an execution makes *)
Record Transport := {
  stream_reply : reply (list Chunk);
  chat_reply : reply ChatCompletion;
  text_reply : reply TextCompletion
}.

(** ** [combine_chunks] *)

Record Combined := {
  cc_content : string;
  cc_role : option string;
  cc_finish_reason : option string;
  cc_logprobs : list value;
  cc_usage : list (string * value)
}.

Definition logprobs_entry (text : option string) (lp : option Logprobs) : list value :=
  match lp with
  | Some {| top_logprobs := Some top |} =>
      [VDict [("text", opt_str text); ("top_logprobs", top)]]
  | _ => []
  end.

(** the body of [for choice in item.choices] *)
Definition combine_choice (c : Combined) (choice : Choice) : result Combined :=
  match choice with
  | TextChoice text _ lp =>
      let logprobs := (cc_logprobs c ++ logprobs_entry text lp)%list in
      match text with
      | Some text =>
          Ok {| cc_content := cc_content c +:+ text; cc_role := cc_role c;
                cc_finish_reason := cc_finish_reason c; cc_logprobs := logprobs;
                cc_usage := cc_usage c |}
      | None => Err TypeError
      end
  | ChatChoice delta finish_reason lp =>
      let logprobs := (cc_logprobs c ++ logprobs_entry None lp)%list in
      match delta with
      | Some delta =>
          Ok {| cc_content :=
                  match delta_content delta with
                  | Some content => cc_content c +:+ content
                  | None => cc_content c
                  end;
                cc_role := delta_role delta;
                cc_finish_reason :=
                  match finish_reason with
                  | Some _ => finish_reason
                  | None => cc_finish_reason c
                  end;
                cc_logprobs := logprobs;
                cc_usage := cc_usage c |}
      | None => Err AttributeError
      end
  end.

Fixpoint combine_choices (c : Combined) (choices : list Choice) : result Combined :=
  match choices with
  | [] => Ok c
  | choice :: rest => c' ← combine_choice c choice; combine_choices c' rest
  end.

(** the body of [for item in chunks] *)
Definition combine_item (c : Combined) (item : Chunk) : result Combined :=
  let c :=
    match chunk_usage item with
    | Some usage =>
        {| cc_content := cc_content c; cc_role := cc_role c;
           cc_finish_reason := cc_finish_reason c; cc_logprobs := cc_logprobs c;
           cc_usage := usage |}
    | None => c
    end in
  combine_choices c (chunk_choices item).

Fixpoint combine_items (c : Combined) (chunks : list Chunk) : result Combined :=
  match chunks with
  | [] => Ok c
  | item :: rest => c' ← combine_item c item; combine_items c' rest
  end.

Definition present (key : string) (v : value) : list (string * value) :=
  if is_none v then [] else [(key, v)].

Definition combine_chunks (chunks : list Chunk) : result value :=
  c ← combine_items {| cc_content := EmptyString; cc_role := None; cc_finish_reason := None;
                       cc_logprobs := []; cc_usage := [] |} chunks;
  Ok (VDict ([("content", VStr (cc_content c));
              ("role", opt_str (cc_role c));
              ("finish_reason", opt_str (cc_finish_reason c));
              ("usage", VDict (cc_usage c))]
             ++ match cc_logprobs c with
                | [] => []
                | _ :: _ => [("logprobs", VList (cc_logprobs c))]
                end
             ++ match chunks with
                | [] => []
                | first :: _ =>
                    present "id" (opt_str (chunk_id first))
                    ++ present "object" (opt_str (chunk_object first))
                    ++ present "model" (opt_str (chunk_model first))
                    ++ present "created" (opt_int (chunk_created first))
                    ++ present "index" (opt_int (chunk_index first))
                end)%list).

(** ** The chunk aggregator: tool-call deltas

    Every tool-call delta of the stream is an object of its own; the loop
    keeps references to some of them in [tool_calls] and writes to their
    [function.arguments]. *)

Record Deltas := {
  objects : list ChoiceDeltaToolCall;   (* the delta objects delivered so far *)
  tool_calls_by_index : list (Z * loc)  (* the dict [tool_calls], in insertion order *)
}.

Fixpoint index_get (index : Z) (d : list (Z * loc)) : option loc :=
  match d with
  | [] => None
  | (i, l) :: r => if i =? index then Some l else index_get index r
  end.

Definition set_arguments (arguments : string) (tool_call : ChoiceDeltaToolCall)
  : ChoiceDeltaToolCall :=
  {| tcd_index := tcd_index tool_call;
     tcd_id := tcd_id tool_call;
     tcd_function :=
       match tcd_function tool_call with
       | Some f => Some {| fn_arguments := Some arguments; fn_name := fn_name f |}
       | None => None
       end |}.

(** [x.function.arguments], for the object at [l] *)
Definition get_arguments (objects : list ChoiceDeltaToolCall) (l : loc) : result (option string) :=
  match objects !! l with
  | Some tool_call =>
      match tcd_function tool_call with
      | Some f => Ok (fn_arguments f)
      | None => Err AttributeError
      end
  | None => Err AttributeError
  end.

(** the body of [for tool_call in chunk.choices[0].delta.tool_calls or []],
    run on the object at [tool_call] *)
Definition tool_call_step (ds : Deltas) (tool_call : loc) : result Deltas :=
  arguments ← get_arguments (objects ds) tool_call;
  let objects :=
    match arguments with
    | None => alter (set_arguments EmptyString) tool_call (objects ds)
    | Some _ => objects ds
    end in
  index ← match objects !! tool_call with
          | Some o => Ok (tcd_index o)
          | None => Err AttributeError
          end;
  let tool_calls :=
    match index_get index (tool_calls_by_index ds) with
    | None => (tool_calls_by_index ds ++ [(index, tool_call)])%list
    | Some _ => tool_calls_by_index ds
    end in
  target ← match index_get index tool_calls with
           | Some l => Ok l
           | None => Err (KeyError EmptyString)
           end;
  old ← get_arguments objects target;
  new ← get_arguments objects tool_call;
  match old, new with
  | Some old, Some new =>
      Ok {| objects := alter (set_arguments (old +:+ new)) target objects;
            tool_calls_by_index := tool_calls |}
  | _, _ => Err TypeError
  end.

(** the whole inner loop; each delta of the chunk is a fresh object *)
Fixpoint tool_calls_loop (ds : Deltas) (deltas : list ChoiceDeltaToolCall) : result Deltas :=
  match deltas with
  | [] => Ok ds
  | tool_call :: rest =>
      let l := length (objects ds) in
      ds' ← tool_call_step {| objects := (objects ds ++ [tool_call])%list;
                              tool_calls_by_index := tool_calls_by_index ds |} l;
      tool_calls_loop ds' rest
  end.

(** [chunk.choices[0].delta], when there is a first choice *)
Definition first_delta (chunk : Chunk) : result (option (option ChoiceDelta)) :=
  match chunk_choices chunk with
  | [] => Ok None
  | ChatChoice delta _ _ :: _ => Ok (Some delta)
  | TextChoice _ _ _ :: _ => Err AttributeError
  end.

(** [if chunk.choices and chunk.choices[0].delta: for tool_call in ...] *)
Definition chunk_tool_calls (ds : Deltas) (chunk : Chunk) : result Deltas :=
  delta ← first_delta chunk;
  match delta with
  | Some (Some delta) => tool_calls_loop ds (default [] (delta_tool_calls delta))
  | _ => Ok ds
  end.

(** [try: content = chunk.choices[0].delta.content
     except IndexError: content = None] *)
Definition chunk_content (chunk : Chunk) : result (option string) :=
  delta ← first_delta chunk;
  match delta with
  | None => Ok None
  | Some (Some delta) => Ok (delta_content delta)
  | Some None => Err AttributeError
  end.

(** [llm.ToolCall(tool_call_id=value.id, name=value.function.name,
                  arguments=json.loads(value.function.arguments or "{}"))] *)
Definition make_tool_call (value : ChoiceDeltaToolCall) : result ToolCall :=
  match tcd_function value with
  | Some f =>
      arguments ← Json.loads (match fn_arguments f with
                              | Some (String a s) => String a s
                              | _ => "{}"
                              end);
      Ok {| tc_tool_call_id := tcd_id value; tc_name := fn_name f; tc_arguments := arguments |}
  | None => Err AttributeError
  end.

(** [tool_calls.values()] *)
Definition values (ds : Deltas) : list ChoiceDeltaToolCall :=
  omap (fun il => objects ds !! il.2) (tool_calls_by_index ds).

(** ** The executors *)

Inductive Call : Type :=
| ChatCreate (model : string) (messages : val) (wire : value)
             (kwargs : list (string * value)) (stream : bool)
| CompletionCreate (model : string) (prompt : string)
                   (kwargs : list (string * value)) (stream : bool).

(** What the caller can see: the object store, the response it passed in,
    the text yielded so far and the calls made to the endpoint. *)
Record world := {
  store : heap;
  response : Response;
  yielded : list string;
  calls : list Call
}.

Definition M (A : Type) : Type := world -> result A * world.

#[global] Instance M_ret : MRet M := fun A a w => (Ok a, w).
#[global] Instance M_bind : MBind M := fun A B k m w =>
  match m w with
  | (Ok a, w') => k a w'
  | (Err e, w') => (Err e, w')
  end.

Definition raise {A} (e : exn) : M A := fun w => (Err e, w).
Definition lift {A} (r : result A) : M A := fun w => (r, w).

Definition yield (text : string) : M unit := fun w =>
  (Ok tt, {| store := store w; response := response w;
             yielded := (yielded w ++ [text])%list; calls := calls w |}).

Definition record_call (c : Call) : M unit := fun w =>
  (Ok tt, {| store := store w; response := response w;
             yielded := yielded w; calls := (calls w ++ [c])%list |}).

Definition modify_response (f : Response -> Response) : M unit := fun w =>
  (Ok tt, {| store := store w; response := f (response w);
             yielded := yielded w; calls := calls w |}).

Definition set_response_json (v : value) : M unit :=
  modify_response (fun r =>
    {| response_json := Some v; tool_calls := tool_calls r;
       usage := usage r; _prompt_json := _prompt_json r |}).

Definition add_tool_call (tc : ToolCall) : M unit :=
  modify_response (fun r =>
    {| response_json := response_json r; tool_calls := (tool_calls r ++ [tc])%list;
       usage := usage r; _prompt_json := _prompt_json r |}).

Definition set_prompt_json (v : val) : M unit :=
  modify_response (fun r =>
    {| response_json := response_json r; tool_calls := tool_calls r;
       usage := usage r; _prompt_json := Some v |}).

(** [self.set_usage(response, usage)] *)
Definition do_set_usage (usage : option (list (string * value))) : M unit := fun w =>
  match set_usage (response w) usage with
  | Ok r => (Ok tt, {| store := store w; response := r;
                       yielded := yielded w; calls := calls w |})
  | Err e => (Err e, w)
  end.

(** a list or dict display: new objects in the store *)
Definition new (t : value) : M val := fun w =>
  let '(v, h) := alloc t (store w) in
  (Ok v, {| store := h; response := response w; yielded := yielded w; calls := calls w |}).

(** [{"messages": messages}] *)
Definition new_request (messages : val) : M val := fun w =>
  (Ok (Ref (length (store w))),
   {| store := (store w ++ [ODict [("messages", messages)]])%list; response := response w;
      yielded := yielded w; calls := calls w |}).

Definition recursion_limit : nat := 1000.

(** [response._prompt_json = redact_data({"messages": messages})]. The
    wrapper dict is a new object whose only entry refers to the live list;
    [redact_data] rewrites the objects reachable from it in place and
    returns its argument. Should the rewrite raise, the exception leaves
    [execute] and the store is reported as it was before the rewrite
    began: no claim reads the store of a raising run. *)
Definition store_prompt_json (messages : val) : M unit :=
  request ← new_request messages;
  (fun w =>
     match redact_data recursion_limit request (store w) with
     | Ok h => (Ok tt, {| store := h; response := response w;
                          yielded := yielded w; calls := calls w |})
     | Err e => (Err e, w)
     end);;
  set_prompt_json request.

Fixpoint add_tool_calls (vs : list ChoiceDeltaToolCall) : M unit :=
  match vs with
  | [] => mret tt
  | value :: rest =>
      tc ← lift (make_tool_call value);
      add_tool_call tc;;
      add_tool_calls rest
  end.

Definition yield_content (content : option string) : M unit :=
  match content with
  | Some content => yield content
  | None => mret tt
  end.

(** The local variables of the streaming loop *)
Record Accumulator := {
  chunks : list Chunk;
  deltas : Deltas;
  last_usage : option (list (string * value))
}.

Definition start : Accumulator :=
  {| chunks := []; deltas := {| objects := []; tool_calls_by_index := [] |};
     last_usage := None |}.

Section Executors.
Variable json_dumps : value -> string.
Variable self : Model.
Variable transport : Transport.

(** [self.model_name or self.model_id] *)
Definition model_arg : string :=
  match model_name self with
  | Some (String a s) => String a s
  | _ => model_id self
  end.

(** [client.chat.completions.create(model=..., messages=messages,
    stream=..., **kwargs)]: the endpoint is sent what [messages] holds at
    this moment. *)
Definition chat_create {A} (reply : Transport -> reply A) (messages : val) (wire : value)
    (kwargs : list (string * value)) (stream : bool) : M A :=
  record_call (ChatCreate model_arg messages wire kwargs stream);;
  lift (receive (reply transport)).

(** *** [Chat.execute] *)

(** the body of [for chunk in completion] *)
Definition Chat_chunk (acc : Accumulator) (chunk : Chunk) : M Accumulator :=
  let chunks := (chunks acc ++ [chunk])%list in
  let usage :=
    match chunk_usage chunk with
    | Some u => Some u
    | None => last_usage acc
    end in
  tool_calls ← lift (chunk_tool_calls (deltas acc) chunk);
  content ← lift (chunk_content chunk);
  yield_content content;;
  mret {| chunks := chunks; deltas := tool_calls; last_usage := usage |}.

Fixpoint Chat_loop (acc : Accumulator) (completion : list Chunk) : M Accumulator :=
  match completion with
  | [] => mret acc
  | chunk :: rest => acc' ← Chat_chunk acc chunk; Chat_loop acc' rest
  end.

Definition Chat_stream (messages : val) (wire : value) (kwargs : list (string * value))
  : M (option (list (string * value))) :=
  completion ← chat_create stream_reply messages wire kwargs true;
  acc ← Chat_loop start completion;
  combined ← lift (combine_chunks (chunks acc));
  set_response_json (remove_dict_none_values combined);;
  add_tool_calls (values (deltas acc));;
  mret (last_usage acc).

Definition Chat_single (messages : val) (wire : value) (kwargs : list (string * value))
  : M (option (list (string * value))) :=
  completion ← chat_create chat_reply messages wire kwargs false;
  usage ← lift (match completion_usage completion with
                | Some u => Ok u
                | None => Err AttributeError
                end);
  set_response_json (remove_dict_none_values (completion_dump completion));;
  message ← lift (match completion_choices completion with
                  | m :: _ => Ok m
                  | [] => Err IndexError
                  end);
  add_tool_calls (default [] (message_tool_calls message));;
  yield_content (message_content message);;
  mret (Some usage).

Definition Chat_execute (prompt : Prompt) (stream : bool)
    (conversation : option (list PrevResponse)) : M unit :=
  if truthy_str (p_system prompt) && negb (allows_system_prompt self)
  then raise (NotImplementedError "Model does not support system prompts")
  else
    let wire := VList (build_messages json_dumps prompt conversation) in
    messages ← new wire;
    let kwargs := build_kwargs self prompt stream in
    usage ← (if stream then Chat_stream messages wire kwargs
             else Chat_single messages wire kwargs);
    do_set_usage usage;;
    store_prompt_json messages.

(** *** [AsyncChat.execute] *)

(** the body of [async for chunk in completion] *)
Definition AsyncChat_chunk (acc : Accumulator) (chunk : Chunk) : M Accumulator :=
  let usage :=
    match chunk_usage chunk with
    | Some u => Some u
    | None => last_usage acc
    end in
  let chunks := (chunks acc ++ [chunk])%list in
  let usage :=
    match chunk_usage chunk with
    | Some u => Some u
    | None => usage
    end in
  tool_calls ← lift (chunk_tool_calls (deltas acc) chunk);
  content ← lift (chunk_content chunk);
  yield_content content;;
  mret {| chunks := chunks; deltas := tool_calls; last_usage := usage |}.

Fixpoint AsyncChat_loop (acc : Accumulator) (completion : list Chunk) : M Accumulator :=
  match completion with
  | [] => mret acc
  | chunk :: rest => acc' ← AsyncChat_chunk acc chunk; AsyncChat_loop acc' rest
  end.

Definition AsyncChat_stream (messages : val) (wire : value) (kwargs : list (string * value))
  : M (option (list (string * value))) :=
  completion ← chat_create stream_reply messages wire kwargs true;
  acc ← AsyncChat_loop start completion;
  add_tool_calls (values (deltas acc));;
  combined ← lift (combine_chunks (chunks acc));
  set_response_json (remove_dict_none_values combined);;
  mret (last_usage acc).

Definition AsyncChat_single (messages : val) (wire : value) (kwargs : list (string * value))
  : M (option (list (string * value))) :=
  completion ← chat_create chat_reply messages wire kwargs false;
  set_response_json (remove_dict_none_values (completion_dump completion));;
  usage ← lift (match completion_usage completion with
                | Some u => Ok u
                | None => Err AttributeError
                end);
  message ← lift (match completion_choices completion with
                  | m :: _ => Ok m
                  | [] => Err IndexError
                  end);
  add_tool_calls (default [] (message_tool_calls message));;
  yield_content (message_content message);;
  mret (Some usage).

Definition AsyncChat_execute (prompt : Prompt) (stream : bool)
    (conversation : option (list PrevResponse)) : M unit :=
  if truthy_str (p_system prompt) && negb (allows_system_prompt self)
  then raise (NotImplementedError "Model does not support system prompts")
  else
    let wire := VList (build_messages json_dumps prompt conversation) in
    messages ← new wire;
    let kwargs := build_kwargs self prompt stream in
    usage ← (if stream then AsyncChat_stream messages wire kwargs
             else AsyncChat_single messages wire kwargs);
    do_set_usage usage;;
    store_prompt_json messages.

(** *** [Completion.execute], the legacy variant *)

(** [chunk.choices[0].text], [None] when there is no choice *)
Definition chunk_text (chunk : Chunk) : result (option string) :=
  match chunk_choices chunk with
  | [] => Ok None
  | TextChoice text _ _ :: _ => Ok text
  | ChatChoice _ _ _ :: _ => Err AttributeError
  end.

Fixpoint Completion_loop (chunks : list Chunk) (completion : list Chunk) : M (list Chunk) :=
  match completion with
  | [] => mret chunks
  | chunk :: rest =>
      content ← lift (chunk_text chunk);
      yield_content content;;
      Completion_loop (chunks ++ [chunk])%list rest
  end.

(** ["\n".join(messages)] *)
Fixpoint join_lines (messages : list (option string)) : result string :=
  match messages with
  | [] => Ok EmptyString
  | None :: _ => Err TypeError
  | [Some m] => Ok m
  | Some m :: rest => r ← join_lines rest; Ok (m +:+ String (Json.byte 10) r)
  end.

Definition Completion_execute (prompt : Prompt) (stream : bool)
    (conversation : option (list PrevResponse)) : M unit :=
  if truthy_str (p_system prompt)
  then raise (NotImplementedError
                "System prompts are not supported for OpenAI completion models")
  else
    let history :=
      match conversation with
      | Some responses =>
          flat_map (fun prev_response =>
                      [p_prompt (r_prompt prev_response); Some (r_text prev_response)])
                   responses
      | None => []
      end in
    let lines := (history ++ [p_prompt prompt])%list in
    messages ← new (VList (map opt_str lines));
    let kwargs := build_kwargs self prompt stream in
    text ← lift (join_lines lines);
    record_call (CompletionCreate model_arg text kwargs stream);;
    (if stream then
       completion ← lift (receive (stream_reply transport));
       chunks ← Completion_loop [] completion;
       combined ← lift (combine_chunks chunks);
       set_response_json (remove_dict_none_values combined)
     else
       completion ← lift (receive (text_reply transport));
       set_response_json (remove_dict_none_values (text_dump completion));;
       match text_choices completion with
       | text :: _ => yield text
       | [] => raise IndexError
       end);;
    store_prompt_json messages.
End Executors.

(** ** What the spec says redaction may change: the [url] of an
       [image_url] part when it is a data URL, and the [data] of an
       [input_audio] part; nothing else. *)

Definition redacted_field (key : string) (x y : value) : Prop :=
  (key = "image_url" /\
   exists d u, x = VDict d /\ dict_get "url" d = Some (VStr u) /\
               startswith "data:" u = true /\
               y = VDict (dict_set "url" (VStr DATA_PLACEHOLDER) d))
  \/
  (key = "input_audio" /\
   exists d, x = VDict d /\ dict_mem "data" d = true /\
             y = VDict (dict_set "data" (VStr AUDIO_PLACEHOLDER) d)).


(** [v] when it is not [None] *)
Definition non_null (v : value) : option value :=
  if is_none v then None else Some v.

(** ** System messages in a message list *)

(** the text of a message whose role is [system] *)
Definition system_text (message : value) : option string :=
  match message with
  | VDict d =>
      match dict_get "role" d, dict_get "content" d with
      | Some (VStr role), Some (VStr content) =>
          if String.eqb role "system" then Some content else None
      | _, _ => None
      end
  | _ => None
  end.

Definition system_texts (messages : list value) : list string :=
  omap system_text messages.

(** The rule as the spec words it: going through the system texts of the
    turns and then of the prompt, a text that is set is emitted when it
    differs from the one emitted last. *)
Fixpoint emitted_systems (last : option string) (systems : list (option string))
  : list string :=
  match systems with
  | [] => []
  | None :: rest => emitted_systems last rest
  | Some EmptyString :: rest => emitted_systems last rest
  | Some s :: rest =>
      if decide (Some s = last) then emitted_systems last rest
      else s :: emitted_systems (Some s) rest
  end.

(** the system texts a conversation and a prompt bring, in order *)
Definition system_inputs (prompt : Prompt) (conversation : option (list PrevResponse))
  : list (option string) :=
  (map (fun prev_response => p_system (r_prompt prev_response)) (default [] conversation)
   ++ [p_system prompt])%list.

(** no element is followed by an equal one *)
Definition no_repeat (l : list string) : Prop :=
  forall i s s', l !! i = Some s -> l !! S i = Some s' -> s <> s'.

(** ** Fresh structures in the store *)

(** how deep a structure nests *)
Fixpoint depth (t : value) : nat :=
  match t with
  | VAtom _ => 0
  | VList l => S (max_list (map depth l))
  | VDict d => S (max_list (map (fun kx => depth kx.2) d))
  end.

Section LayoutAll.
Context {A B : Type} (f : nat -> A -> B * list obj).

Fixpoint layout_all (base : nat) (xs : list A) : list B * list obj :=
  match xs with
  | [] => ([], [])
  | x :: r =>
      let '(v, d) := f base x in
      let '(vs, D) := layout_all (base + length d)%nat r in
      (v :: vs, (d ++ D)%list)
  end.
End LayoutAll.

(** The objects that [alloc] adds to a store of [base] objects, and the
    value that stands for the structure. *)
Fixpoint layout (base : nat) (t : value) : val * list obj :=
  match t with
  | VAtom a => (Imm a, [])
  | VList ts =>
      let '(vs, D) := layout_all layout base ts in
      (Ref (base + length D)%nat, (D ++ [OList vs])%list)
  | VDict kts =>
      let '(kvs, D) :=
        layout_all (fun b kt => let '(v, d) := layout b kt.2 in ((kt.1, v), d)) base kts in
      (Ref (base + length D)%nat, (D ++ [ODict kvs])%list)
  end.

(** the store holds the objects [seg] from address [base] on *)
Definition seg_at (base : nat) (seg : list obj) (h : heap) : Prop :=
  forall i o, seg !! i = Some o -> h !! (base + i)%nat = Some o.

(** [v] stands for [t] in every store that holds [seg] at [base] *)
Definition reads_in (base : nat) (seg : list obj) (v : val) (t : value) : Prop :=
  forall h, seg_at base seg h -> reads h v t.

(** how [layout] lays out one entry of a dict *)
Abbreviation layout_entry :=
  (fun (b : nat) (kt : string * value) => let '(v, d) := layout b kt.2 in ((kt.1, v), d)).

(** What is to be shown of [redact_data] on a fresh structure [t], with
    room for [n] nested calls: run on the objects of [t] wherever they sit
    in the store, it succeeds, rewrites only these objects, and leaves in
    their place a structure that reads as [redact t]. *)
Definition refines_at (n : nat) (t : value) : Prop :=
  forall t' pre post,
    (depth t < n)%nat -> redact t = Ok t' ->
    exists d',
      length d' = length (layout (length pre) t).2 /\
      redact_data n (layout (length pre) t).1 (pre ++ (layout (length pre) t).2 ++ post)
      = Ok (pre ++ d' ++ post)%list /\
      reads_in (length pre) d' (layout (length pre) t).1 t'.

(** [t] nests at most [n] deep and its redaction does not raise *)
Definition fits (n : nat) (t : value) : Prop :=
  (depth t <= n)%nat /\ is_ok (redact t) = true.

(** ** Reading the store *)

(** the tree a value stands for, followed at most [fuel] objects deep *)
Fixpoint snapshot (fuel : nat) (h : heap) (v : val) : option value :=
  match fuel with
  | O => None
  | S fuel' =>
      match v with
      | Imm a => Some (VAtom a)
      | Ref l =>
          match h !! l with
          | Some (OList vs) => VList <$> mapM (snapshot fuel' h) vs
          | Some (ODict kvs) =>
              VDict <$> mapM (fun kv => t ← snapshot fuel' h kv.2; Some (kv.1, t)) kvs
          | None => None
          end
      end
  end.

(** ** What an action does to the store and to the calls made *)

(** neither allocates, nor writes, nor calls the endpoint *)
Definition quiet {A} (m : M A) : Prop :=
  forall w, store (m w).2 = store w /\ calls (m w).2 = calls w.

(** makes the call [c] and no other, and leaves the store alone *)
Definition one_call {A} (c : Call) (m : M A) : Prop :=
  forall w, store (m w).2 = store w /\ calls (m w).2 = calls w ++ [c].

(** ** Sample inputs *)

Definition no_options : Options :=
  {| temperature := None; max_tokens := None; top_p := None; frequency_penalty := None;
     presence_penalty := None; stop := None; logit_bias := None; seed := None;
     json_object := None; reasoning_effort := None; logprobs := None |}.

(** a serialiser for runs whose history made no tool call *)
Definition dumps_unused (v : value) : string := EmptyString.

Definition gpt_4o : Model :=
  {| model_id := "gpt-4o"; model_name := None; allows_system_prompt := true;
     default_max_tokens := None |}.

Definition o1_mini : Model :=
  {| model_id := "o1-mini"; model_name := None; allows_system_prompt := false;
     default_max_tokens := None |}.

Definition png : Attachment :=
  {| att_url := None; att_type := "image/png"; att_base64 := "AAAA"; att_id := "a1" |}.

(** "Describe this" with an inline PNG *)
Definition image_prompt : Prompt :=
  {| p_system := None; p_prompt := Some "Describe this"; p_attachments := [png];
     p_tool_results := []; p_schema := None; p_tools := []; p_options := no_options |}.

Definition text_prompt : Prompt :=
  {| p_system := None; p_prompt := Some "Hi"; p_attachments := [];
     p_tool_results := []; p_schema := None; p_tools := []; p_options := no_options |}.

Definition content_chunk (content : string) : Chunk :=
  {| chunk_usage := None;
     chunk_choices :=
       [ChatChoice (Some {| delta_role := None; delta_content := Some content;
                            delta_tool_calls := None |}) None None];
     chunk_id := Some "chatcmpl-1"; chunk_object := None; chunk_model := None;
     chunk_created := None; chunk_index := None |}.

Definition usage_chunk (usage : list (string * value)) : Chunk :=
  {| chunk_usage := Some usage; chunk_choices := [];
     chunk_id := Some "chatcmpl-1"; chunk_object := None; chunk_model := None;
     chunk_created := None; chunk_index := None |}.

Definition tool_delta (index : Z) (arguments : option string) : ChoiceDeltaToolCall :=
  {| tcd_index := index; tcd_id := Some "call_1";
     tcd_function := Some {| fn_arguments := arguments; fn_name := Some "get_weather" |} |}.

Definition tool_chunk (tool_calls : list ChoiceDeltaToolCall) : Chunk :=
  {| chunk_usage := None;
     chunk_choices :=
       [ChatChoice (Some {| delta_role := None; delta_content := None;
                            delta_tool_calls := Some tool_calls |}) None None];
     chunk_id := Some "chatcmpl-1"; chunk_object := None; chunk_model := None;
     chunk_created := None; chunk_index := None |}.

Definition streaming (completion : list Chunk) : Transport :=
  {| stream_reply := Delivered completion; chat_reply := Failed 500;
     text_reply := Failed 500 |}.

Definition hello_usage : list (string * value) :=
  [("prompt_tokens", VInt 5); ("completion_tokens", VInt 2); ("total_tokens", VInt 7)].

(** the stream of the spec's scenario: three content deltas, then a
    fragment that carries the usage *)
Definition hello_stream : list Chunk :=
  [content_chunk "Hel"; content_chunk "lo"; content_chunk EmptyString;
   usage_chunk hello_usage].

Definition empty_response : Response :=
  {| response_json := None; tool_calls := []; usage := None; _prompt_json := None |}.

Definition empty_world : world :=
  {| store := []; response := empty_response; yielded := []; calls := [] |}.

Definition image_part : value :=
  VDict [("type", VStr "image_url");
         ("image_url", VDict [("url", VStr "data:image/png;base64,AAAA")])].

Definition image_part_redacted : value :=
  VDict [("type", VStr "image_url"); ("image_url", VDict [("url", VStr "data:...")])].

(** the same scenario with the usage carried by the third fragment *)
Definition hello_stream_short : list Chunk :=
  [content_chunk "Hel"; content_chunk "lo";
   {| chunk_usage := Some hello_usage;
      chunk_choices :=
        [ChatChoice (Some {| delta_role := None; delta_content := Some EmptyString;
                             delta_tool_calls := None |}) None None];
      chunk_id := Some "chatcmpl-1"; chunk_object := None; chunk_model := None;
      chunk_created := None; chunk_index := None |}].

Definition hello_normalized : Usage :=
  {| input_tokens := VInt 5; output_tokens := VInt 2; details := [] |}.

(** the [content] of a stored payload *)
Definition content_of (response_json : option value) : option value :=
  match response_json with
  | Some (VDict d) => dict_get "content" d
  | _ => None
  end.

Definition hello_json : value :=
  VDict [("content", VStr "Hello"); ("usage", VDict hello_usage);
         ("id", VStr "chatcmpl-1")].

(** ** Comparing two runs *)

(** Two runs agree when they have yielded the same text, made the same
    calls and left the same store, when one completes exactly if the other
    does, and when, completed, they leave the same world: the response
    with its payload, tool calls, usage and request included. *)
Definition agree {A} (x y : result A * world) : Prop :=
  store x.2 = store y.2 /\
  yielded x.2 = yielded y.2 /\
  calls x.2 = calls y.2 /\
  is_ok x.1 = is_ok y.1 /\
  (is_ok x.1 = true -> x = y).

(** touches the response only *)
Definition silent {A} (m : M A) : Prop :=
  forall w, store (m w).2 = store w /\ yielded (m w).2 = yielded w /\
            calls (m w).2 = calls w.

(** the world once the tool calls [tcs] are added to the response *)
Definition with_tool_calls (tcs : list ToolCall) (w : world) : world :=
  {| store := store w;
     response := {| response_json := response_json (response w);
                    tool_calls := tool_calls (response w) ++ tcs;
                    usage := usage (response w);
                    _prompt_json := _prompt_json (response w) |};
     yielded := yielded w; calls := calls w |}.

(** a stream whose one tool call has arguments that are not JSON *)
Definition broken_arguments_stream : list Chunk :=
  [tool_chunk [tool_delta 0 (Some EmptyString)]; tool_chunk [tool_delta 0 (Some "{")]].

(** ** The unsupported-feature error *)

Definition unsupported (e : exn) : bool :=
  match e with
  | NotImplementedError _ => true
  | _ => false
  end.

Definition raises_unsupported {A} (r : result A) : bool :=
  match r with
  | Err e => unsupported e
  | Ok _ => false
  end.

(** never raises the unsupported-feature error *)
Definition mild {A} (m : M A) : Prop :=
  forall w, raises_unsupported (m w).1 = false.

Definition system_prompt (system : string) : Prompt :=
  {| p_system := Some system; p_prompt := Some "Hi"; p_attachments := [];
     p_tool_results := []; p_schema := None; p_tools := []; p_options := no_options |}.

(** ** What the aggregator should hold for an index: the spec's words *)

(** the argument text a delta brings, the empty string when it has none *)
Definition arguments_delta (d : ChoiceDeltaToolCall) : string :=
  match tcd_function d with
  | Some {| fn_arguments := Some arguments |} => arguments
  | _ => EmptyString
  end.

(** the fragments delivered for [index], joined in arrival order *)
Fixpoint fragments (index : Z) (deltas : list ChoiceDeltaToolCall) : string :=
  match deltas with
  | [] => EmptyString
  | d :: rest =>
      if tcd_index d =? index then arguments_delta d +:+ fragments index rest
      else fragments index rest
  end.

(** the fragment of the first delta delivered for [index] *)
Fixpoint first_fragment (index : Z) (deltas : list ChoiceDeltaToolCall) : string :=
  match deltas with
  | [] => EmptyString
  | d :: rest =>
      if tcd_index d =? index then arguments_delta d else first_fragment index rest
  end.

(** is there a delta for [index]? *)
Definition delivered (index : Z) (deltas : list ChoiceDeltaToolCall) : bool :=
  existsb (fun d => tcd_index d =? index) deltas.

(** [tool_calls[index].function.arguments] *)
Definition buffer (ds : Deltas) (index : Z) : option string :=
  l ← index_get index (tool_calls_by_index ds);
  o ← objects ds !! l;
  f ← tcd_function o;
  fn_arguments f.

(** The state of the aggregator once the deltas [seen] are folded: one
    object per delta, and for every index delivered an entry of
    [tool_calls] that refers to a delta of that index whose buffer is the
    first fragment followed by all the fragments. *)
Definition folded (seen : list ChoiceDeltaToolCall) (ds : Deltas) : Prop :=
  length (objects ds) = length seen /\
  forall index,
    if delivered index seen
    then exists l o f,
           index_get index (tool_calls_by_index ds) = Some l /\
           objects ds !! l = Some o /\ tcd_index o = index /\
           tcd_function o = Some f /\
           fn_arguments f = Some (first_fragment index seen +:+ fragments index seen)
    else index_get index (tool_calls_by_index ds) = None.

(** one complete fragment for index 0 *)
Definition city_arguments : string :=
  "{" +:+ quoted "city" +:+ ": " +:+ quoted "Boston" +:+ "}".

Definition city_stream : list Chunk := [tool_chunk [tool_delta 0 (Some city_arguments)]].

(** a turn that brings nothing but its system text *)
Definition bare_turn (system : string) : PrevResponse :=
  {| r_prompt := {| p_system := Some system; p_prompt := None; p_attachments := [];
                    p_tool_results := []; p_schema := None; p_tools := [];
                    p_options := no_options |};
     r_attachments := []; r_text := EmptyString; r_tool_calls := [] |}.

Definition object_schema : value := VDict [("type", VStr "object")].

(** a prompt with a temperature, [json_object] set and a schema *)
Definition schema_prompt : Prompt :=
  {| p_system := None; p_prompt := Some "Hi"; p_attachments := [];
     p_tool_results := []; p_schema := Some object_schema; p_tools := [];
     p_options :=
       {| temperature := Some "0.5"; max_tokens := None; top_p := None;
          frequency_penalty := None; presence_penalty := None; stop := None;
          logit_bias := None; seed := None; json_object := Some true;
          reasoning_effort := None; logprobs := None |} |}.

(** ** What [combine_chunks] gathers *)

(** every choice of every chunk, in order of arrival *)
Definition all_choices (chunks : list Chunk) : list Choice :=
  flat_map chunk_choices chunks.

(** a choice [combine_chunks] can read: a legacy choice with its text, a
    chat choice with its delta *)
Definition readable (choice : Choice) : bool :=
  match choice with
  | TextChoice (Some _) _ _ => true
  | ChatChoice (Some _) _ _ => true
  | _ => false
  end.

(** the text a choice adds to the combined content *)
Definition choice_piece (choice : Choice) : string :=
  match choice with
  | TextChoice (Some text) _ _ => text
  | ChatChoice (Some delta) _ _ => default EmptyString (delta_content delta)
  | _ => EmptyString
  end.

(** texts joined with nothing between them *)
Definition joined (texts : list string) : string :=
  foldr String.append EmptyString texts.

(** the role a chat choice assigns, null included *)
Definition choice_role (choice : Choice) : option (option string) :=
  match choice with
  | ChatChoice (Some delta) _ _ => Some (delta_role delta)
  | _ => None
  end.

(** the finish reason a chat choice assigns: one that is not null *)
Definition choice_finish (choice : Choice) : option string :=
  match choice with
  | ChatChoice (Some _) finish_reason _ => finish_reason
  | _ => None
  end.

(** the log probabilities a choice brings *)
Definition choice_logprobs_entry (choice : Choice) : list value :=
  match choice with
  | TextChoice text _ lp => logprobs_entry text lp
  | ChatChoice _ _ lp => logprobs_entry None lp
  end.

(** the exception the first unreadable choice raises *)
Fixpoint first_unreadable (choices : list Choice) : option exn :=
  match choices with
  | [] => None
  | TextChoice None _ _ :: _ => Some TypeError
  | ChatChoice None _ _ :: _ => Some AttributeError
  | _ :: rest => first_unreadable rest
  end.

(** [d.get(key)] of a combined payload *)
Definition field (key : string) (payload : value) : option value :=
  match payload with
  | VDict d => dict_get key d
  | _ => None
  end.

(** ** What a streamed chat run reads from each chunk *)

(** the text a chunk makes the chat executors yield: the content of the
    delta of its first choice, when there is one and it is not null *)
Definition chunk_yield (chunk : Chunk) : option string :=
  match chunk_choices chunk with
  | ChatChoice (Some delta) _ _ :: _ => delta_content delta
  | _ => None
  end.

(** the tool-call deltas a chunk brings: those of the delta of its first
    choice *)
Definition chunk_deltas (chunk : Chunk) : list ChoiceDeltaToolCall :=
  match chunk_choices chunk with
  | ChatChoice (Some delta) _ _ :: _ => default [] (delta_tool_calls delta)
  | _ => []
  end.

(** the aggregator before the first chunk *)
Definition no_deltas : Deltas := {| objects := []; tool_calls_by_index := [] |}.

(** a chunk has at most one choice (the request did not ask for several
    completions) *)
Definition single_choice (chunk : Chunk) : bool :=
  match chunk_choices chunk with
  | [] | [_] => true
  | _ => false
  end.

(** [[x]] when [o] is [Some x], nothing otherwise *)
Definition option_texts (o : option string) : list string :=
  match o with
  | Some text => [text]
  | None => []
  end.

(** a chunk the loop of the chat executors can read: it has no choice, or
    its first choice is a chat choice with a delta *)
Definition chat_chunk (chunk : Chunk) : bool :=
  match chunk_choices chunk with
  | [] => true
  | ChatChoice (Some _) _ _ :: _ => true
  | _ => false
  end.

(** the two chat executors, [Chat.execute] and [AsyncChat.execute] *)
Inductive flavour : Type := Synchronous | Asynchronous.

Definition chat_execute (f : flavour) (json_dumps : value -> string) (self : Model)
    (transport : Transport) : Prompt -> bool -> option (list PrevResponse) -> M unit :=
  match f with
  | Synchronous => Chat_execute json_dumps self transport
  | Asynchronous => AsyncChat_execute json_dumps self transport
  end.

(** an endpoint that answers a call that is not streamed *)
Definition replying (completion : ChatCompletion) : Transport :=
  {| stream_reply := Failed 500; chat_reply := Delivered completion;
     text_reply := Failed 500 |}.

(** a whole reply: one choice, its usage *)
Definition hello_completion : ChatCompletion :=
  {| completion_usage := Some hello_usage;
     completion_choices := [{| message_content := Some "Hello"; message_tool_calls := None |}];
     completion_dump := VDict [("id", VStr "chatcmpl-1")] |}.

(** a reply from an endpoint that reports no usage *)
Definition unmetered_completion : ChatCompletion :=
  {| completion_usage := None;
     completion_choices := [{| message_content := Some "Hello"; message_tool_calls := None |}];
     completion_dump := VDict [("id", VStr "chatcmpl-1")] |}.

(** ** What [Completion.execute] sends and shows *)

(** the list [messages] of [Completion.execute]: the prompt and the text
    of every earlier response, then the prompt of this call *)
Definition completion_lines (prompt : Prompt) (conversation : option (list PrevResponse))
  : list (option string) :=
  match conversation with
  | Some responses =>
      flat_map (fun prev_response =>
                  [p_prompt (r_prompt prev_response); Some (r_text prev_response)])
               responses
  | None => []
  end ++ [p_prompt prompt].

(** a line feed *)
Definition newline : string := String (Json.byte 10) EmptyString.

(** the text a chunk makes [Completion.execute] yield: the text of its
    first choice, when there is one and it is not null *)
Definition chunk_text_yield (chunk : Chunk) : option string :=
  match chunk_choices chunk with
  | TextChoice text _ _ :: _ => text
  | _ => None
  end.

(** a chunk the loop of [Completion.execute] can read *)
Definition text_chunk (chunk : Chunk) : bool :=
  match chunk_choices chunk with
  | [] => true
  | TextChoice _ _ _ :: _ => true
  | _ => false
  end.

(** what [Completion.execute] does with the reply to its call *)
Definition Completion_exchange (transport : Transport) (stream : bool) : M unit :=
  if stream then
    completion ← lift (receive (stream_reply transport));
    chunks ← Completion_loop [] completion;
    combined ← lift (combine_chunks chunks);
    set_response_json (remove_dict_none_values combined)
  else
    completion ← lift (receive (text_reply transport));
    set_response_json (remove_dict_none_values (text_dump completion));;
    match text_choices completion with
    | text :: _ => yield text
    | [] => raise IndexError
    end.

(** leaves one aspect of the world as it was, whatever the outcome *)
Definition keeps {A B} (aspect : world -> B) (m : M A) : Prop :=
  forall w, aspect (m w).2 = aspect w.

(** an endpoint that answers a legacy completion call that is not
    streamed *)
Definition completing (completion : TextCompletion) : Transport :=
  {| stream_reply := Failed 500; chat_reply := Failed 500;
     text_reply := Delivered completion |}.

Definition hello_text : TextCompletion :=
  {| text_choices := ["Hello"]; text_dump := VDict [("id", VStr "cmpl-1")] |}.

Definition instruct : Model :=
  {| model_id := "gpt-3.5-turbo-instruct"; model_name := None; allows_system_prompt := true;
     default_max_tokens := Some 256 |}.

(** a prompt that has attachments or tool results but no text *)
Definition wordless_prompt : Prompt :=
  {| p_system := None; p_prompt := None; p_attachments := [];
     p_tool_results := []; p_schema := None; p_tools := []; p_options := no_options |}.

(** one earlier exchange: "Hi", answered "Hello" *)
Definition hi_hello : PrevResponse :=
  {| r_prompt := text_prompt; r_attachments := []; r_text := "Hello"; r_tool_calls := [] |}.

(** ** Reading a message list *)

(** the role of a message *)
Definition role_of (message : value) : option string :=
  match message with
  | VDict d =>
      match dict_get "role" d with
      | Some (VStr role) => Some role
      | _ => None
      end
  | _ => None
  end.

(** the messages of one role, in order *)
Definition with_role (role : string) (messages : list value) : list value :=
  filter (fun message => role_of message = Some role) messages.

(** the tool results a conversation and a prompt bring, in order *)
Definition tool_results_of (prompt : Prompt) (conversation : option (list PrevResponse))
  : list ToolResult :=
  flat_map (fun prev_response => p_tool_results (r_prompt prev_response))
           (default [] conversation)
  ++ p_tool_results prompt.

(** a string that is not empty *)
Definition text_value (v : option value) : bool :=
  match v with
  | Some (VStr (String _ _)) => true
  | _ => false
  end.

(** a list that is not empty *)
Definition parts_value (v : option value) : bool :=
  match v with
  | Some (VList (_ :: _)) => true
  | _ => false
  end.

(** What the chat endpoint takes for a message: a system message with a
    text; a user message with a text or with a list of parts; a tool
    message with the id of its call and an output; an assistant message
    with a text and no tool calls, or with tool calls and no text. *)
Definition well_formed (message : value) : bool :=
  match message with
  | VDict d =>
      match role_of message with
      | Some role =>
          if String.eqb role "system" then text_value (dict_get "content" d)
          else if String.eqb role "user" then
            text_value (dict_get "content" d) || parts_value (dict_get "content" d)
          else if String.eqb role "tool" then
            dict_mem "tool_call_id" d
            && match dict_get "content" d with Some (VStr _) => true | _ => false end
          else if String.eqb role "assistant" then
            (text_value (dict_get "content" d) && negb (dict_mem "tool_calls" d))
            || (parts_value (dict_get "tool_calls" d) && negb (dict_mem "content" d))
          else false
      | None => false
      end
  | _ => false
  end.

(** the user message of a prompt with a text and no attachment *)
Definition user_message (text : string) : value :=
  VDict [("role", VStr "user"); ("content", VStr text)].

(** a prompt that brings nothing: no system text, no tool result, no
    attachment and no text *)
Definition empty_prompt (prompt : Prompt) : bool :=
  negb (truthy_str (p_system prompt))
  && match p_tool_results prompt with [] => true | _ => false end
  && match p_attachments prompt with [] => true | _ => false end
  && negb (truthy_str (p_prompt prompt)).

(** the user message the prompt of the call brings, if any *)
Definition prompt_user_message (prompt : Prompt) : option value :=
  match p_attachments prompt with
  | [] =>
      match p_prompt prompt with
      | Some (String a s) => Some (user_message (String a s))
      | _ => None
      end
  | _ :: _ => Some (attachment_message (p_prompt prompt) (p_attachments prompt))
  end.

(** no message at all *)
Definition no_message (messages : list value) : bool :=
  match messages with
  | [] => true
  | _ :: _ => false
  end.

(** a prompt with nothing in it *)
Definition silent_prompt : Prompt :=
  {| p_system := None; p_prompt := None; p_attachments := [];
     p_tool_results := []; p_schema := None; p_tools := []; p_options := no_options |}.

(** ** Attachments by type *)

(** the same attachment reached through another URL, or through none *)
Definition with_url (attachment : Attachment) (url : option string) : Attachment :=
  {| att_url := url; att_type := att_type attachment;
     att_base64 := att_base64 attachment; att_id := att_id attachment |}.

Definition is_pdf (attachment : Attachment) : bool :=
  String.eqb (att_type attachment) "application/pdf".

Definition is_image (attachment : Attachment) : bool :=
  startswith "image/" (att_type attachment).

Definition is_audio (attachment : Attachment) : bool :=
  startswith "audio/" (att_type attachment).

(** the format [_attachment] names for an audio part *)
Definition audio_format (attachment : Attachment) : string :=
  if String.eqb (att_type attachment) "audio/wav" then "wav" else "mp3".

(** the first characters of a data URL *)
Definition is_data_url (url : string) : bool := startswith "data:" url.

(** a structure in which no dict has an [image_url] or an [input_audio]
    key *)
Fixpoint plain (v : value) : bool :=
  match v with
  | VAtom _ => true
  | VList l => forallb plain l
  | VDict d =>
      forallb (fun kx => negb (String.eqb kx.1 "image_url")
                         && negb (String.eqb kx.1 "input_audio")
                         && plain kx.2) d
  end.

(** no attachment in the prompt nor in the history *)
Definition no_attachments (prompt : Prompt) (conversation : option (list PrevResponse))
  : bool :=
  match p_attachments prompt with [] => true | _ => false end
  && forallb (fun prev_response =>
                match r_attachments prev_response with [] => true | _ => false end)
             (default [] conversation).

(** a video behind a URL *)
Definition clip : Attachment :=
  {| att_url := Some "https://example.com/clip.mp4"; att_type := "video/mp4";
     att_base64 := "AAAA"; att_id := "a2" |}.

(** a PDF held inline *)
Definition report : Attachment :=
  {| att_url := None; att_type := "application/pdf"; att_base64 := "JVBERi0="; att_id := "a3" |}.
(** [t], laid out anywhere, makes [redact_data] raise what its redaction
    raises *)
Definition fails_at (n : nat) (t : value) : Prop :=
  forall e pre post,
    (depth t < n)%nat -> redact t = Err e ->
    redact_data n (layout (length pre) t).1 (pre ++ (layout (length pre) t).2 ++ post)
    = Err e.

(** an image part whose URL is null *)
Definition image_part_without_url : value :=
  VDict [("type", VStr "image_url"); ("image_url", VDict [("url", VNone)])].

(** ** [SharedOptions.validate_logit_bias] *)

(** What the validator can raise: a [ValueError] with its message, the
    [OverflowError] of [int] on an infinite float, or one of the other
    exceptions ([TypeError], [AttributeError]). *)
Inductive invalid : Type :=
| ValueError (message : string)
| OverflowError
| Raised (e : exn).

Inductive outcome (A : Type) : Type :=
| Valid (a : A)
| Invalid (e : invalid).
Arguments Valid {A} a.
Arguments Invalid {A} e.

#[global] Instance outcome_ret : MRet outcome := fun A a => Valid a.
#[global] Instance outcome_bind : MBind outcome := fun A B k m =>
  match m with
  | Valid a => k a
  | Invalid e => Invalid e
  end.

(** [try: body  except ValueError: raise ValueError(message)] *)
Definition except_value_error {A} (message : string) (body : outcome A) : outcome A :=
  match body with
  | Invalid (ValueError _) => Invalid (ValueError message)
  | _ => body
  end.

(** The value given for [logit_bias], of type [Optional[Union[dict, str]]]:
    a dict is given by its items, keys being any hashable atoms. *)
Inductive LogitBias : Type :=
| BiasNone
| BiasText (text : string)
| BiasDict (items : list (atom * value)).

(** [validated_logit_bias[int_key] = int_value] *)
Fixpoint int_set (k v : Z) (d : list (Z * Z)) : list (Z * Z) :=
  match d with
  | [] => [(k, v)]
  | (k', v') :: r => if k' =? k then (k', v) :: r else (k', v') :: int_set k v r
  end.

(** [d.get(k)] of a validated dict *)
Fixpoint int_get (k : Z) (d : list (Z * Z)) : option Z :=
  match d with
  | [] => None
  | (k', v') :: r => if k' =? k then Some v' else int_get k r
  end.

Section ValidateLogitBias.
(** [int] of the interpreter on a string ([None]: a [ValueError]) and on
    a float given by its literal (a [ValueError] on a NaN, an
    [OverflowError] on an infinity): what they compute is not looked
    into here. *)
Variable int_of_str : string -> option Z.
Variable int_of_float : string -> outcome Z.

(** [int(x)] *)
Definition int (x : value) : outcome Z :=
  match x with
  | VInt z => Valid z
  | VBool b => Valid (if b then 1 else 0)
  | VStr s =>
      match int_of_str s with
      | Some z => Valid z
      | None => Invalid (ValueError "invalid literal for int() with base 10")
      end
  | VFloat lit => int_of_float lit
  | VNone | VList _ | VDict _ => Invalid (Raised TypeError)
  end.

(** the body of [for key, value in logit_bias.items()] *)
Definition validate_item (validated : list (Z * Z)) (key : atom) (value : value)
  : outcome (list (Z * Z)) :=
  except_value_error "Invalid key-value pair in logit_bias dictionary"
    (int_key ← int (VAtom key);
     int_value ← int value;
     if (-100 <=? int_value) && (int_value <=? 100)
     then Valid (int_set int_key int_value validated)
     else Invalid (ValueError "Value must be between -100 and 100")).

Fixpoint validate_items (validated : list (Z * Z)) (items : list (atom * value))
  : outcome (list (Z * Z)) :=
  match items with
  | [] => Valid validated
  | (key, value) :: rest =>
      validated ← validate_item validated key value;
      validate_items validated rest
  end.

(** [logit_bias.items()] of what [json.loads] returned: only a dict has
    items *)
Definition items_of (v : value) : outcome (list (atom * value)) :=
  match v with
  | VDict d => Valid (map (fun kx => (AStr kx.1, kx.2)) d)
  | _ => Invalid (Raised AttributeError)
  end.

Definition validate_logit_bias (logit_bias : LogitBias) : outcome (option (list (Z * Z))) :=
  match logit_bias with
  | BiasNone => Valid None
  | BiasText text =>
      match Json.loads text with
      | Ok v =>
          items ← items_of v;
          validated ← validate_items [] items;
          Valid (Some validated)
      | Err _ => Invalid (ValueError "Invalid JSON in logit_bias string")
      end
  | BiasDict items =>
      validated ← validate_items [] items;
      Valid (Some validated)
  end.
End ValidateLogitBias.

(** a validated dict given again as the value of [logit_bias] *)
Definition as_bias (validated : list (Z * Z)) : LogitBias :=
  BiasDict (map (fun kv => (AInt kv.1, VInt kv.2)) validated).

(** the integers written with ASCII digits and an optional minus sign:
    a reading of strings to run the validator on sample inputs *)
Definition ascii_int (s : string) : option Z :=
  let '(negative, body) :=
    match Json.head_is 45 s with
    | Some r => (true, r)
    | None => (false, s)
    end in
  match Json.digits 0 body with
  | (String _ _, z, EmptyString) => Some (if negative then - z else z)
  | _ => None
  end.

(** a reading of floats for sample inputs that hold none *)
Definition no_floats (lit : string) : outcome Z := Invalid OverflowError.

(** the text [{"1712": -100, "892": 101}] *)
Definition bias_text : string :=
  "{" +:+ quoted "1712" +:+ ": -100, " +:+ quoted "892" +:+ ": 101}".

(** ** Models as they are made: [_Shared.__init__], [Completion.__init__]
       and the extra models of [register_models] *)

(** the class a model is an instance of *)
Inductive Klass : Type := ChatClass | AsyncChatClass | CompletionClass.

(** the class of the options of a model *)
Inductive OptionsClass : Type := ChatOptions | CompletionOptions | OptionsForReasoning.

(** An instance, with what the constructors set and the class attributes
    [needs_key] and [default_max_tokens].  [attachment_types] is a set:
    only membership matters. *)
Record Shared := {
  klass : Klass;
  s_model_id : value;
  s_key : value;
  s_supports_schema : bool;
  s_supports_tools : bool;
  s_model_name : value;
  s_api_base : value;
  s_api_type : value;
  s_api_version : value;
  s_api_engine : value;
  s_headers : value;
  s_can_stream : bool;
  s_vision : bool;
  s_allows_system_prompt : bool;
  attachment_types : list string;
  s_Options : OptionsClass;
  s_default_max_tokens : value;
  needs_key : value
}.

Definition vision_types : list string :=
  ["image/png"; "image/jpeg"; "image/webp"; "image/gif"; "application/pdf"].

Definition audio_types : list string := ["audio/wav"; "audio/mpeg"].

(** the attachment types [_Shared.__init__] gives a model *)
Definition init_attachment_types (vision audio : bool) : list string :=
  (if vision then vision_types else []) ++ (if audio then audio_types else []).

(** [klass(model_id, model_name=..., ..., **kwargs)]: [_Shared.__init__],
    reached through [Completion.__init__] for a completion model; the
    arguments not listed keep their defaults. *)
Definition Shared_init (klass : Klass)
    (model_id model_name api_base api_type api_version api_engine headers reasoning : value)
    (can_stream vision audio supports_schema supports_tools allows_system_prompt : bool)
  : Shared :=
  {| klass := klass;
     s_model_id := model_id;
     s_key := VNone;
     s_supports_schema := supports_schema;
     s_supports_tools := supports_tools;
     s_model_name := model_name;
     s_api_base := api_base;
     s_api_type := api_type;
     s_api_version := api_version;
     s_api_engine := api_engine;
     s_headers := headers;
     s_can_stream := can_stream;
     s_vision := vision;
     s_allows_system_prompt := allows_system_prompt;
     attachment_types := init_attachment_types vision audio;
     s_Options :=
       if truthy reasoning then OptionsForReasoning
       else match klass with
            | CompletionClass => CompletionOptions
            | _ => ChatOptions
            end;
     s_default_max_tokens := VNone;
     needs_key := VStr "openai" |}.

(** [chat_model.needs_key = v] *)
Definition set_needs_key (v : value) (model : Shared) : Shared :=
  {| klass := klass model;
     s_model_id := s_model_id model;
     s_key := s_key model;
     s_supports_schema := s_supports_schema model;
     s_supports_tools := s_supports_tools model;
     s_model_name := s_model_name model;
     s_api_base := s_api_base model;
     s_api_type := s_api_type model;
     s_api_version := s_api_version model;
     s_api_engine := s_api_engine model;
     s_headers := s_headers model;
     s_can_stream := s_can_stream model;
     s_vision := s_vision model;
     s_allows_system_prompt := s_allows_system_prompt model;
     attachment_types := attachment_types model;
     s_Options := s_Options model;
     s_default_max_tokens := s_default_max_tokens model;
     needs_key := v |}.

(** [d.get(key)] *)
Definition get (key : string) (d : list (string * value)) : value :=
  default VNone (dict_get key d).

(** [x is True] and [x is False] *)
Definition is_True (x : value) : bool :=
  match x with VBool true => true | _ => false end.
Definition is_False (x : value) : bool :=
  match x with VBool false => true | _ => false end.

(** [extra_model[key]]: an entry must be a dict that has the key *)
Definition subscript (extra_model : value) (key : string) : result value :=
  match extra_model with
  | VDict d =>
      match dict_get key d with
      | Some v => Ok v
      | None => Err (KeyError key)
      end
  | _ => Err TypeError
  end.

(** what [register] is called with *)
Record Registration := {
  registered : Shared;
  aliases : value
}.

(** the body of [for extra_model in extra_models] *)
Definition extra_model_registration (extra_model : value) : result Registration :=
  model_id ← subscript extra_model "model_id";
  match extra_model with
  | VDict entry =>
      let aliases := default (VList []) (dict_get "aliases" entry) in
      model_name ← subscript extra_model "model_name";
      let klass :=
        if truthy (get "completion" entry) then CompletionClass else ChatClass in
      let chat_model :=
        Shared_init klass model_id model_name (get "api_base" entry) (get "api_type" entry)
          (get "api_version" entry) (get "api_engine" entry) (get "headers" entry)
          (get "reasoning" entry)
          (negb (is_False (get "can_stream" entry)))
          (is_True (get "vision" entry))
          (is_True (get "audio" entry))
          (is_True (get "supports_schema" entry))
          (is_True (get "supports_tools" entry))
          true in
      let chat_model :=
        if truthy (get "api_base" entry) then set_needs_key VNone chat_model
        else chat_model in
      let chat_model :=
        if truthy (get "api_key_name" entry)
        then set_needs_key (get "api_key_name" entry) chat_model
        else chat_model in
      Ok {| registered := chat_model; aliases := aliases |}
  | _ => Err TypeError
  end.

(** [for extra_model in extra_models]: the elements of a list, the keys
    of a dict, the characters of a string; nothing else can be iterated *)
Definition iterate (extra_models : value) : result (list value) :=
  match extra_models with
  | VList items => Ok items
  | VDict d => Ok (map (fun kx => VStr kx.1) d)
  | VStr s => Ok (map (fun c => VStr (String c EmptyString)) (list_ascii_of_string s))
  | _ => Err TypeError
  end.

(** the loop: the registrations made, and the exception that stopped it *)
Fixpoint register_each (extra_models : list value) : list Registration * option exn :=
  match extra_models with
  | [] => ([], None)
  | extra_model :: rest =>
      match extra_model_registration extra_model with
      | Ok registration =>
          let '(made, raised) := register_each rest in (registration :: made, raised)
      | Err e => ([], Some e)
      end
  end.

(** the end of [register_models], from what [yaml.safe_load] returned *)
Definition register_extra_models (extra_models : value) : list Registration * option exn :=
  match iterate extra_models with
  | Ok items => register_each items
  | Err e => ([], Some e)
  end.

(** ** [_Shared.get_client] *)



Section GetClient.
(** [self.get_key(key)], inherited from the key models of [llm], and
    the value of [LLM_OPENAI_SHOW_RESPONSES] in the environment *)
Variable get_key : value -> result value.
Variable show_responses : option string.

End GetClient.

(** an entry of [extra-openai-models.yaml] for a local server *)
Definition local_entry : value :=
  VDict [("model_id", VStr "local"); ("model_name", VStr "llama");
         ("api_base", VStr "http://localhost:8080/v1")].

(** an audio clip held inline *)
Definition wave : Attachment :=
  {| att_url := None; att_type := "audio/wav"; att_base64 := "UklGRg=="; att_id := "a4" |}.


(** ** Which deltas make the tool calls of a streamed reply *)

(** of [deltas], delivered after [seen], those that are the first
    delivered for their index *)
Fixpoint first_deltas (seen deltas : list ChoiceDeltaToolCall) : list ChoiceDeltaToolCall :=
  match deltas with
  | [] => []
  | d :: rest =>
      (if delivered (tcd_index d) seen then [] else [d]) ++ first_deltas (seen ++ [d]) rest
  end.

(** what identifies a call: its index, its id and the name of its
    function *)
Definition call_identity (d : ChoiceDeltaToolCall) : Z * option string * option string :=
  (tcd_index d, tcd_id d, tcd_function d ≫= fn_name).

(** a delta that has its [function] *)
Definition has_function (d : ChoiceDeltaToolCall) : bool :=
  match tcd_function d with
  | Some _ => true
  | None => false
  end.

(** The entries of the aggregator once the deltas [seen] are folded:
    one for each delta that was the first of its index, in order, each
    referring to an object with the identity of that delta. *)
Definition identified (seen : list ChoiceDeltaToolCall) (ds : Deltas) : Prop :=
  Forall2 (fun il d => il.1 = tcd_index d /\
                       exists o, objects ds !! il.2 = Some o /\
                                 call_identity o = call_identity d)
          (tool_calls_by_index ds) (first_deltas [] seen).

(** the id and the name of a finalized call *)
Definition call_name (tc : ToolCall) : option string * option string :=
  (tc_tool_call_id tc, tc_name tc).

(** two deltas for index 0: the first names the call, the second only
    brings text *)
Definition named_stream : list Chunk :=
  [tool_chunk [{| tcd_index := 0; tcd_id := Some "call_1";
                  tcd_function := Some {| fn_arguments := Some EmptyString;
                                          fn_name := Some "get_weather" |} |}];
   tool_chunk [{| tcd_index := 0; tcd_id := None;
                  tcd_function := Some {| fn_arguments := Some "{}";
                                          fn_name := None |} |}];
   usage_chunk hello_usage].

(** ** The names of the request parameters *)

(** the names [build_kwargs] can give a parameter: those of the options,
    [json_object] apart, and the three it adds *)
Definition parameter_names : list string :=
  ["temperature"; "max_tokens"; "top_p"; "frequency_penalty"; "presence_penalty";
   "stop"; "logit_bias"; "seed"; "reasoning_effort"; "logprobs";
   "response_format"; "tools"; "stream_options"].

(** * Properties *)

Example loads_object :
  Json.loads ("{" +:+ quoted "city" +:+ ": " +:+ quoted "San Francisco" +:+ ", "
              +:+ quoted "n" +:+ ": [1, -2.5e3, true, null]}")
  = Ok (VDict [("city", VStr "San Francisco");
               ("n", VList [VInt 1; VFloat "-2.5e3"; VBool true; VNone])]).
Proof. vm_compute. reflexivity. Qed.

Example loads_empty_object : Json.loads "{}" = Ok (VDict []).
Proof. vm_compute. reflexivity. Qed.

Example loads_truncated : Json.loads "{" = Err JSONDecodeError.
Proof. vm_compute. reflexivity. Qed.

Example loads_extra_data : Json.loads "{}{}" = Err JSONDecodeError.
Proof. vm_compute. reflexivity. Qed.

(** ** Results and dicts *)

Lemma mapM_Ok {A B} (f : A -> result B) (l : list A) (l' : list B) :
  mapM f l = Ok l' <-> Forall2 (fun x y => f x = Ok y) l l'.
Proof.
  revert l'. induction l as [|x l IH]; intros l'; simpl.
  - split.
    + intros [= <-]. constructor.
    + intros H. inversion H. reflexivity.
  - unfold mbind, result_bind, mret, result_ret.
    destruct (f x) as [y|e] eqn:Hx; [destruct (mapM f l) as [k|e] eqn:Hl|].
    + split.
      * intros [= <-]. constructor; [done|]. by apply IH.
      * intros H. inversion H as [|? y' ? k' Hy Hk]; subst.
        apply IH in Hk. congruence.
    + split; [done|]. intros H. inversion H as [|? y' ? k' Hy Hk]; subst.
      apply IH in Hk. done.
    + split; [done|]. intros H. inversion H; subst. congruence.
Qed.

Lemma mapM_Err_or_Ok {A B} (f : A -> result B) (l : list A) :
  (exists l', mapM f l = Ok l') \/ (exists e, mapM f l = Err e).
Proof. destruct (mapM f l); eauto. Qed.

Lemma dict_get_set_eq {V} k (v : V) d : dict_get k (dict_set k v d) = Some v.
Proof.
  induction d as [|[k' v'] d IH]; simpl.
  - by rewrite String.eqb_refl.
  - destruct (String.eqb k' k) eqn:E; simpl; rewrite E; done.
Qed.

Lemma dict_get_set_ne {V} k k' (v : V) d :
  k' <> k -> dict_get k' (dict_set k v d) = dict_get k' d.
Proof.
  intros Hne. induction d as [|[k0 v0] d IH]; simpl.
  - destruct (String.eqb_spec k k'); congruence.
  - destruct (String.eqb_spec k0 k); simpl.
    + subst. destruct (String.eqb_spec k k'); congruence.
    + by rewrite IH.
Qed.

Lemma dict_mem_get {V} k (d : list (string * V)) :
  dict_mem k d = true <-> is_Some (dict_get k d).
Proof.
  induction d as [|[k' v'] d IH]; simpl.
  - split; [done|]. by intros [? ?].
  - destruct (String.eqb k' k); [|done]. split; eauto.
Qed.



(** Writing to a key that is there keeps every key where it was. *)
Lemma dict_set_keys {V} k (v : V) d :
  dict_mem k d = true -> map fst (dict_set k v d) = map fst d.
Proof.
  induction d as [|[k' v'] d IH]; simpl; [done|].
  destruct (String.eqb k' k) eqn:E; simpl; [done|]. intros H. by rewrite IH.
Qed.

Lemma dict_get_keys {V W} k (d : list (string * V)) (d' : list (string * W)) :
  map fst d = map fst d' -> dict_mem k d = dict_mem k d'.
Proof.
  revert d'. induction d as [|[k0 v0] d IH]; intros [|[k1 v1] d'] [=]; simpl; [done|].
  subst. destruct (String.eqb k1 k); [done|]. by apply IH.
Qed.

(** ** The values: induction through the lists and dicts they hold *)

Lemma value_nested_ind (P : value -> Prop) :
  (forall a, P (VAtom a)) ->
  (forall l, Forall P l -> P (VList l)) ->
  (forall d, Forall (fun kx => P kx.2) d -> P (VDict d)) ->
  forall v, P v.
Proof.
  intros Ha Hl Hd. fix IH 1. intros [a|l|d].
  - apply Ha.
  - apply Hl. induction l as [|x l IHl]; constructor; [apply IH|apply IHl].
  - apply Hd. induction d as [|[k x] d IHd]; constructor; [apply IH|apply IHd].
Qed.

(** ** The redactor on trees *)

Lemma redact_list l : redact (VList l) = VList <$> mapM redact l.
Proof. reflexivity. Qed.

Lemma redact_dict d :
  redact (VDict d)
  = VDict <$> mapM (fun kx => x' ← redact_entry redact kx.1 kx.2; mret (kx.1, x')) d.
Proof. reflexivity. Qed.

Lemma fmap_Ok {A B} (f : A -> B) (m : result A) (b : B) :
  f <$> m = Ok b <-> exists a, m = Ok a /\ b = f a.
Proof.
  destruct m as [a|e]; simpl; split.
  - intros [= <-]. eauto.
  - intros (a' & [= <-] & ->). done.
  - done.
  - intros (a' & [=] & _).
Qed.

Lemma entry_Ok (rec : value -> result value) (kx ky : string * value) :
  (x' ← redact_entry rec kx.1 kx.2; mret (kx.1, x')) = Ok ky
  <-> ky.1 = kx.1 /\ redact_entry rec kx.1 kx.2 = Ok ky.2.
Proof.
  unfold mbind, result_bind, mret, result_ret.
  destruct (redact_entry rec kx.1 kx.2) as [x'|e]; destruct ky as [k y]; simpl; split.
  - intros [= <- <-]. done.
  - intros [-> [= ->]]. done.
  - done.
  - intros [_ [=]].
Qed.

(** the cases of one loop turn *)
Lemma redact_entry_cases (rec : value -> result value) key x y :
  redact_entry rec key x = Ok y ->
  redacted_field key x y \/
  (rec x = Ok y /\
   (key = "image_url" ->
    forall d, x = VDict d ->
      dict_get "url" d = None \/
      exists u, dict_get "url" d = Some (VStr u) /\ startswith "data:" u = false) /\
   (key = "input_audio" -> forall d, x = VDict d -> dict_mem "data" d = false)).
Proof.
  unfold redact_entry, redacted_field.
  destruct (String.eqb_spec key "image_url") as [->|Hi]; simpl.
  - destruct x as [a|l|d]; try (intros H; right; split; [done|split; [|done]]; by intros).
    destruct (dict_get "url" d) as [[[| | | |u]| |]|] eqn:Hu; try done.
    + destruct (startswith "data:" u) eqn:Hs.
      * intros [= <-]. left. left. split; [done|]. eauto 6.
      * intros H. right. split; [done|]. split; [|done].
        intros _ d' [= <-]. right. eauto.
    + intros H. right. split; [done|]. split; [|done].
      intros _ d' [= <-]. by left.
  - destruct (String.eqb_spec key "input_audio") as [->|Ha]; simpl.
    + destruct x as [a|l|d]; try (intros H; right; split; [done|split; [done|]]; by intros).
      destruct (dict_mem "data" d) eqn:Hm.
      * intros [= <-]. left. right. split; [done|]. eauto.
      * intros H. right. split; [done|]. split; [done|]. by intros _ d' [= <-].
    + intros H. right. done.
Qed.



Lemma dict_get_none_keys {V W} k (d : list (string * V)) (d' : list (string * W)) :
  map fst d' = map fst d -> dict_get k d = None -> dict_get k d' = None.
Proof.
  intros Hk Hn. destruct (dict_get k d') eqn:E; [|done].
  assert (dict_mem k d' = true) as Hm by (apply dict_mem_get; eauto).
  rewrite (dict_get_keys k d' d Hk) in Hm. apply dict_mem_get in Hm as [? ?]. congruence.
Qed.





(** ** The usage normaliser *)

Lemma dict_mem_remove_ne {V} k k' (d : list (string * V)) :
  k <> k' -> dict_mem k (dict_remove k' d) = dict_mem k d.
Proof.
  intros Hne. induction d as [|[k0 v0] d IH]; simpl; [done|].
  destruct (String.eqb_spec k0 k'); simpl.
  - subst. destruct (String.eqb_spec k' k); congruence.
  - by rewrite IH.
Qed.

Lemma dict_get_remove_ne {V} k k' (d : list (string * V)) :
  k <> k' -> dict_get k (dict_remove k' d) = dict_get k d.
Proof.
  intros Hne. induction d as [|[k0 v0] d IH]; simpl; [done|].
  destruct (String.eqb_spec k0 k'); simpl.
  - subst. destruct (String.eqb_spec k' k); congruence.
  - by rewrite IH.
Qed.

Lemma dict_pop_Ok {V} k (d : list (string * V)) v :
  dict_get k d = Some v -> dict_pop k d = Ok (v, dict_remove k d).
Proof. unfold dict_pop. by intros ->. Qed.

Lemma dict_pop_Err {V} k (d : list (string * V)) :
  dict_mem k d = false -> dict_pop k d = Err (KeyError k).
Proof.
  unfold dict_pop. intros H. destruct (dict_get k d) eqn:E; [|done].
  assert (dict_mem k d = true) by (apply dict_mem_get; eauto). congruence.
Qed.

Lemma set_usage_nonempty (response : Response) (u : list (string * value)) :
  u <> [] ->
  set_usage response (Some u)
  = (dict_pop "prompt_tokens" u ≫= fun '(input_tokens, usage) =>
     dict_pop "completion_tokens" usage ≫= fun '(output_tokens, usage) =>
     dict_pop "total_tokens" usage ≫= fun '(_, usage) =>
     Ok {| response_json := response_json response;
           tool_calls := tool_calls response;
           usage := Some {| input_tokens := input_tokens;
                            output_tokens := output_tokens;
                            details := simplify_usage_dict usage |};
           _prompt_json := _prompt_json response |}).
Proof. by destruct u. Qed.

(** C10. The usage normaliser leaves the response as it is when the raw
    snapshot is absent or empty; a snapshot that is not empty must hold
    all three of [prompt_tokens], [completion_tokens] and [total_tokens]:
    with the three present the usage is set from them and from what is
    left, and with any of them missing the call fails with a [KeyError]
    for a missing one of the three and sets nothing. *)
Theorem set_usage_requires_three_counters (response : Response) (u : list (string * value)) :
  set_usage response None = Ok response /\
  set_usage response (Some []) = Ok response /\
  (u <> [] ->
   (forall i o t,
      dict_get "prompt_tokens" u = Some i ->
      dict_get "completion_tokens" u = Some o ->
      dict_get "total_tokens" u = Some t ->
      set_usage response (Some u)
      = Ok {| response_json := response_json response;
              tool_calls := tool_calls response;
              usage := Some {| input_tokens := i; output_tokens := o;
                               details :=
                                 simplify_usage_dict
                                   (dict_remove "total_tokens"
                                      (dict_remove "completion_tokens"
                                         (dict_remove "prompt_tokens" u))) |};
              _prompt_json := _prompt_json response |}) /\
   (forall k,
      k ∈ ["prompt_tokens"; "completion_tokens"; "total_tokens"] ->
      dict_mem k u = false ->
      exists k', k' ∈ ["prompt_tokens"; "completion_tokens"; "total_tokens"] /\
                 dict_mem k' u = false /\
                 set_usage response (Some u) = Err (KeyError k'))).
Proof.
  split; [done|]. split; [done|]. intros Hne.
  rewrite (set_usage_nonempty _ _ Hne). clear Hne. split.
  - intros i o t Hi Ho Ht. rewrite (dict_pop_Ok _ _ _ Hi). simpl.
    rewrite (dict_pop_Ok "completion_tokens" _ o) by (by rewrite dict_get_remove_ne).
    simpl.
    rewrite (dict_pop_Ok "total_tokens" _ t) by (by rewrite !dict_get_remove_ne).
    done.
  - intros k Hk Hm.
    destruct (dict_mem "prompt_tokens" u) eqn:E1.
    + apply dict_mem_get in E1 as [i Hi]. rewrite (dict_pop_Ok _ _ _ Hi). simpl.
      destruct (dict_mem "completion_tokens" u) eqn:E2.
      * apply dict_mem_get in E2 as [o Ho].
        rewrite (dict_pop_Ok "completion_tokens" _ o) by (by rewrite dict_get_remove_ne).
        simpl. exists "total_tokens".
        assert (dict_mem "total_tokens" u = false) as E3.
        { apply list_elem_of_In in Hk. simpl in Hk.
          destruct Hk as [<-|[<-|[<-|[]]]]; try done.
          - assert (dict_mem "prompt_tokens" u = true) by (apply dict_mem_get; eauto).
            congruence.
          - assert (dict_mem "completion_tokens" u = true) by (apply dict_mem_get; eauto).
            congruence. }
        split; [apply list_elem_of_In; simpl; tauto|]. split; [done|].
        rewrite dict_pop_Err; [done|]. by rewrite !dict_mem_remove_ne.
      * exists "completion_tokens". split; [apply list_elem_of_In; simpl; tauto|].
        split; [done|].
        rewrite dict_pop_Err; [done|]. by rewrite dict_mem_remove_ne.
    + exists "prompt_tokens". split; [apply list_elem_of_In; simpl; tauto|].
      split; [done|]. by rewrite dict_pop_Err.
Qed.

(** ** The request parameters *)

Lemma dict_get_not_nulls k (d : list (string * value)) :
  NoDup (map fst d) ->
  dict_get k (not_nulls d) = dict_get k d ≫= non_null.
Proof.
  unfold not_nulls. induction d as [|[k0 v0] d IH]; [done|].
  intros [Hk0 Hd]%NoDup_cons. rewrite filter_cons. cbn [dict_get fst snd].
  destruct (String.eqb_spec k0 k) as [->|Hne].
  - cbn [mbind option_bind]. unfold non_null. destruct (is_none v0) eqn:E.
    + rewrite decide_False by (by intros []). rewrite IH by done.
      destruct (dict_get k d) eqn:Hg; [|done]. exfalso. apply Hk0.
      apply list_elem_of_fmap. exists (k, v). split; [done|].
      clear -Hg. induction d as [|[k1 v1] d IH]; [done|]. simpl in *.
      destruct (String.eqb_spec k1 k) as [->|].
      * injection Hg as ->. left.
      * right. by apply IH.
    + rewrite decide_True by done. simpl. by rewrite String.eqb_refl.
  - destruct (decide _); simpl.
    + destruct (String.eqb_spec k0 k); [done|]. by apply IH.
    + by apply IH.
Qed.

Lemma options_keys (o : Options) :
  map fst (options_items o)
  = ["temperature"; "max_tokens"; "top_p"; "frequency_penalty"; "presence_penalty";
     "stop"; "logit_bias"; "seed"; "json_object"; "reasoning_effort"; "logprobs"].
Proof. reflexivity. Qed.

Lemma options_keys_NoDup (o : Options) : NoDup (map fst (options_items o)).
Proof. rewrite options_keys. apply (bool_decide_unpack _). vm_compute. exact I. Qed.

Lemma dict_get_NoDup {V} k (v : V) (d : list (string * V)) :
  NoDup (map fst d) -> (k, v) ∈ d -> dict_get k d = Some v.
Proof.
  induction d as [|[k0 v0] d IH]; simpl.
  - intros _ H. inversion H.
  - intros [Hk0 Hd]%NoDup_cons [[= -> ->]|Hin]%elem_of_cons.
    + by rewrite String.eqb_refl.
    + destruct (String.eqb_spec k0 k) as [->|]; [|by apply IH].
      exfalso. apply Hk0. apply list_elem_of_fmap. by exists (k, v).
Qed.

Lemma dict_mem_false_get {V} k (d : list (string * V)) :
  dict_mem k d = false <-> dict_get k d = None.
Proof.
  induction d as [|[k' v'] d IH]; simpl; [done|]. by destruct (String.eqb k' k).
Qed.

Ltac kwargs_other :=
  repeat first
    [ rewrite dict_get_set_ne by congruence
    | rewrite dict_get_remove_ne by congruence
    | match goal with
      | |- context [match ?x with _ => _ end] => destruct x eqn:?
      end ].

(** what the caller's options contribute to the parameters *)
Lemma build_kwargs_other (self : Model) (prompt : Prompt) (stream : bool) (k : string) :
  k <> "json_object" -> k <> "max_tokens" -> k <> "response_format" ->
  k <> "tools" -> k <> "stream_options" ->
  dict_get k (build_kwargs self prompt stream)
  = dict_get k (options_items (p_options prompt)) ≫= non_null.
Proof.
  intros. rewrite <- dict_get_not_nulls by apply options_keys_NoDup.
  unfold build_kwargs. kwargs_other; done.
Qed.

Lemma build_kwargs_max_tokens (self : Model) (prompt : Prompt) (stream : bool) :
  dict_get "max_tokens" (build_kwargs self prompt stream)
  = match max_tokens (p_options prompt) with
    | Some n => Some (VInt n)
    | None => (fun n => VInt n) <$> default_max_tokens self
    end.
Proof.
  assert (dict_get "max_tokens" (dict_remove "json_object"
            (not_nulls (options_items (p_options prompt))))
          = (fun n => VInt n) <$> max_tokens (p_options prompt)) as Hget.
  { rewrite dict_get_remove_ne by done.
    rewrite dict_get_not_nulls by apply options_keys_NoDup.
    simpl. by destruct (max_tokens (p_options prompt)). }
  unfold build_kwargs.
  set (kwargs := dict_remove "json_object" _) in *.
  assert (dict_get "max_tokens"
            match dict_mem "max_tokens" kwargs, default_max_tokens self with
            | false, Some n => dict_set "max_tokens" (VInt n) kwargs
            | _, _ => kwargs
            end
          = match max_tokens (p_options prompt) with
            | Some n => Some (VInt n)
            | None => (fun n => VInt n) <$> default_max_tokens self
            end) as Hmax.
  { destruct (dict_mem "max_tokens" kwargs) eqn:Hm.
    - apply dict_mem_get in Hm as [? Hv]. rewrite Hget in Hv. rewrite Hget.
      by destruct (max_tokens (p_options prompt)).
    - apply dict_mem_false_get in Hm. rewrite Hget in Hm.
      destruct (max_tokens (p_options prompt)); [done|].
      destruct (default_max_tokens self); [by rewrite dict_get_set_eq|by rewrite Hget]. }
  revert Hmax. generalize (match dict_mem "max_tokens" kwargs, default_max_tokens self with
            | false, Some n => dict_set "max_tokens" (VInt n) kwargs
            | _, _ => kwargs
            end).
  intros kw <-. kwargs_other; done.
Qed.

Lemma NoDup_keys_filter {V} (P : string * V -> Prop) `{!forall x, Decision (P x)}
    (d : list (string * V)) :
  NoDup (map fst d) -> NoDup (map fst (filter P d)).
Proof.
  induction d as [|kv d IH]; [done|]. intros [Hk Hd]%NoDup_cons.
  rewrite filter_cons. destruct (decide (P kv)); [|by apply IH].
  apply NoDup_cons. split; [|by apply IH]. intros Hin. apply Hk.
  apply list_elem_of_fmap in Hin as (kv' & -> & Hin). apply list_elem_of_fmap.
  exists kv'. split; [done|]. by apply list_elem_of_filter in Hin as [_ ?].
Qed.

Lemma dict_get_remove_eq {V} k (d : list (string * V)) :
  NoDup (map fst d) -> dict_get k (dict_remove k d) = None.
Proof.
  induction d as [|[k0 v0] d IH]; [done|]. intros [Hk Hd]%NoDup_cons. simpl.
  destruct (String.eqb_spec k0 k) as [->|Hne]; simpl.
  - destruct (dict_get k d) eqn:Hg; [|done]. exfalso. apply Hk.
    apply list_elem_of_fmap. exists (k, v). split; [done|].
    clear -Hg. induction d as [|[k1 v1] d IH]; [done|]. simpl in *.
    destruct (String.eqb_spec k1 k) as [->|].
    + injection Hg as ->. left.
    + right. by apply IH.
  - destruct (String.eqb_spec k0 k); [done|]. by apply IH.
Qed.

Lemma build_kwargs_json_object (self : Model) (prompt : Prompt) (stream : bool) :
  dict_get "json_object" (build_kwargs self prompt stream) = None.
Proof.
  unfold build_kwargs. kwargs_other;
    apply dict_get_remove_eq, NoDup_keys_filter, options_keys_NoDup.
Qed.

Lemma build_kwargs_schema (self : Model) (prompt : Prompt) (stream : bool) (schema : value) :
  p_schema prompt = Some schema -> truthy schema = true ->
  dict_get "response_format" (build_kwargs self prompt stream)
  = Some (VDict [("type", VStr "json_schema");
                 ("json_schema", VDict [("name", VStr "output"); ("schema", schema)])]).
Proof.
  intros Hs Ht. unfold build_kwargs. rewrite Hs, Ht.
  destruct stream; destruct (p_tools prompt);
    repeat (rewrite dict_get_set_ne by congruence); by rewrite dict_get_set_eq.
Qed.

Lemma build_kwargs_stream_options (self : Model) (prompt : Prompt) (stream : bool) :
  dict_get "stream_options" (build_kwargs self prompt stream)
  = if stream then Some (VDict [("include_usage", VBool true)]) else None.
Proof.
  unfold build_kwargs. destruct stream; [by rewrite dict_get_set_eq|].
  kwargs_other; rewrite dict_get_not_nulls by apply options_keys_NoDup; done.
Qed.

(** C8. Whatever the options, schema, tools and streaming flag, the
    parameters built (1) hold every option that is not null under its own
    name with its own value, [json_object] excepted, which is never among
    them; (2) hold as [max_tokens] the caller's value when there is one
    and the model's default, if any, only when there is none; (3) hold the
    JSON-schema constraint as [response_format] whenever a schema is
    supplied, [json_object] set or not; and (4) hold the include-usage
    stream option exactly when the streaming flag is set. *)
Theorem build_kwargs_contract (self : Model) (prompt : Prompt) (stream : bool) :
  (forall k v,
     (k, v) ∈ options_items (p_options prompt) -> v <> VNone -> k <> "json_object" ->
     dict_get k (build_kwargs self prompt stream) = Some v) /\
  dict_get "json_object" (build_kwargs self prompt stream) = None /\
  dict_get "max_tokens" (build_kwargs self prompt stream)
  = match max_tokens (p_options prompt) with
    | Some n => Some (VInt n)
    | None => (fun n => VInt n) <$> default_max_tokens self
    end /\
  (forall schema,
     p_schema prompt = Some schema -> truthy schema = true ->
     dict_get "response_format" (build_kwargs self prompt stream)
     = Some (VDict [("type", VStr "json_schema");
                    ("json_schema", VDict [("name", VStr "output"); ("schema", schema)])])) /\
  dict_get "stream_options" (build_kwargs self prompt stream)
  = (if stream then Some (VDict [("include_usage", VBool true)]) else None).
Proof.
  split; [|split; [apply build_kwargs_json_object|split; [apply build_kwargs_max_tokens|
    split; [apply build_kwargs_schema|apply build_kwargs_stream_options]]]].
  intros k v Hin Hv Hk.
  assert (non_null v = Some v) as Hnn by (unfold non_null; by destruct v as [[]| |]).
  pose proof (dict_get_NoDup _ _ _ (options_keys_NoDup _) Hin) as Hget.
  destruct (String.eqb_spec k "max_tokens") as [->|Hmax].
  - rewrite build_kwargs_max_tokens. simpl in Hget. injection Hget as <-.
    by destruct (max_tokens (p_options prompt)).
  - rewrite build_kwargs_other; [by rewrite Hget| done | done | | | ];
      intros ->; apply (list_elem_of_fmap_2 fst) in Hin; rewrite options_keys in Hin;
      apply list_elem_of_In in Hin; simpl in Hin; intuition discriminate.
Qed.

(** ** The message builder *)

Section MessageBuilder.
Variable json_dumps : value -> string.

Lemma differs_decide (s : string) (current : option string) :
  differs s current = negb (bool_decide (Some s = current)).
Proof.
  unfold differs. destruct current as [c|]; [|done].
  destruct (String.eqb_spec s c) as [->|Hne]; simpl.
  - by rewrite bool_decide_eq_true_2.
  - rewrite bool_decide_eq_false_2; [done|]. congruence.
Qed.

Lemma system_texts_app (l1 l2 : list value) :
  system_texts (l1 ++ l2) = (system_texts l1 ++ system_texts l2)%list.
Proof. apply omap_app. Qed.

Lemma system_texts_tool_messages (rs : list ToolResult) :
  system_texts (map tool_message rs) = [].
Proof. induction rs as [|r rs IH]; [done|]. exact IH. Qed.

Lemma system_text_attachment_message text atts :
  system_text (attachment_message text atts) = None.
Proof. reflexivity. Qed.

Lemma system_text_tool_calls_message tcs :
  system_text (tool_calls_message json_dumps tcs) = None.
Proof. reflexivity. Qed.

Lemma system_texts_turn_body (r : PrevResponse) :
  system_texts (turn_body json_dumps r) = [].
Proof.
  unfold turn_body. rewrite !system_texts_app, system_texts_tool_messages.
  by destruct (r_attachments r), (p_prompt (r_prompt r)) as [[|??]|], (r_text r),
    (r_tool_calls r).
Qed.

Lemma system_texts_prompt_body (prompt : Prompt) :
  system_texts (prompt_body prompt) = [].
Proof.
  unfold prompt_body. rewrite !system_texts_app, system_texts_tool_messages.
  by destruct (p_attachments prompt), (p_prompt prompt) as [[|??]|].
Qed.

(** one system text contributes what the rule says, and leaves the text
    emitted last *)
Lemma system_step_systems (current system : option string) (rest : list (option string)) :
  (system_texts (system_step current system).1
   ++ emitted_systems (system_step current system).2 rest)%list
  = emitted_systems current (system :: rest).
Proof.
  unfold system_step. destruct system as [[|a s]|]; simpl; try done.
  rewrite differs_decide. destruct (decide (Some (String a s) = current)) as [He|He].
  - by rewrite bool_decide_eq_true_2.
  - by rewrite bool_decide_eq_false_2.
Qed.

Lemma turn_messages_systems (current : option string) (r : PrevResponse) :
  forall rest,
    (system_texts (turn_messages json_dumps current r).1
     ++ emitted_systems (turn_messages json_dumps current r).2 rest)%list
    = emitted_systems current (p_system (r_prompt r) :: rest).
Proof.
  intros rest. unfold turn_messages. rewrite <- system_step_systems.
  destruct (system_step current (p_system (r_prompt r))) as [sys cur]. simpl.
  by rewrite system_texts_app, system_texts_turn_body, app_nil_r.
Qed.

Lemma history_messages_systems (responses : list PrevResponse) :
  forall current rest,
    (system_texts (history_messages json_dumps current responses).1
     ++ emitted_systems (history_messages json_dumps current responses).2 rest)%list
    = emitted_systems current
        (map (fun r => p_system (r_prompt r)) responses ++ rest).
Proof.
  induction responses as [|r responses IH]; intros current rest; [done|].
  cbn [history_messages map app].
  rewrite <- turn_messages_systems.
  destruct (turn_messages json_dumps current r) as [ms cur1] eqn:Ht.
  specialize (IH cur1 rest).
  destruct (history_messages json_dumps cur1 responses) as [ms' cur2] eqn:Hh.
  cbn [fst snd] in *. by rewrite system_texts_app, <- IH, app_assoc.
Qed.

Lemma build_messages_systems (prompt : Prompt) (conversation : option (list PrevResponse)) :
  system_texts (build_messages json_dumps prompt conversation)
  = emitted_systems None (system_inputs prompt conversation).
Proof.
  unfold build_messages, system_inputs.
  assert (forall (messages : list value) (current : option string),
    system_texts
      (messages ++ (system_step current (p_system prompt)).1 ++ prompt_body prompt)
    = (system_texts messages ++ emitted_systems current [p_system prompt])%list) as Htail.
  { intros messages current.
    rewrite !system_texts_app, system_texts_prompt_body, app_nil_r.
    rewrite <- system_step_systems. simpl.
    destruct (p_system prompt) as [[|a s]|]; simpl; by rewrite ?app_nil_r. }
  destruct conversation as [responses|]; cbn [default].
  - pose proof (history_messages_systems responses None [p_system prompt]) as H.
    destruct (history_messages json_dumps None responses) as [ms cur].
    rewrite Htail. exact H.
  - exact (Htail [] None).
Qed.
End MessageBuilder.

(** the rule never emits a text twice in a row *)
Lemma emitted_systems_head (systems : list (option string)) :
  forall last s, head (emitted_systems last systems) = Some s -> Some s <> last.
Proof.
  induction systems as [|[[|a t]|] systems IH]; intros last s; simpl.
  - done.
  - apply IH.
  - destruct (decide (Some (String a t) = last)); [apply IH|].
    simpl. by intros [= <-].
  - apply IH.
Qed.

Lemma emitted_systems_no_repeat (systems : list (option string)) :
  forall last, no_repeat (emitted_systems last systems).
Proof.
  induction systems as [|[[|a t]|] systems IH]; intros last; simpl.
  - by intros i s s' H.
  - apply IH.
  - destruct (decide (Some (String a t) = last)); [apply IH|].
    intros [|i] s s' Hi Hs; simpl in *.
    + injection Hi as <-. intros <-.
      apply (emitted_systems_head systems (Some (String a t)) (String a t)); [|done].
      by destruct (emitted_systems _ systems); simplify_eq/=.
    + by apply (IH (Some (String a t)) i).
  - apply IH.
Qed.

(** two neighbours of a list that both pass through [omap] are
    neighbours in the result *)
Lemma omap_neighbours {A B} (f : A -> option B) (l : list A) (i : nat) (x y : A) (b c : B) :
  l !! i = Some x -> l !! S i = Some y -> f x = Some b -> f y = Some c ->
  exists j, omap f l !! j = Some b /\ omap f l !! S j = Some c.
Proof.
  revert i. induction l as [|z l IH]; intros [|i] Hx Hy Hb Hc; simplify_eq/=.
  - destruct l as [|y' l]; simplify_eq/=. exists 0%nat. by rewrite Hb, Hc.
  - destruct (IH i Hx Hy Hb Hc) as (j & Hj & Hj').
    destruct (f z); [by exists (S j)|by exists j].
Qed.

(** C6. Whatever the history and the prompt, the message list that
    [build_messages] returns (1) has as its system messages exactly the
    texts the rule emits: a text that is set, when it differs from the
    system text emitted last, the prompt's own text being held against
    the last one of the history; (2) never has the same text in two
    system messages that follow each other among the system messages;
    and so (3) never has two system messages in a row with the same
    text. *)
Theorem build_messages_system_dedup (json_dumps : value -> string) (prompt : Prompt)
    (conversation : option (list PrevResponse)) :
  system_texts (build_messages json_dumps prompt conversation)
  = emitted_systems None (system_inputs prompt conversation) /\
  no_repeat (system_texts (build_messages json_dumps prompt conversation)) /\
  (forall i m m' s s',
     build_messages json_dumps prompt conversation !! i = Some m ->
     build_messages json_dumps prompt conversation !! S i = Some m' ->
     system_text m = Some s -> system_text m' = Some s' -> s <> s').
Proof.
  pose proof (build_messages_systems json_dumps prompt conversation) as Hs.
  assert (no_repeat (system_texts (build_messages json_dumps prompt conversation))) as Hn.
  { rewrite Hs. apply emitted_systems_no_repeat. }
  split; [done|]. split; [done|].
  intros i m m' s s' Hi Hi' Hm Hm'.
  destruct (omap_neighbours system_text _ i m m' s s' Hi Hi' Hm Hm') as (j & Hj & Hj').
  by apply (Hn j).
Qed.

(** ** Fresh structures: where [alloc] puts them and what they read as *)

Lemma alloc_all_layout {A B} (f : A -> heap -> B * heap) (g : nat -> A -> B * list obj)
    (xs : list A) :
  Forall (fun x => forall h, f x h = ((g (length h) x).1, (h ++ (g (length h) x).2)%list)) xs ->
  forall h, alloc_all f xs h
            = ((layout_all g (length h) xs).1, (h ++ (layout_all g (length h) xs).2)%list).
Proof.
  induction 1 as [|x xs Hx _ IH]; intros h; simpl.
  - by rewrite app_nil_r.
  - rewrite Hx. destruct (g (length h) x) as [v d]. simpl.
    rewrite IH, length_app.
    destruct (layout_all g (length h + length d) xs) as [vs D]. simpl.
    by rewrite app_assoc.
Qed.

Lemma alloc_layout (t : value) :
  forall h, alloc t h = ((layout (length h) t).1, (h ++ (layout (length h) t).2)%list).
Proof.
  induction t as [a|l IH|d IH] using value_nested_ind; intros h; simpl.
  - by rewrite app_nil_r.
  - rewrite (alloc_all_layout alloc layout l IH).
    destruct (layout_all layout (length h) l) as [vs D]. simpl.
    by rewrite length_app, app_assoc.
  - rewrite (alloc_all_layout _
               (fun b kt => let '(v, d) := layout b kt.2 in ((kt.1, v), d)) d).
    + destruct (layout_all _ (length h) d) as [kvs D]. simpl.
      by rewrite length_app, app_assoc.
    + eapply Forall_impl; [exact IH|]. intros [k x] Hx h'. simpl in *.
      rewrite Hx. by destruct (layout (length h') x).
Qed.

Lemma seg_at_app (pre seg post : list obj) : seg_at (length pre) seg (pre ++ seg ++ post).
Proof.
  intros i o Hi. rewrite lookup_app_r by lia.
  replace (length pre + i - length pre)%nat with i by lia. by apply lookup_app_l_Some.
Qed.

Lemma seg_at_inner (base : nat) (a seg b : list obj) (h : heap) :
  seg_at base (a ++ seg ++ b) h -> seg_at (base + length a) seg h.
Proof.
  intros H i o Hi. replace (base + length a + i)%nat with (base + (length a + i))%nat by lia.
  apply H. rewrite lookup_app_r by lia.
  replace (length a + i - length a)%nat with i by lia. by apply lookup_app_l_Some.
Qed.

Lemma reads_in_inner (base : nat) (a seg b : list obj) (v : val) (t : value) :
  reads_in (base + length a) seg v t -> reads_in base (a ++ seg ++ b) v t.
Proof. intros H h Hh. by apply H, (seg_at_inner _ a seg b). Qed.

Lemma reads_in_left (base : nat) (seg b : list obj) (v : val) (t : value) :
  reads_in base seg v t -> reads_in base (seg ++ b) v t.
Proof.
  intros H. apply (reads_in_inner base [] seg b). simpl.
  by replace (base + 0)%nat with base by lia.
Qed.

Lemma reads_in_right (base : nat) (a seg : list obj) (v : val) (t : value) :
  reads_in (base + length a) seg v t -> reads_in base (a ++ seg) v t.
Proof.
  intros H. pose proof (reads_in_inner base a seg [] v t H) as H'.
  by rewrite app_nil_r in H'.
Qed.

Lemma seg_at_last (base : nat) (D : list obj) (o : obj) (h : heap) :
  seg_at base (D ++ [o]) h -> h !! (base + length D)%nat = Some o.
Proof.
  intros H. apply H. rewrite lookup_app_r by lia.
  by replace (length D - length D)%nat with 0%nat by lia.
Qed.

(** the parts of a fresh list read as the parts of the tree *)
Lemma layout_all_reads (ts : list value) :
  Forall (fun t => forall base, reads_in base (layout base t).2 (layout base t).1 t) ts ->
  forall base,
    Forall2 (reads_in base (layout_all layout base ts).2) (layout_all layout base ts).1 ts.
Proof.
  induction 1 as [|t ts Ht _ IH]; intros base; simpl; [constructor|].
  specialize (Ht base). specialize (IH (base + length (layout base t).2)%nat).
  destruct (layout base t) as [v d]. simpl in *.
  destruct (layout_all layout (base + length d) ts) as [vs D]. simpl in *.
  constructor.
  - by apply reads_in_left.
  - eapply Forall2_impl; [exact IH|]. intros v' t' H'. by apply reads_in_right.
Qed.

Lemma layout_entries_reads (kts : list (string * value)) :
  Forall (fun kt => forall base, reads_in base (layout base kt.2).2 (layout base kt.2).1 kt.2)
         kts ->
  forall base,
    Forall2 (fun kv kt => kv.1 = kt.1 /\
                          reads_in base (layout_all layout_entry base kts).2 kv.2 kt.2)
            (layout_all layout_entry base kts).1 kts.
Proof.
  induction 1 as [|[k t] kts Ht _ IH]; intros base; simpl; [constructor|].
  specialize (Ht base). specialize (IH (base + length (layout base t).2)%nat).
  simpl in Ht, IH. destruct (layout base t) as [v d]. simpl in *.
  destruct (layout_all layout_entry (base + length d) kts) as [kvs D]. simpl in *.
  constructor.
  - split; [done|]. by apply reads_in_left.
  - eapply Forall2_impl; [exact IH|]. intros kv' kt' [? H']. split; [done|].
    by apply reads_in_right.
Qed.

Lemma layout_reads (t : value) :
  forall base, reads_in base (layout base t).2 (layout base t).1 t.
Proof.
  induction t as [a|l IH|d IH] using value_nested_ind; intros base; simpl.
  - intros h _. constructor.
  - pose proof (layout_all_reads l IH base) as Hl.
    destruct (layout_all layout base l) as [vs D]. simpl in *.
    intros h Hh. apply reads_list with vs; [by apply seg_at_last|].
    eapply Forall2_impl; [exact Hl|]. intros v t Hv. apply Hv.
    intros i o Hi. apply Hh. by apply lookup_app_l_Some.
  - pose proof (layout_entries_reads d IH base) as Hd.
    destruct (layout_all layout_entry base d) as [kvs D]. simpl in *.
    intros h Hh. apply reads_dict with kvs; [by apply seg_at_last|].
    eapply Forall2_impl; [exact Hd|]. intros kv kt [? Hv]. split; [done|]. apply Hv.
    intros i o Hi. apply Hh. by apply lookup_app_l_Some.
Qed.

(** ** [redact_data] on a fresh structure *)

Local Open Scope nat_scope.

Lemma layout_entries_keys (kts : list (string * value)) :
  forall base, map fst (layout_all layout_entry base kts).1 = map fst kts.
Proof.
  induction kts as [|[k t] kts IH]; intros base; simpl; [done|].
  destruct (layout base t) as [v d]. specialize (IH (base + length d)%nat).
  destruct (layout_all layout_entry (base + length d) kts) as [kvs D]. simpl in *.
  by rewrite IH.
Qed.

Lemma layout_entries_atom (kts : list (string * value)) (k : string) (a : atom) :
  forall base,
    dict_get k kts = Some (VAtom a) ->
    dict_get k (layout_all layout_entry base kts).1 = Some (Imm a).
Proof.
  induction kts as [|[k0 t] kts IH]; intros base; simpl; [done|].
  destruct (layout base t) as [v d] eqn:Hl. specialize (IH (base + length d)%nat).
  destruct (layout_all layout_entry (base + length d) kts) as [kvs D]. simpl in *.
  destruct (String.eqb k0 k); [|done]. intros [= ->]. simpl in Hl. by injection Hl as <- _.
Qed.

Lemma Forall2_dict_set {V W} (R : V -> W -> Prop) k v w
    (d : list (string * V)) (e : list (string * W)) :
  R v w ->
  Forall2 (fun kv kw => kv.1 = kw.1 /\ R kv.2 kw.2) d e ->
  Forall2 (fun kv kw => kv.1 = kw.1 /\ R kv.2 kw.2) (dict_set k v d) (dict_set k w e).
Proof.
  intros Hvw. induction 1 as [|[k1 v1] [k2 w2] d e [Hk HR] Hde IH]; simpl in *.
  - constructor; [done|constructor].
  - subst k2. destruct (String.eqb k1 k); by constructor.
Qed.

Lemma insert_segment_last (pre D post : list obj) (o x : obj) :
  <[(length pre + length D)%nat := x]> (pre ++ (D ++ [o]) ++ post)
  = (pre ++ (D ++ [x]) ++ post)%list.
Proof.
  rewrite insert_app_r_alt by lia.
  replace (length pre + length D - length pre)%nat with (length D) by lia.
  rewrite insert_app_l by (rewrite length_app; simpl; lia).
  rewrite insert_app_r_alt by lia.
  by replace (length D - length D)%nat with 0%nat by lia.
Qed.

Lemma lookup_segment_last (pre D post : list obj) (o : obj) :
  (pre ++ (D ++ [o]) ++ post) !! (length pre + length D)%nat = Some o.
Proof. apply (seg_at_last _ D o), seg_at_app. Qed.

Lemma seg_at_prefix (base : nat) (D E : list obj) (h : heap) :
  seg_at base (D ++ E) h -> seg_at base D h.
Proof. intros H i o Hi. apply H. by apply lookup_app_l_Some. Qed.

(** the dict a fresh value refers to *)
Lemma heap_dict_layout (t : value) (pre post : list obj) :
  heap_dict (pre ++ (layout (length pre) t).2 ++ post) (layout (length pre) t).1
  = match t with
    | VDict dt =>
        Some ((length pre + length (layout_all layout_entry (length pre) dt).2)%nat,
              (layout_all layout_entry (length pre) dt).1)
    | _ => None
    end.
Proof.
  destruct t as [a|l|dt]; simpl; [done| |].
  - destruct (layout_all layout (length pre) l) as [vs D]. simpl.
    by rewrite lookup_segment_last.
  - destruct (layout_all layout_entry (length pre) dt) as [kvs D]. simpl.
    by rewrite lookup_segment_last.
Qed.

(** a dict whose own entry is overwritten with an atom still reads as
    the tree with that entry overwritten *)
Lemma reads_in_dict_set (base : nat) (dt : list (string * value)) (k : string) (a : atom) :
  reads_in base
    ((layout_all layout_entry base dt).2
     ++ [ODict (dict_set k (Imm a) (layout_all layout_entry base dt).1)])
    (Ref (base + length (layout_all layout_entry base dt).2))
    (VDict (dict_set k (VAtom a) dt)).
Proof.
  pose proof (layout_entries_reads dt) as Hd.
  specialize (Hd ltac:(apply Forall_forall; intros; apply layout_reads) base).
  destruct (layout_all layout_entry base dt) as [kvs D]. simpl in *.
  intros h Hh. eapply reads_dict; [by apply seg_at_last in Hh|].
  apply (Forall2_dict_set (reads h)); [constructor|].
  eapply Forall2_impl; [exact Hd|]. intros kv kt [? Hv]. split; [done|].
  apply Hv. by apply seg_at_prefix in Hh.
Qed.

Lemma redact_step_layout (n : nat) (key : string) (t t' : value) (pre post : list obj) :
  refines_at n t -> (depth t < n)%nat ->
  redact_entry redact key t = Ok t' ->
  exists d',
    length d' = length (layout (length pre) t).2 /\
    redact_step (redact_data n) key (layout (length pre) t).1
      (pre ++ (layout (length pre) t).2 ++ post)
    = Ok (pre ++ d' ++ post)%list /\
    reads_in (length pre) d' (layout (length pre) t).1 t'.
Proof.
  intros IH Hdepth H.
  destruct (redact_entry_cases _ _ _ _ H) as [[[-> Hf]|[-> Hf]]|(Hr & Hi & Ha)].
  - destruct Hf as (dt & u & -> & Hu & Hs & ->).
    unfold redact_step. rewrite heap_dict_layout. simpl.
    rewrite (layout_entries_atom _ _ _ _ Hu), Hs.
    pose proof (reads_in_dict_set (length pre) dt "url" (AStr DATA_PLACEHOLDER)) as Hreads.
    destruct (layout_all layout_entry (length pre) dt) as [kvs D]. simpl in *.
    eexists. split; [|split; [by rewrite insert_segment_last|exact Hreads]].
    by rewrite !length_app.
  - destruct Hf as (dt & -> & Hm & ->).
    unfold redact_step. rewrite heap_dict_layout. simpl.
    rewrite <- (dict_get_keys "data" _ _ (layout_entries_keys dt (length pre))) in Hm.
    rewrite Hm.
    pose proof (reads_in_dict_set (length pre) dt "data" (AStr AUDIO_PLACEHOLDER)) as Hreads.
    destruct (layout_all layout_entry (length pre) dt) as [kvs D]. simpl in *.
    eexists. split; [|split; [by rewrite insert_segment_last|exact Hreads]].
    by rewrite !length_app.
  - assert (redact_step (redact_data n) key (layout (length pre) t).1
              (pre ++ (layout (length pre) t).2 ++ post)
            = redact_data n (layout (length pre) t).1
                (pre ++ (layout (length pre) t).2 ++ post)) as ->; [|by apply IH].
    unfold redact_step. rewrite heap_dict_layout.
    destruct (String.eqb_spec key "image_url") as [->|Hne]; simpl.
    + destruct t as [a|l|dt]; try done.
      destruct (Hi eq_refl dt eq_refl) as [Hn|(u & Hu & Hs)].
      * by rewrite (dict_get_none_keys _ _ _ (layout_entries_keys dt (length pre)) Hn).
      * by rewrite (layout_entries_atom _ _ _ _ Hu), Hs.
    + destruct (String.eqb_spec key "input_audio") as [->|Hne']; simpl; [|done].
      destruct t as [a|l|dt]; try done.
      by rewrite (dict_get_keys "data" _ _ (layout_entries_keys dt (length pre))),
        (Ha eq_refl dt eq_refl).
Qed.

Lemma list_loop_layout (n : nat) (ts : list value) :
  Forall (refines_at n) ts ->
  forall ts' pre post,
    Forall (fun t => depth t < n) ts ->
    mapM redact ts = Ok ts' ->
    exists D',
      length D' = length (layout_all layout (length pre) ts).2 /\
      list_loop (redact_data n) (layout_all layout (length pre) ts).1
        (pre ++ (layout_all layout (length pre) ts).2 ++ post)
      = Ok (pre ++ D' ++ post) /\
      Forall2 (reads_in (length pre) D') (layout_all layout (length pre) ts).1 ts'.
Proof.
  induction 1 as [|t ts Ht Hts IH]; intros ts' pre post Hd Hm.
  - apply mapM_Ok in Hm. inversion Hm; subst. exists []. simpl. repeat split. constructor.
  - apply mapM_Ok in Hm. inversion Hm as [|? t' ? ts'' Hr Hrs]; subst. clear Hm.
    apply mapM_Ok in Hrs. inversion Hd as [|?? Hdt Hds]; subst.
    destruct (Ht t' pre ((layout_all layout (length pre + length (layout (length pre) t).2) ts).2
                         ++ post) Hdt Hr) as (d' & Hlen & Hrun & Hreads).
    destruct (IH ts'' (pre ++ d') post Hds Hrs) as (D' & HLen & HRun & HReads).
    rewrite length_app, Hlen in HLen, HRun, HReads.
    simpl. destruct (layout (length pre) t) as [v d]. simpl in *.
    destruct (layout_all layout (length pre + length d) ts) as [vs D]. simpl in *.
    exists (d' ++ D'). split; [by rewrite !length_app, Hlen, HLen|]. split.
    + rewrite <- !app_assoc. rewrite Hrun. simpl.
      rewrite <- !app_assoc in HRun. exact HRun.
    + constructor.
      * by apply reads_in_left.
      * eapply Forall2_impl; [exact HReads|]. intros v' t'' H'. apply reads_in_right.
        by rewrite Hlen.
Qed.

Lemma dict_loop_layout (n : nat) (kts : list (string * value)) :
  Forall (fun kt => refines_at n kt.2) kts ->
  forall kts' pre post done l,
    Forall (fun kt => depth kt.2 < n) kts ->
    mapM (fun kx => x' ← redact_entry redact kx.1 kx.2; mret (kx.1, x')) kts = Ok kts' ->
    (forall D', length D' = length (layout_all layout_entry (length pre) kts).2 ->
                (pre ++ D' ++ post) !! l
                = Some (ODict (done ++ (layout_all layout_entry (length pre) kts).1))) ->
    exists D',
      length D' = length (layout_all layout_entry (length pre) kts).2 /\
      dict_loop (redact_data n) l (length done)
        (length (layout_all layout_entry (length pre) kts).1)
        (pre ++ (layout_all layout_entry (length pre) kts).2 ++ post)
      = Ok (pre ++ D' ++ post) /\
      Forall2 (fun kv kt => kv.1 = kt.1 /\ reads_in (length pre) D' kv.2 kt.2)
              (layout_all layout_entry (length pre) kts).1 kts'.
Proof.
  induction 1 as [|[k t] kts Ht Hts IH]; intros kts' pre post done l Hd Hm Hl.
  - apply mapM_Ok in Hm. inversion Hm; subst. exists []. simpl. repeat split. constructor.
  - apply mapM_Ok in Hm. inversion Hm as [|? [k' t'] ? kts'' Hr Hrs]; subst. clear Hm.
    apply mapM_Ok in Hrs. apply entry_Ok in Hr as [Hk Hr]. simpl in Hk, Hr, Ht. subst k'.
    inversion Hd as [|?? Hdt Hds]; subst. simpl in Hdt.
    destruct (redact_step_layout n k t t' pre
                ((layout_all layout_entry (length pre + length (layout (length pre) t).2)
                    kts).2 ++ post) Ht Hdt Hr) as (d' & Hlen & Hrun & Hreads).
    specialize (IH kts'' (pre ++ d') post (done ++ [(k, (layout (length pre) t).1)]) l Hds Hrs).
    rewrite length_app, Hlen in IH.
    specialize (Hl ((layout (length pre) t).2
                    ++ (layout_all layout_entry
                          (length pre + length (layout (length pre) t).2) kts).2)) as Hl0.
    simpl in Hl, Hl0 |- *. destruct (layout (length pre) t) as [v d]. simpl in *.
    destruct (layout_all layout_entry (length pre + length d) kts) as [kvs D]. simpl in *.
    destruct IH as (D' & HLen & HRun & HReads).
    { intros D' HD'. rewrite <- !app_assoc. simpl.
      specialize (Hl (d' ++ D')). rewrite <- !app_assoc in Hl. apply Hl.
      rewrite !length_app. lia. }
    exists (d' ++ D'). split; [by rewrite !length_app, Hlen, HLen|]. split.
    + rewrite Hl0 by done. rewrite list_lookup_middle by done.
      rewrite <- !app_assoc. rewrite Hrun. simpl.
      rewrite <- !app_assoc in HRun. rewrite length_app in HRun. simpl in HRun.
      replace (length done + 1) with (S (length done)) in HRun by lia. exact HRun.
    + constructor.
      * split; [done|]. by apply reads_in_left.
      * eapply Forall2_impl; [exact HReads|]. intros kv kt [? H']. split; [done|].
        apply reads_in_right. by rewrite Hlen.
Qed.

Lemma max_list_bound (f : value -> nat) (l : list value) (n : nat) :
  max_list (map f l) < n -> Forall (fun t => f t < n) l.
Proof.
  induction l as [|x l IH]; simpl; [constructor|]. intros H.
  constructor; [lia|]. apply IH. lia.
Qed.

Lemma max_list_bound_entries (d : list (string * value)) (n : nat) :
  max_list (map (fun kx => depth kx.2) d) < n -> Forall (fun kt => depth kt.2 < n) d.
Proof.
  induction d as [|x l IH]; simpl; [constructor|]. intros H.
  constructor; [lia|]. apply IH. lia.
Qed.

(** Run on a fresh structure with room for its depth, [redact_data]
    succeeds, rewrites only the objects of the structure, and leaves a
    structure that reads as the redacted tree. *)
Lemma redact_data_refines (t : value) : forall n, refines_at n t.
Proof.
  induction t as [a|l IH|d IH] using value_nested_ind; intros n t' pre post Hdepth Hr.
  - destruct n as [|n]; [lia|]. injection Hr as <-. exists []. simpl.
    repeat split. intros h _. constructor.
  - destruct n as [|n]; [lia|]. simpl in Hdepth.
    rewrite redact_list in Hr. apply fmap_Ok in Hr as (l' & Hl & ->).
    destruct (list_loop_layout n l (Forall_impl _ _ _ IH (fun t H => H n)) l' pre
                ([OList (layout_all layout (length pre) l).1] ++ post)
                (max_list_bound depth l n ltac:(lia)) Hl) as (D' & HLen & HRun & HReads).
    simpl. destruct (layout_all layout (length pre) l) as [vs D]. simpl in *.
    exists (D' ++ [OList vs]). split; [by rewrite !length_app, HLen|]. split.
    + rewrite lookup_segment_last. rewrite <- !app_assoc. simpl. exact HRun.
    + intros h Hh. apply reads_list with vs.
      * rewrite <- HLen. by apply seg_at_last in Hh.
      * eapply Forall2_impl; [exact HReads|]. intros v t H. apply H.
        by apply seg_at_prefix in Hh.
  - destruct n as [|n]; [lia|]. simpl in Hdepth.
    rewrite redact_dict in Hr. apply fmap_Ok in Hr as (d' & Hd & ->).
    destruct (dict_loop_layout n d (Forall_impl _ _ _ IH (fun t H => H n)) d' pre
                ([ODict (layout_all layout_entry (length pre) d).1] ++ post) []
                (length pre + length (layout_all layout_entry (length pre) d).2)
                (max_list_bound_entries d n ltac:(lia)) Hd) as (D' & HLen & HRun & HReads).
    { intros D' HD'. rewrite <- HD'. rewrite (app_assoc D').
      apply lookup_segment_last. }
    simpl. destruct (layout_all layout_entry (length pre) d) as [kvs D]. simpl in *.
    exists (D' ++ [ODict kvs]). split; [by rewrite !length_app, HLen|]. split.
    + rewrite lookup_segment_last. rewrite <- !app_assoc. simpl. exact HRun.
    + intros h Hh. apply reads_dict with kvs.
      * rewrite <- HLen. by apply seg_at_last in Hh.
      * eapply Forall2_impl; [exact HReads|]. intros kv kt [? H]. split; [done|].
        apply H. by apply seg_at_prefix in Hh.
Qed.

Local Close Scope nat_scope.

(** ** The messages that [build_messages] returns can be redacted *)

Local Open Scope nat_scope.

Lemma mapM_is_ok {A B} (f : A -> result B) (l : list A) :
  Forall (fun x => is_ok (f x) = true) l -> is_ok (mapM f l) = true.
Proof.
  induction 1 as [|x l Hx _ IH]; [done|]. simpl.
  unfold mbind, result_bind. destruct (f x); [|done]. by destruct (mapM f l).
Qed.

Lemma fits_list (n : nat) (l : list value) : Forall (fits n) l -> fits (S n) (VList l).
Proof.
  intros H. split.
  - simpl. apply le_n_S. induction H as [|x l [Hx _] _ IH]; simpl; lia.
  - rewrite redact_list. assert (is_ok (mapM redact l) = true) as Hok.
    { apply mapM_is_ok. eapply Forall_impl; [exact H|]. by intros x [_ ?]. }
    by destruct (mapM redact l).
Qed.

Lemma fits_mono (n m : nat) (t : value) : n <= m -> fits n t -> fits m t.
Proof. intros Hnm [Hd Hr]. split; [lia|done]. Qed.

Lemma fits_attachment (a : Attachment) : fits 2 (_attachment a).
Proof.
  unfold _attachment.
  destruct (String.eqb (att_type a) "application/pdf"); [by split|].
  destruct (startswith "image/" (att_type a)); [|by split].
  split; [simpl; lia|].
  rewrite redact_dict. simpl. unfold redact_entry at 1. simpl.
  by destruct (startswith "data:" _).
Qed.

Lemma redact_entry_plain (key : string) (x : value) :
  key <> "image_url" -> key <> "input_audio" -> redact_entry redact key x = redact x.
Proof.
  intros H1 H2. unfold redact_entry.
  destruct (String.eqb_spec key "image_url"); [done|].
  by destruct (String.eqb_spec key "input_audio").
Qed.

(** a message: a role and one more field *)
Lemma fits_message (n : nat) (role key : string) (x : value) :
  key <> "image_url" -> key <> "input_audio" ->
  fits n x -> fits (S n) (VDict [("role", VStr role); (key, x)]).
Proof.
  intros H1 H2 [Hd Hr]. split; [simpl; lia|].
  rewrite redact_dict. simpl. rewrite (redact_entry_plain key) by done.
  unfold mbind, result_bind. simpl. by destruct (redact x).
Qed.

Section BuiltMessages.
Variable json_dumps : value -> string.

Lemma fits_tool_message (r : ToolResult) : fits 4 (tool_message r).
Proof. unfold tool_message. by destruct (tr_tool_call_id r); split; simpl; try lia. Qed.

Lemma fits_attachment_message text atts : fits 4 (attachment_message text atts).
Proof.
  unfold attachment_message. apply fits_message; [done|done|]. apply fits_list.
  apply Forall_app. split.
  - destruct text as [[|a s]|]; [constructor| |constructor].
    constructor; [|constructor]. split; [simpl; lia|done].
  - apply Forall_forall. intros x (a & -> & _)%list_elem_of_fmap. apply fits_attachment.
Qed.

Lemma fits_tool_calls_message tcs : fits 4 (tool_calls_message json_dumps tcs).
Proof.
  unfold tool_calls_message. apply fits_message; [done|done|]. apply fits_list.
  apply Forall_forall. intros x (tc & -> & _)%list_elem_of_fmap.
  by destruct (tc_tool_call_id tc), (tc_name tc); split; simpl; try lia.
Qed.

Lemma fits_system_step current system : Forall (fits 4) (system_step current system).1.
Proof.
  unfold system_step. destruct system as [[|a s]|]; [constructor| |constructor].
  destruct (differs _ _); [|constructor].
  constructor; [|constructor]. split; [simpl; lia|done].
Qed.

Lemma fits_turn_body (r : PrevResponse) : Forall (fits 4) (turn_body json_dumps r).
Proof.
  unfold turn_body. rewrite !Forall_app. repeat split.
  - destruct (r_attachments r) eqn:E;
      [|rewrite <- E; constructor; [apply fits_attachment_message|constructor]].
    destruct (p_prompt (r_prompt r)) as [[|a s]|]; [constructor| |constructor].
    constructor; [|constructor]. split; [simpl; lia|done].
  - apply Forall_forall. intros x (tr & -> & _)%list_elem_of_fmap. apply fits_tool_message.
  - destruct (r_text r); [constructor|].
    constructor; [|constructor]. split; [simpl; lia|done].
  - destruct (r_tool_calls r) eqn:E; [constructor|]. rewrite <- E.
    constructor; [apply fits_tool_calls_message|constructor].
Qed.

Lemma fits_prompt_body (prompt : Prompt) : Forall (fits 4) (prompt_body prompt).
Proof.
  unfold prompt_body. rewrite !Forall_app. repeat split.
  - apply Forall_forall. intros x (tr & -> & _)%list_elem_of_fmap. apply fits_tool_message.
  - destruct (p_attachments prompt) eqn:E;
      [|rewrite <- E; constructor; [apply fits_attachment_message|constructor]].
    destruct (p_prompt prompt) as [[|a s]|]; [constructor| |constructor].
    constructor; [|constructor]. split; [simpl; lia|done].
Qed.

Lemma fits_history (responses : list PrevResponse) :
  forall current, Forall (fits 4) (history_messages json_dumps current responses).1.
Proof.
  induction responses as [|r rs IH]; intros current; simpl; [constructor|].
  unfold turn_messages. pose proof (fits_system_step current (p_system (r_prompt r))) as Hs.
  destruct (system_step current (p_system (r_prompt r))) as [sys cur]. simpl in *.
  specialize (IH cur). destruct (history_messages json_dumps cur rs) as [ms cur'].
  simpl in *. rewrite !Forall_app. auto using fits_turn_body.
Qed.

Lemma fits_build_messages prompt conversation :
  fits 5 (VList (build_messages json_dumps prompt conversation)).
Proof.
  apply fits_list. unfold build_messages.
  destruct conversation as [responses|].
  - pose proof (fits_history responses None) as Hh.
    destruct (history_messages json_dumps None responses) as [ms cur]. simpl in *.
    rewrite !Forall_app. auto using fits_system_step, fits_prompt_body.
  - rewrite !Forall_app. auto using fits_system_step, fits_prompt_body.
Qed.
End BuiltMessages.

Local Close Scope nat_scope.

(** ** The execution monad *)

Lemma bind_Ok {A B} (m : M A) (k : A -> M B) (w w' : world) (b : B) :
  (m ≫= k) w = (Ok b, w') ->
  exists a w1, m w = (Ok a, w1) /\ k a w1 = (Ok b, w').
Proof.
  unfold mbind, M_bind. destruct (m w) as [[a|e] w1]; [eauto|done].
Qed.

Lemma bind_run {A B} (m : M A) (k : A -> M B) (w w1 : world) (a : A) :
  m w = (Ok a, w1) -> (m ≫= k) w = k a w1.
Proof. unfold mbind, M_bind. by intros ->. Qed.

Lemma bind_fail {A B} (m : M A) (k : A -> M B) (w w1 : world) (e : exn) :
  m w = (Err e, w1) -> (m ≫= k) w = (Err e, w1).
Proof. unfold mbind, M_bind. by intros ->. Qed.

Lemma quiet_ret {A} (a : A) : quiet (mret a).
Proof. by intros w. Qed.

Lemma quiet_bind {A B} (m : M A) (k : A -> M B) :
  quiet m -> (forall a, quiet (k a)) -> quiet (m ≫= k).
Proof.
  intros Hm Hk w. unfold mbind, M_bind. destruct (Hm w) as [Hs Hc].
  destruct (m w) as [[a|e] w1]; [|done]. simpl in Hs, Hc.
  destruct (Hk a w1) as [Hs' Hc']. rewrite <- Hs, <- Hc. by split.
Qed.

Lemma quiet_lift {A} (r : result A) : quiet (lift r).
Proof. by intros w. Qed.

Lemma quiet_raise {A} (e : exn) : quiet (@raise A e).
Proof. by intros w. Qed.

Lemma quiet_yield (text : string) : quiet (yield text).
Proof. by intros w. Qed.

Lemma quiet_yield_content (content : option string) : quiet (yield_content content).
Proof. destruct content; [apply quiet_yield|apply quiet_ret]. Qed.

Lemma quiet_modify_response (f : Response -> Response) : quiet (modify_response f).
Proof. by intros w. Qed.

Lemma quiet_do_set_usage usage : quiet (do_set_usage usage).
Proof. intros w. unfold do_set_usage. by destruct (set_usage _ _). Qed.

Lemma quiet_add_tool_calls (vs : list ChoiceDeltaToolCall) : quiet (add_tool_calls vs).
Proof.
  induction vs as [|v vs IH]; [apply quiet_ret|]. simpl.
  apply quiet_bind; [apply quiet_lift|]. intros tc.
  apply quiet_bind; [apply quiet_modify_response|]. by intros _.
Qed.

Create HintDb quiet.
#[local] Hint Resolve quiet_ret quiet_lift quiet_raise quiet_yield quiet_yield_content
  quiet_modify_response quiet_do_set_usage quiet_add_tool_calls : quiet.

Ltac quiet := repeat first [ progress eauto with quiet | apply quiet_bind | intros ? ].

Lemma quiet_Chat_loop (completion : list Chunk) :
  forall acc, quiet (Chat_loop acc completion).
Proof.
  induction completion as [|chunk rest IH]; intros acc; simpl; [apply quiet_ret|].
  apply quiet_bind; [|done]. unfold Chat_chunk. quiet.
Qed.

Lemma quiet_AsyncChat_loop (completion : list Chunk) :
  forall acc, quiet (AsyncChat_loop acc completion).
Proof.
  induction completion as [|chunk rest IH]; intros acc; simpl; [apply quiet_ret|].
  apply quiet_bind; [|done]. unfold AsyncChat_chunk. quiet.
Qed.

Lemma one_call_create {A B} (c : Call) (r : result A) (k : A -> M B) :
  (forall a, quiet (k a)) -> one_call c ((record_call c;; lift r) ≫= k).
Proof.
  intros Hk w. unfold mbind, M_bind, record_call, lift. simpl.
  destruct r as [a|e]; simpl; [|done].
  by destruct (Hk a {| store := store w; response := response w; yielded := yielded w;
                       calls := calls w ++ [c] |}) as [Hs Hc].
Qed.

Section ChatCalls.
Variable json_dumps : value -> string.
Variable self : Model.
Variable transport : Transport.

Lemma one_call_Chat_stream messages wire kwargs :
  one_call (ChatCreate (model_arg self) messages wire kwargs true)
           (Chat_stream self transport messages wire kwargs).
Proof.
  unfold Chat_stream, chat_create. apply one_call_create. intros completion.
  apply quiet_bind; [apply quiet_Chat_loop|]. quiet.
Qed.

Lemma one_call_Chat_single messages wire kwargs :
  one_call (ChatCreate (model_arg self) messages wire kwargs false)
           (Chat_single self transport messages wire kwargs).
Proof. unfold Chat_single, chat_create. apply one_call_create. quiet. Qed.

Lemma one_call_AsyncChat_stream messages wire kwargs :
  one_call (ChatCreate (model_arg self) messages wire kwargs true)
           (AsyncChat_stream self transport messages wire kwargs).
Proof.
  unfold AsyncChat_stream, chat_create. apply one_call_create. intros completion.
  apply quiet_bind; [apply quiet_AsyncChat_loop|]. quiet.
Qed.

Lemma one_call_AsyncChat_single messages wire kwargs :
  one_call (ChatCreate (model_arg self) messages wire kwargs false)
           (AsyncChat_single self transport messages wire kwargs).
Proof. unfold AsyncChat_single, chat_create. apply one_call_create. quiet. Qed.
End ChatCalls.

(** ** The redaction of the request, as the executors run it *)

Local Open Scope nat_scope.

Lemma redact_data_S (n : nat) (l : loc) (h : heap) :
  redact_data (S n) (Ref l) h
  = match h !! l with
    | Some (ODict d) => dict_loop (redact_data n) l 0 (length d) h
    | Some (OList items) => list_loop (redact_data n) items h
    | None => Ok h
    end.
Proof. reflexivity. Qed.

(** [redact_data({"messages": messages})] for a fresh [messages]: the
    new dict keeps referring to [messages], whose objects are rewritten *)
Lemma redact_data_request (n : nat) (t t' : value) (pre : list obj) :
  depth t < n -> redact t = Ok t' ->
  exists d',
    length d' = length (layout (length pre) t).2 /\
    redact_data (S n) (Ref (length pre + length (layout (length pre) t).2))
      (pre ++ (layout (length pre) t).2 ++ [ODict [("messages", (layout (length pre) t).1)]])
    = Ok (pre ++ d' ++ [ODict [("messages", (layout (length pre) t).1)]]) /\
    reads_in (length pre) d' (layout (length pre) t).1 t'.
Proof.
  intros Hd Hr.
  destruct (redact_data_refines t n t' pre
              [ODict [("messages", (layout (length pre) t).1)]] Hd Hr)
    as (d' & Hlen & Hrun & Hreads).
  exists d'. split; [done|]. split; [|done].
  destruct (layout (length pre) t) as [v d]. cbn [fst snd] in *.
  assert ((pre ++ d ++ [ODict [("messages", v)]]) !! (length pre + length d)
          = Some (ODict [("messages", v)])) as Hl.
  { pose proof (lookup_segment_last pre d [] (ODict [("messages", v)])) as H.
    by rewrite app_nil_r in H. }
  rewrite redact_data_S, Hl. simpl. rewrite Hl. simpl.
  unfold redact_step. simpl. rewrite Hrun. done.
Qed.

Lemma new_layout (t : value) (w : world) :
  new t w
  = (Ok (layout (length (store w)) t).1,
     {| store := store w ++ (layout (length (store w)) t).2; response := response w;
        yielded := yielded w; calls := calls w |}).
Proof. unfold new. by rewrite alloc_layout. Qed.

Lemma store_prompt_json_fresh (t t' : value) (pre : list obj) (w : world) :
  store w = pre ++ (layout (length pre) t).2 ->
  depth t < 999 -> redact t = Ok t' ->
  exists d',
    length d' = length (layout (length pre) t).2 /\
    reads_in (length pre) d' (layout (length pre) t).1 t' /\
    store_prompt_json (layout (length pre) t).1 w
    = (Ok tt,
       {| store := pre ++ d' ++ [ODict [("messages", (layout (length pre) t).1)]];
          response := {| response_json := response_json (response w);
                         tool_calls := tool_calls (response w);
                         usage := usage (response w);
                         _prompt_json := Some (Ref (length pre + length d')) |};
          yielded := yielded w; calls := calls w |}).
Proof.
  intros Hs Hd Hr.
  destruct (redact_data_request 999 t t' pre Hd Hr) as (d' & Hlen & Hrun & Hreads).
  exists d'. split; [done|]. split; [done|].
  unfold store_prompt_json, new_request, set_prompt_json, modify_response, mbind, M_bind.
  cbn [store response yielded calls]. rewrite Hs, length_app, <- app_assoc.
  change recursion_limit with (S 999). rewrite Hrun. by rewrite Hlen.
Qed.

Section ChatExecute.
Variable json_dumps : value -> string.
Variable self : Model.
Variable transport : Transport.

(** what a completed run of [Chat.execute] leaves behind *)
Lemma Chat_execute_Ok (prompt : Prompt) (stream : bool)
    (conversation : option (list PrevResponse)) (w w' : world) (wire : value) :
  wire = VList (build_messages json_dumps prompt conversation) ->
  Chat_execute json_dumps self transport prompt stream conversation w = (Ok tt, w') ->
  exists redacted d',
    redact wire = Ok redacted /\
    length d' = length (layout (length (store w)) wire).2 /\
    reads_in (length (store w)) d' (layout (length (store w)) wire).1 redacted /\
    store w' = store w ++ d' ++ [ODict [("messages", (layout (length (store w)) wire).1)]] /\
    _prompt_json (response w') = Some (Ref (length (store w) + length d')) /\
    calls w' = calls w ++ [ChatCreate (model_arg self) (layout (length (store w)) wire).1
                             wire (build_kwargs self prompt stream) stream].
Proof.
  intros Hwire H. unfold Chat_execute in H.
  destruct (truthy_str (p_system prompt) && negb (allows_system_prompt self)); [done|].
  destruct (fits_build_messages json_dumps prompt conversation) as [Hdepth Hok].
  rewrite <- Hwire in H, Hdepth, Hok. clear Hwire.
  apply bind_Ok in H as (v & w1 & Hnew & H).
  rewrite new_layout in Hnew. injection Hnew as <- <-.
  set (messages := (layout (length (store w)) wire).1) in *.
  apply bind_Ok in H as (usage & w2 & Hmid & H).
  apply bind_Ok in H as ([] & w3 & Hset & H).
  assert (store w2 = store w ++ (layout (length (store w)) wire).2 /\
          calls w2 = calls w ++ [ChatCreate (model_arg self) messages wire
                                   (build_kwargs self prompt stream) stream])
    as [Hs2 Hc2].
  { destruct stream.
    - epose proof (one_call_Chat_stream self transport messages wire
                     (build_kwargs self prompt true) _) as [Hs Hc].
      rewrite Hmid in Hs, Hc. done.
    - epose proof (one_call_Chat_single self transport messages wire
                     (build_kwargs self prompt false) _) as [Hs Hc].
      rewrite Hmid in Hs, Hc. done. }
  destruct (quiet_do_set_usage usage w2) as [Hs3 Hc3]. rewrite Hset in Hs3, Hc3.
  simpl in Hs3, Hc3.
  destruct (redact wire) as [redacted|] eqn:Hr; [|done].
  destruct (store_prompt_json_fresh wire redacted (store w) w3) as (d' & Hlen & Hreads & Hrun);
    [congruence|lia|done|].
  fold messages in Hrun, Hreads. rewrite Hrun in H. injection H as <-.
  exists redacted, d'. simpl. rewrite Hc3, Hc2. done.
Qed.
End ChatExecute.

Local Open Scope nat_scope.

Lemma lookup_segment_end (pre D : list obj) (o : obj) :
  (pre ++ D ++ [o]) !! (length pre + length D) = Some o.
Proof.
  pose proof (lookup_segment_last pre D [] o) as H. by rewrite app_nil_r in H.
Qed.

(** C4, as the code has it. No copy is made for the audit record: when a
    call of [Chat.execute] completes, the endpoint has been handed the
    message list as [build_messages] returned it, unredacted; the request
    attached to the response is a new dict whose [messages] entry is that
    very list; and the list itself, rewritten in place after the call,
    now reads as its redaction. *)
Theorem redaction_rewrites_the_live_messages (json_dumps : value -> string) (self : Model)
    (transport : Transport) (prompt : Prompt) (stream : bool)
    (conversation : option (list PrevResponse)) (w w' : world) :
  Chat_execute json_dumps self transport prompt stream conversation w = (Ok tt, w') ->
  exists messages request redacted,
    calls w' = calls w ++ [ChatCreate (model_arg self) messages
                             (VList (build_messages json_dumps prompt conversation))
                             (build_kwargs self prompt stream) stream] /\
    redact (VList (build_messages json_dumps prompt conversation)) = Ok redacted /\
    _prompt_json (response w') = Some (Ref request) /\
    store w' !! request = Some (ODict [("messages", messages)]) /\
    reads (store w') messages redacted.
Proof.
  intros H.
  destruct (Chat_execute_Ok json_dumps self transport prompt stream conversation w w' _
              eq_refl H) as (redacted & d' & Hr & Hlen & Hreads & Hs & Hp & Hc).
  eexists _, _, redacted. split; [exact Hc|]. split; [done|]. split; [exact Hp|].
  rewrite Hs. split; [apply lookup_segment_end|]. apply Hreads, seg_at_app.
Qed.

Local Close Scope nat_scope.

Lemma redaction_rewrites_the_live_messages_witness :
  exists messages request redacted,
    calls (Chat_execute dumps_unused gpt_4o (streaming hello_stream) image_prompt true None
             empty_world).2
    = calls empty_world ++ [ChatCreate (model_arg gpt_4o) messages
                              (VList (build_messages dumps_unused image_prompt None))
                              (build_kwargs gpt_4o image_prompt true) true] /\
    redact (VList (build_messages dumps_unused image_prompt None)) = Ok redacted /\
    _prompt_json (response (Chat_execute dumps_unused gpt_4o (streaming hello_stream)
                              image_prompt true None empty_world).2)
    = Some (Ref request) /\
    store (Chat_execute dumps_unused gpt_4o (streaming hello_stream) image_prompt true None
             empty_world).2 !! request
    = Some (ODict [("messages", messages)]) /\
    reads (store (Chat_execute dumps_unused gpt_4o (streaming hello_stream) image_prompt true
                    None empty_world).2) messages redacted.
Proof.
  apply (redaction_rewrites_the_live_messages dumps_unused gpt_4o (streaming hello_stream)
           image_prompt true None empty_world).
  vm_compute. reflexivity.
Defined.

(** C4 as the spec states it fails: after a completed call with an inline
    image, the list that was handed to the endpoint no longer holds the
    data URL it was sent with. *)
Lemma live_messages_lose_their_data_url :
  (Chat_execute dumps_unused gpt_4o (streaming hello_stream) image_prompt true None
     empty_world).1 = Ok tt /\
  exists messages wire kwargs,
    calls (Chat_execute dumps_unused gpt_4o (streaming hello_stream) image_prompt true None
             empty_world).2
    = [ChatCreate "gpt-4o" messages wire kwargs true] /\
    wire = VList [VDict [("role", VStr "user");
                         ("content",
                           VList [VDict [("type", VStr "text"); ("text", VStr "Describe this")];
                                  image_part])]] /\
    snapshot 8 (store (Chat_execute dumps_unused gpt_4o (streaming hello_stream) image_prompt
                         true None empty_world).2) messages
    = Some (VList [VDict [("role", VStr "user");
                          ("content",
                            VList [VDict [("type", VStr "text"); ("text", VStr "Describe this")];
                                   image_part_redacted])]]) /\
    snapshot 8 (store (Chat_execute dumps_unused gpt_4o (streaming hello_stream) image_prompt
                         true None empty_world).2) messages
    <> Some wire.
Proof.
  split; [vm_compute; reflexivity|].
  eexists _, _, _. split; [vm_compute; reflexivity|]. split; [reflexivity|].
  split; [vm_compute; reflexivity|]. vm_compute. discriminate.
Qed.

(** ** The streamed scenario of the spec *)

Section HelloScenario.
Variable json_dumps : value -> string.
Variable self : Model.
Variable transport : Transport.

Lemma hello_stream_run (completion : list Chunk) messages wire kwargs (w : world) :
  stream_reply transport = Delivered completion ->
  (completion = hello_stream \/ completion = hello_stream_short) ->
  Chat_stream self transport messages wire kwargs w
  = (Ok (Some hello_usage),
     {| store := store w;
        response := {| response_json := Some hello_json;
                       tool_calls := tool_calls (response w);
                       usage := usage (response w);
                       _prompt_json := _prompt_json (response w) |};
        yielded := ((yielded w ++ ["Hel"]) ++ ["lo"]) ++ [EmptyString];
        calls := calls w ++ [ChatCreate (model_arg self) messages wire kwargs true] |}).
Proof.
  intros Ht [->| ->]; unfold Chat_stream, chat_create; rewrite Ht;
    vm_compute; reflexivity.
Qed.

Lemma hello_scenario_run (completion : list Chunk) (prompt : Prompt)
    (conversation : option (list PrevResponse)) (w : world) :
  stream_reply transport = Delivered completion ->
  (completion = hello_stream \/ completion = hello_stream_short) ->
  truthy_str (p_system prompt) && negb (allows_system_prompt self) = false ->
  exists w',
    Chat_execute json_dumps self transport prompt true conversation w = (Ok tt, w') /\
    yielded w' = yielded w ++ ["Hel"; "lo"; EmptyString] /\
    response_json (response w') = Some hello_json /\
    usage (response w') = Some hello_normalized.
Proof.
  intros Ht Hc Hguard. unfold Chat_execute. rewrite Hguard.
  destruct (fits_build_messages json_dumps prompt conversation) as [Hdepth Hok].
  remember (VList (build_messages json_dumps prompt conversation)) as wire eqn:Hwire.
  destruct (redact wire) as [redacted|] eqn:Hr; [|done].
  erewrite bind_run; [|apply new_layout].
  erewrite bind_run; [|by apply (hello_stream_run completion)].
  erewrite bind_run; [|reflexivity].
  edestruct (store_prompt_json_fresh wire redacted (store w)) as (d' & Hlen & Hreads & Hrun);
    [| |exact Hr|rewrite Hrun]; [reflexivity|lia|].
  eexists. split; [reflexivity|]. simpl. by rewrite <- !app_assoc.
Qed.
End HelloScenario.

(** C3, as the code has it. A streamed call that delivers the content
    deltas "Hel", "lo" and the empty string, the usage [{prompt_tokens: 5,
    completion_tokens: 2, total_tokens: 7}] coming with the last of them
    or in a fragment of its own after them, completes; it yields "Hel",
    "lo" and the empty string, in this order (a delta is skipped only
    when it is null); the stored payload has the content "Hello"; and the
    usage set is [{input_tokens: 5, output_tokens: 2, details: {}}]. *)
Theorem hello_scenario (json_dumps : value -> string) (self : Model) (transport : Transport)
    (completion : list Chunk) (prompt : Prompt) (conversation : option (list PrevResponse))
    (w : world) :
  stream_reply transport = Delivered completion ->
  completion = hello_stream \/ completion = hello_stream_short ->
  truthy_str (p_system prompt) && negb (allows_system_prompt self) = false ->
  exists w',
    Chat_execute json_dumps self transport prompt true conversation w = (Ok tt, w') /\
    yielded w' = yielded w ++ ["Hel"; "lo"; EmptyString] /\
    content_of (response_json (response w')) = Some (VStr "Hello") /\
    usage (response w') = Some hello_normalized.
Proof.
  intros Ht Hc Hguard.
  destruct (hello_scenario_run json_dumps self transport completion prompt conversation w
              Ht Hc Hguard) as (w' & Hrun & Hy & Hj & Hu).
  exists w'. rewrite Hj. done.
Qed.

Lemma hello_scenario_witness :
  exists w',
    Chat_execute dumps_unused gpt_4o (streaming hello_stream) text_prompt true None empty_world
    = (Ok tt, w') /\
    yielded w' = yielded empty_world ++ ["Hel"; "lo"; EmptyString] /\
    content_of (response_json (response w')) = Some (VStr "Hello") /\
    usage (response w') = Some hello_normalized.
Proof.
  apply (hello_scenario dumps_unused gpt_4o (streaming hello_stream) hello_stream text_prompt
           None empty_world); [reflexivity|by left|reflexivity].
Defined.

(** C3 as the spec states it fails: the empty delta is yielded as well. *)
Lemma hello_scenario_yields_the_empty_delta :
  yielded (Chat_execute dumps_unused gpt_4o (streaming hello_stream) text_prompt true None
             empty_world).2
  <> ["Hel"; "lo"].
Proof. vm_compute. discriminate. Qed.

(** ** The synchronous and the asynchronous executor *)

Lemma agree_refl {A} (x : result A * world) : agree x x.
Proof. by repeat split. Qed.

Lemma agree_bind {A B} (m1 m2 : M A) (k : A -> M B) (w : world) :
  agree (m1 w) (m2 w) -> agree ((m1 ≫= k) w) ((m2 ≫= k) w).
Proof.
  intros (Hs & Hy & Hc & Hok & Heq). unfold mbind, M_bind.
  destruct (m1 w) as [[a|e] w1] eqn:H1.
  - rewrite <- (Heq eq_refl). apply agree_refl.
  - destruct (m2 w) as [[a|e'] w2]; [done|]. by repeat split.
Qed.

Lemma agree_after {A B} (m : M A) (k1 k2 : A -> M B) (w : world) :
  (forall a w1, agree (k1 a w1) (k2 a w1)) -> agree ((m ≫= k1) w) ((m ≫= k2) w).
Proof.
  intros H. unfold mbind, M_bind. destruct (m w) as [[a|e] w1]; [apply H|apply agree_refl].
Qed.

Lemma add_tool_calls_run (vs : list ChoiceDeltaToolCall) :
  forall w,
    match mapM make_tool_call vs with
    | Ok tcs => add_tool_calls vs w = (Ok tt, with_tool_calls tcs w)
    | Err e => exists w', add_tool_calls vs w = (Err e, w')
    end.
Proof.
  induction vs as [|v vs IH]; intros w; simpl.
  - unfold with_tool_calls. rewrite app_nil_r. by destruct w as [? [] ? ?].
  - unfold mbind at 1 3, M_bind, lift, result_bind.
    destruct (make_tool_call v) as [tc|e]; [|eauto]. simpl.
    unfold mbind at 1 3, M_bind, result_bind. simpl.
    specialize (IH {| store := store w;
                      response := {| response_json := response_json (response w);
                                     tool_calls := tool_calls (response w) ++ [tc];
                                     usage := usage (response w);
                                     _prompt_json := _prompt_json (response w) |};
                      yielded := yielded w; calls := calls w |}).
    destruct (mapM make_tool_call vs) as [tcs|e]; simpl.
    + unfold mbind, M_bind, add_tool_call, modify_response. rewrite IH.
      unfold with_tool_calls. simpl. by rewrite <- app_assoc.
    + unfold mbind, M_bind, add_tool_call, modify_response. exact IH.
Qed.

Lemma silent_add_tool_calls (vs : list ChoiceDeltaToolCall) : silent (add_tool_calls vs).
Proof.
  induction vs as [|v vs IH]; intros w; [done|]. simpl.
  unfold mbind, M_bind, lift, add_tool_call, modify_response.
  destruct (make_tool_call v) as [tc|e]; [|done]. simpl.
  apply (IH {| store := store w;
               response := {| response_json := response_json (response w);
                              tool_calls := tool_calls (response w) ++ [tc];
                              usage := usage (response w);
                              _prompt_json := _prompt_json (response w) |};
               yielded := yielded w; calls := calls w |}).
Qed.

Section SyncAsync.
Variable json_dumps : value -> string.
Variable self : Model.
Variable transport : Transport.

Lemma AsyncChat_chunk_eq (acc : Accumulator) (chunk : Chunk) (w : world) :
  AsyncChat_chunk acc chunk w = Chat_chunk acc chunk w.
Proof. unfold AsyncChat_chunk, Chat_chunk. by destruct (chunk_usage chunk). Qed.

Lemma AsyncChat_loop_eq (completion : list Chunk) :
  forall acc w, AsyncChat_loop acc completion w = Chat_loop acc completion w.
Proof.
  induction completion as [|chunk rest IH]; intros acc w; [done|]. simpl.
  unfold mbind, M_bind. rewrite AsyncChat_chunk_eq.
  destruct (Chat_chunk acc chunk w) as [[acc'|e] w1]; [apply IH|done].
Qed.

(** after the loop: the payload then the tool calls, or the tool calls
    then the payload *)
Lemma stream_tails_agree (acc : Accumulator) (w : world) :
  agree
    ((combined ← lift (combine_chunks (chunks acc));
      set_response_json (remove_dict_none_values combined);;
      add_tool_calls (values (deltas acc));;
      mret (last_usage acc)) w)
    ((add_tool_calls (values (deltas acc));;
      combined ← lift (combine_chunks (chunks acc));
      set_response_json (remove_dict_none_values combined);;
      mret (last_usage acc)) w).
Proof.
  pose proof (add_tool_calls_run (values (deltas acc))) as Hadd.
  pose proof (silent_add_tool_calls (values (deltas acc))) as Hsil.
  unfold mbind, M_bind, lift, set_response_json, modify_response, mret, M_ret.
  destruct (combine_chunks (chunks acc)) as [combined|e1].
  - set (wj := {| store := store w;
                  response := {| response_json := Some (remove_dict_none_values combined);
                                 tool_calls := tool_calls (response w);
                                 usage := usage (response w);
                                 _prompt_json := _prompt_json (response w) |};
                  yielded := yielded w; calls := calls w |}).
    pose proof (Hadd wj) as Hj. pose proof (Hadd w) as Hw.
    destruct (mapM make_tool_call (values (deltas acc))) as [tcs|e2].
    + rewrite Hj, Hw. simpl. by repeat split.
    + destruct Hj as (wj' & Hj). destruct Hw as (w' & Hw).
      destruct (Hsil wj) as (? & ? & ?), (Hsil w) as (? & ? & ?).
      rewrite Hj, Hw in *. simpl in *. repeat split; simpl; congruence.
  - destruct (Hsil w) as (? & ? & ?).
    destruct (add_tool_calls (values (deltas acc)) w) as [[[]|e2] w']; simpl in *;
      repeat split; simpl; congruence.
Qed.

Lemma streams_agree messages wire kwargs (w : world) :
  agree (Chat_stream self transport messages wire kwargs w)
        (AsyncChat_stream self transport messages wire kwargs w).
Proof.
  unfold Chat_stream, AsyncChat_stream. apply agree_after. intros completion w1.
  unfold mbind at 1 5, M_bind. rewrite AsyncChat_loop_eq.
  destruct (Chat_loop start completion w1) as [[acc|e] w2]; [|apply agree_refl].
  apply stream_tails_agree.
Qed.

Lemma singles_agree messages wire kwargs (w : world) :
  agree (Chat_single self transport messages wire kwargs w)
        (AsyncChat_single self transport messages wire kwargs w).
Proof.
  unfold Chat_single, AsyncChat_single. apply agree_after. intros completion w1.
  unfold mbind at 1 6, M_bind, lift, set_response_json, modify_response.
  destruct (completion_usage completion) as [u|]; simpl.
  - apply agree_refl.
  - by repeat split.
Qed.

Lemma executors_agree (prompt : Prompt) (stream : bool)
    (conversation : option (list PrevResponse)) (w : world) :
  agree (Chat_execute json_dumps self transport prompt stream conversation w)
        (AsyncChat_execute json_dumps self transport prompt stream conversation w).
Proof.
  unfold Chat_execute, AsyncChat_execute.
  destruct (truthy_str (p_system prompt) && negb (allows_system_prompt self));
    [apply agree_refl|].
  apply agree_after. intros messages w1. apply agree_bind.
  destruct stream; [apply streams_agree|apply singles_agree].
Qed.
End SyncAsync.

(** C9, as the code has it. On every prompt, history and reply of the
    endpoint, [Chat.execute] and [AsyncChat.execute] yield the same text
    in the same order, make the same call and leave the same store; one
    completes exactly when the other does; and when they complete they
    leave the same response: the same payload, the same tool calls, the
    same usage and the same redacted request.  (Of a call that raises,
    nothing is said about the response.) *)
Theorem sync_and_async_agree (json_dumps : value -> string) (self : Model)
    (transport : Transport) (prompt : Prompt) (stream : bool)
    (conversation : option (list PrevResponse)) (w : world) :
  yielded (Chat_execute json_dumps self transport prompt stream conversation w).2
  = yielded (AsyncChat_execute json_dumps self transport prompt stream conversation w).2 /\
  calls (Chat_execute json_dumps self transport prompt stream conversation w).2
  = calls (AsyncChat_execute json_dumps self transport prompt stream conversation w).2 /\
  store (Chat_execute json_dumps self transport prompt stream conversation w).2
  = store (AsyncChat_execute json_dumps self transport prompt stream conversation w).2 /\
  is_ok (Chat_execute json_dumps self transport prompt stream conversation w).1
  = is_ok (AsyncChat_execute json_dumps self transport prompt stream conversation w).1 /\
  (is_ok (Chat_execute json_dumps self transport prompt stream conversation w).1 = true ->
   response (Chat_execute json_dumps self transport prompt stream conversation w).2
   = response (AsyncChat_execute json_dumps self transport prompt stream conversation w).2).
Proof.
  destruct (executors_agree json_dumps self transport prompt stream conversation w)
    as (Hs & Hy & Hc & Hok & Heq).
  repeat split; try done. intros H. by rewrite (Heq H).
Qed.

Lemma sync_and_async_agree_witness :
  response (Chat_execute dumps_unused gpt_4o (streaming hello_stream) image_prompt true None
              empty_world).2
  = response (AsyncChat_execute dumps_unused gpt_4o (streaming hello_stream) image_prompt true
                None empty_world).2.
Proof.
  apply (sync_and_async_agree dumps_unused gpt_4o (streaming hello_stream) image_prompt true
           None empty_world).
  vm_compute. reflexivity.
Defined.

(** C9 as stated, for every streamed chunk sequence, fails: when the
    arguments of a tool call are not JSON both executors raise, the
    synchronous one with the payload already stored in the response, the
    asynchronous one before storing it. *)
Lemma sync_and_async_differ_when_raising :
  (Chat_execute dumps_unused gpt_4o (streaming broken_arguments_stream) text_prompt true None
     empty_world).1 = Err JSONDecodeError /\
  (AsyncChat_execute dumps_unused gpt_4o (streaming broken_arguments_stream) text_prompt true
     None empty_world).1 = Err JSONDecodeError /\
  response_json
    (response (Chat_execute dumps_unused gpt_4o (streaming broken_arguments_stream)
                 text_prompt true None empty_world).2)
  = Some (VDict [("content", VStr EmptyString); ("usage", VDict []);
                 ("id", VStr "chatcmpl-1")]) /\
  response_json
    (response (AsyncChat_execute dumps_unused gpt_4o (streaming broken_arguments_stream)
                 text_prompt true None empty_world).2)
  = None.
Proof. repeat split; vm_compute; reflexivity. Qed.

(** ** Where the unsupported-feature error comes from *)

Lemma mild_ret {A} (a : A) : mild (mret a).
Proof. by intros w. Qed.

Lemma mild_bind {A B} (m : M A) (k : A -> M B) :
  mild m -> (forall a, mild (k a)) -> mild (m ≫= k).
Proof.
  intros Hm Hk w. unfold mbind, M_bind. specialize (Hm w).
  destruct (m w) as [[a|e] w1]; [apply Hk|done].
Qed.

Lemma mild_lift {A} (r : result A) : raises_unsupported r = false -> mild (lift r).
Proof. by intros H w. Qed.

Lemma mild_yield_content (content : option string) : mild (yield_content content).
Proof. by destruct content. Qed.

Lemma mild_modify_response (f : Response -> Response) : mild (modify_response f).
Proof. by intros w. Qed.

Lemma mild_record_call (c : Call) : mild (record_call c).
Proof. by intros w. Qed.

Lemma mild_new (t : value) : mild (new t).
Proof. intros w. unfold new. by destruct (alloc t (store w)). Qed.

Lemma bind_supported {A B} (r : result A) (k : A -> result B) :
  raises_unsupported r = false -> (forall a, raises_unsupported (k a) = false) ->
  raises_unsupported (r ≫= k) = false.
Proof. intros Hr Hk. destruct r; [apply Hk|done]. Qed.

Lemma receive_supported {A} (r : reply A) : raises_unsupported (receive r) = false.
Proof. by destruct r. Qed.

Lemma get_arguments_supported objects l :
  raises_unsupported (get_arguments objects l) = false.
Proof. unfold get_arguments. by repeat case_match. Qed.

Lemma tool_call_step_supported ds l : raises_unsupported (tool_call_step ds l) = false.
Proof.
  unfold tool_call_step.
  repeat first [ apply bind_supported; [try apply get_arguments_supported|intros ?]
               | progress case_match; try done ].
Qed.

Lemma tool_calls_loop_supported deltas :
  forall ds, raises_unsupported (tool_calls_loop ds deltas) = false.
Proof.
  induction deltas as [|d deltas IH]; intros ds; [done|]. simpl.
  apply bind_supported; [apply tool_call_step_supported|done].
Qed.

Lemma first_delta_supported chunk : raises_unsupported (first_delta chunk) = false.
Proof. unfold first_delta. by repeat case_match. Qed.

Lemma chunk_tool_calls_supported ds chunk :
  raises_unsupported (chunk_tool_calls ds chunk) = false.
Proof.
  unfold chunk_tool_calls. apply bind_supported; [apply first_delta_supported|].
  intros [[d|]|]; try done. apply tool_calls_loop_supported.
Qed.

Lemma chunk_content_supported chunk : raises_unsupported (chunk_content chunk) = false.
Proof.
  unfold chunk_content. apply bind_supported; [apply first_delta_supported|].
  by intros [[d|]|].
Qed.

Lemma combine_choices_supported choices :
  forall c, raises_unsupported (combine_choices c choices) = false.
Proof.
  induction choices as [|choice rest IH]; intros c; [done|]. simpl.
  apply bind_supported; [|done]. unfold combine_choice. by repeat case_match.
Qed.

Lemma combine_items_supported chunks :
  forall c, raises_unsupported (combine_items c chunks) = false.
Proof.
  induction chunks as [|item rest IH]; intros c; [done|]. simpl.
  apply bind_supported; [|done]. apply combine_choices_supported.
Qed.

Lemma combine_chunks_supported chunks : raises_unsupported (combine_chunks chunks) = false.
Proof.
  unfold combine_chunks. apply bind_supported; [apply combine_items_supported|done].
Qed.

Lemma loads_raises (s : string) (e : exn) : Json.loads s = Err e -> e = JSONDecodeError.
Proof. unfold Json.loads. repeat case_match; congruence. Qed.

Lemma make_tool_call_supported value : raises_unsupported (make_tool_call value) = false.
Proof.
  unfold make_tool_call. destruct (tcd_function value); [|done].
  apply bind_supported; [|done].
  destruct (Json.loads _) eqn:E; [done|]. by rewrite (loads_raises _ _ E).
Qed.

Lemma mild_add_tool_calls vs : mild (add_tool_calls vs).
Proof.
  induction vs as [|v vs IH]; [apply mild_ret|]. simpl.
  apply mild_bind; [apply mild_lift, make_tool_call_supported|]. intros tc.
  apply mild_bind; [apply mild_modify_response|done].
Qed.

Lemma dict_pop_supported {V} k (d : list (string * V)) :
  raises_unsupported (dict_pop k d) = false.
Proof. unfold dict_pop. by destruct (dict_get k d). Qed.

Lemma mild_do_set_usage usage : mild (do_set_usage usage).
Proof.
  intros w. unfold do_set_usage.
  assert (raises_unsupported (set_usage (response w) usage) = false) as H.
  { unfold set_usage. destruct usage as [[|kv u]|]; try done.
    apply bind_supported; [apply dict_pop_supported|]. intros [? ?].
    apply bind_supported; [apply dict_pop_supported|]. intros [? ?].
    apply bind_supported; [apply dict_pop_supported|]. by intros [? ?]. }
  by destruct (set_usage (response w) usage).
Qed.

Lemma redact_step_supported (rec : val -> heap -> result heap) key v h :
  (forall v h, raises_unsupported (rec v h) = false) ->
  raises_unsupported (redact_step rec key v h) = false.
Proof. intros Hrec. unfold redact_step. by repeat case_match. Qed.

Lemma dict_loop_supported (rec : val -> heap -> result heap) l todo :
  (forall v h, raises_unsupported (rec v h) = false) ->
  forall i h, raises_unsupported (dict_loop rec l i todo h) = false.
Proof.
  intros Hrec. induction todo as [|todo IH]; intros i h; [done|]. simpl.
  repeat case_match; try done. apply bind_supported; [|done].
  by apply redact_step_supported.
Qed.

Lemma list_loop_supported (rec : val -> heap -> result heap) items :
  (forall v h, raises_unsupported (rec v h) = false) ->
  forall h, raises_unsupported (list_loop rec items h) = false.
Proof.
  intros Hrec. induction items as [|item items IH]; intros h; [done|]. simpl.
  by apply bind_supported.
Qed.

Lemma redact_data_supported n : forall v h, raises_unsupported (redact_data n v h) = false.
Proof.
  induction n as [|n IH]; intros v h; [done|]. simpl.
  repeat case_match; try done.
  - by apply list_loop_supported.
  - by apply dict_loop_supported.
Qed.

Lemma mild_store_prompt_json messages : mild (store_prompt_json messages).
Proof.
  unfold store_prompt_json. apply mild_bind; [by intros w|]. intros request.
  apply mild_bind; [|intros; apply mild_modify_response].
  intros w. pose proof (redact_data_supported recursion_limit request (store w)) as H.
  by destruct (redact_data recursion_limit request (store w)).
Qed.

Create HintDb mild.
#[local] Hint Resolve mild_ret mild_lift mild_yield_content mild_modify_response
  mild_record_call mild_new mild_add_tool_calls mild_do_set_usage mild_store_prompt_json
  receive_supported chunk_tool_calls_supported chunk_content_supported
  combine_chunks_supported : mild.

Ltac mild := repeat first [ progress eauto with mild | apply mild_bind | intros ? ].

Section Unsupported.
Variable json_dumps : value -> string.
Variable self : Model.
Variable transport : Transport.

Lemma mild_Chat_loop completion : forall acc, mild (Chat_loop acc completion).
Proof.
  induction completion as [|chunk rest IH]; intros acc; simpl; [apply mild_ret|].
  apply mild_bind; [|done]. unfold Chat_chunk. mild.
Qed.

Lemma mild_Chat_stream messages wire kwargs :
  mild (Chat_stream self transport messages wire kwargs).
Proof.
  unfold Chat_stream, chat_create, set_response_json.
  apply mild_bind; [mild|]. intros completion.
  apply mild_bind; [apply mild_Chat_loop|]. mild.
Qed.

Lemma mild_Chat_single messages wire kwargs :
  mild (Chat_single self transport messages wire kwargs).
Proof.
  unfold Chat_single, chat_create, set_response_json.
  mild; apply mild_lift; by repeat case_match.
Qed.

(** [Chat.execute] raises the unsupported-feature error at its guard
    and nowhere else *)
Lemma Chat_execute_unsupported prompt stream conversation w :
  raises_unsupported (Chat_execute json_dumps self transport prompt stream conversation w).1
  = truthy_str (p_system prompt) && negb (allows_system_prompt self).
Proof.
  unfold Chat_execute.
  destruct (truthy_str (p_system prompt) && negb (allows_system_prompt self)); [done|].
  revert w. change (mild
    (messages ← new (VList (build_messages json_dumps prompt conversation));
     usage ← (if stream
              then Chat_stream self transport messages
                     (VList (build_messages json_dumps prompt conversation))
                     (build_kwargs self prompt stream)
              else Chat_single self transport messages
                     (VList (build_messages json_dumps prompt conversation))
                     (build_kwargs self prompt stream));
     do_set_usage usage;; store_prompt_json messages)).
  apply mild_bind; [mild|]. intros messages.
  apply mild_bind; [destruct stream; [apply mild_Chat_stream|apply mild_Chat_single]|].
  mild.
Qed.
End Unsupported.

(** C7. [Chat.execute] raises the unsupported-feature error exactly when
    the prompt's system text is set and the model does not allow a system
    prompt, and then before anything else: no message is built into the
    store, the endpoint is not called, nothing is yielded and the response
    is untouched.  [Completion.execute] raises it as soon as a system text
    is set, whatever the model allows, and as early. *)
Theorem system_prompt_guard (json_dumps : value -> string) (self : Model)
    (transport : Transport) (prompt : Prompt) (stream : bool)
    (conversation : option (list PrevResponse)) (w : world) :
  (raises_unsupported
     (Chat_execute json_dumps self transport prompt stream conversation w).1 = true
   <-> truthy_str (p_system prompt) = true /\ allows_system_prompt self = false) /\
  (truthy_str (p_system prompt) = true -> allows_system_prompt self = false ->
   Chat_execute json_dumps self transport prompt stream conversation w
   = (Err (NotImplementedError "Model does not support system prompts"), w)) /\
  (truthy_str (p_system prompt) = true ->
   Completion_execute self transport prompt stream conversation w
   = (Err (NotImplementedError
             "System prompts are not supported for OpenAI completion models"), w)).
Proof.
  split; [|split].
  - rewrite Chat_execute_unsupported.
    destruct (truthy_str (p_system prompt)), (allows_system_prompt self); simpl;
      intuition congruence.
  - intros Hs Ha. unfold Chat_execute. by rewrite Hs, Ha.
  - intros Hs. unfold Completion_execute. by rewrite Hs.
Qed.

Lemma system_prompt_guard_witness :
  Chat_execute dumps_unused o1_mini (streaming hello_stream) (system_prompt "Be brief") true
    None empty_world
  = (Err (NotImplementedError "Model does not support system prompts"), empty_world) /\
  Completion_execute gpt_4o (streaming hello_stream) (system_prompt "Be brief") true None
    empty_world
  = (Err (NotImplementedError
            "System prompts are not supported for OpenAI completion models"), empty_world).
Proof.
  split.
  - apply (system_prompt_guard dumps_unused o1_mini (streaming hello_stream)
             (system_prompt "Be brief") true None empty_world); reflexivity.
  - apply (system_prompt_guard dumps_unused gpt_4o (streaming hello_stream)
             (system_prompt "Be brief") true None empty_world); reflexivity.
Defined.

(** ** The arguments of a finalized tool call *)





(** ** The aggregator of tool-call deltas *)

Lemma append_nil_r (s : string) : s +:+ EmptyString = s.
Proof. induction s as [|a s IH]; [done|]. exact (f_equal (String a) IH). Qed.

Lemma append_assoc (s1 s2 s3 : string) : (s1 +:+ s2) +:+ s3 = s1 +:+ s2 +:+ s3.
Proof. induction s1 as [|a s1 IH]; [done|]. exact (f_equal (String a) IH). Qed.

Lemma delivered_app index seen d :
  delivered index (seen ++ [d]) = delivered index seen || (tcd_index d =? index).
Proof. unfold delivered. rewrite existsb_app. simpl. by rewrite orb_false_r. Qed.

Lemma fragments_app index seen d :
  fragments index (seen ++ [d])
  = fragments index seen
    +:+ (if tcd_index d =? index then arguments_delta d else EmptyString).
Proof.
  induction seen as [|x seen IH]; simpl.
  - destruct (tcd_index d =? index); [by rewrite append_nil_r|done].
  - destruct (tcd_index x =? index); [by rewrite IH, append_assoc|done].
Qed.

Lemma fragments_none index seen :
  delivered index seen = false -> fragments index seen = EmptyString.
Proof.
  induction seen as [|x seen IH]; simpl; [done|].
  destruct (tcd_index x =? index); [done|]. exact IH.
Qed.

Lemma first_fragment_app index seen d :
  first_fragment index (seen ++ [d])
  = if delivered index seen then first_fragment index seen
    else if tcd_index d =? index then arguments_delta d else EmptyString.
Proof.
  induction seen as [|x seen IH]; simpl; [done|].
  destruct (tcd_index x =? index); [done|]. exact IH.
Qed.

Lemma index_get_app index (d : list (Z * loc)) i l :
  index_get index (d ++ [(i, l)])
  = match index_get index d with
    | Some l' => Some l'
    | None => if i =? index then Some l else None
    end.
Proof.
  induction d as [|[i' l'] d IH]; simpl; [done|].
  destruct (i' =? index); [done|]. exact IH.
Qed.

Local Open Scope nat_scope.

(** the delta once its absent arguments are made the empty string *)
Lemma normalised_delta (objs : list ChoiceDeltaToolCall) (d : ChoiceDeltaToolCall)
    (f : ChoiceDeltaToolCallFunction) :
  tcd_function d = Some f ->
  match fn_arguments f with
  | None => alter (set_arguments EmptyString) (length objs) (objs ++ [d])
  | Some _ => objs ++ [d]
  end = objs ++ [set_arguments (arguments_delta d) d].
Proof.
  intros Hf. unfold arguments_delta. rewrite Hf.
  destruct d as [i id fn]. simpl in Hf. subst fn. destruct f as [[a|] name]; simpl.
  - done.
  - rewrite alter_app_r_alt by lia.
    by replace (length objs - length objs) with 0 by lia.
Qed.

Lemma get_arguments_last (objs : list ChoiceDeltaToolCall) (d : ChoiceDeltaToolCall)
    (f : ChoiceDeltaToolCallFunction) :
  tcd_function d = Some f ->
  get_arguments (objs ++ [d]) (length objs) = Ok (fn_arguments f).
Proof. intros Hf. unfold get_arguments. by rewrite list_lookup_middle, Hf. Qed.

Lemma get_arguments_before (objs : list ChoiceDeltaToolCall) (d o : ChoiceDeltaToolCall)
    (f : ChoiceDeltaToolCallFunction) (t : nat) :
  objs !! t = Some o -> tcd_function o = Some f ->
  get_arguments (objs ++ [d]) t = Ok (fn_arguments f).
Proof.
  intros Ho Hf. unfold get_arguments.
  by rewrite lookup_app_l, Ho, Hf by (by eapply lookup_lt_Some).
Qed.

Lemma set_arguments_function (a : string) (d : ChoiceDeltaToolCall)
    (f : ChoiceDeltaToolCallFunction) :
  tcd_function d = Some f ->
  tcd_function (set_arguments a d) = Some {| fn_arguments := Some a; fn_name := fn_name f |}.
Proof. intros Hf. unfold set_arguments. simpl. by rewrite Hf. Qed.

(** the step on a delta whose index is new: the delta becomes the entry,
    and its own fragment is appended to itself *)
Lemma tool_call_step_new (objs : list ChoiceDeltaToolCall) (dict : list (Z * loc))
    (d : ChoiceDeltaToolCall) (f : ChoiceDeltaToolCallFunction) :
  tcd_function d = Some f ->
  index_get (tcd_index d) dict = None ->
  tool_call_step {| objects := objs ++ [d]; tool_calls_by_index := dict |} (length objs)
  = Ok {| objects :=
            objs ++ [set_arguments (arguments_delta d +:+ arguments_delta d) d];
          tool_calls_by_index := dict ++ [(tcd_index d, length objs)] |}.
Proof.
  intros Hf Hnew. unfold tool_call_step. cbn [objects tool_calls_by_index].
  rewrite (get_arguments_last _ _ _ Hf). cbn [mbind result_bind].
  rewrite (normalised_delta _ _ _ Hf). rewrite list_lookup_middle by done.
  cbn [mbind result_bind]. change (tcd_index (set_arguments _ d)) with (tcd_index d).
  rewrite Hnew, index_get_app, Hnew, Z.eqb_refl. cbn [mbind result_bind].
  rewrite (get_arguments_last _ _ _ (set_arguments_function _ _ _ Hf)).
  cbn [mbind result_bind fn_arguments]. f_equal. f_equal.
  rewrite alter_app_r_alt by lia. replace (length objs - length objs) with 0 by lia.
  simpl. f_equal. f_equal. unfold set_arguments. simpl. by rewrite Hf.
Qed.

(** the step on a delta whose index has its entry: the fragment is
    appended to the buffer of the entry *)
Lemma tool_call_step_old (objs : list ChoiceDeltaToolCall) (dict : list (Z * loc))
    (d o : ChoiceDeltaToolCall) (f fo : ChoiceDeltaToolCallFunction) (t : nat) (b : string) :
  tcd_function d = Some f ->
  index_get (tcd_index d) dict = Some t ->
  objs !! t = Some o -> tcd_function o = Some fo -> fn_arguments fo = Some b ->
  tool_call_step {| objects := objs ++ [d]; tool_calls_by_index := dict |} (length objs)
  = Ok {| objects :=
            alter (set_arguments (b +:+ arguments_delta d)) t objs
            ++ [set_arguments (arguments_delta d) d];
          tool_calls_by_index := dict |}.
Proof.
  intros Hf Hold Ho Hfo Hb. unfold tool_call_step. cbn [objects tool_calls_by_index].
  rewrite (get_arguments_last _ _ _ Hf). cbn [mbind result_bind].
  rewrite (normalised_delta _ _ _ Hf). rewrite list_lookup_middle by done.
  cbn [mbind result_bind]. change (tcd_index (set_arguments _ d)) with (tcd_index d).
  rewrite !Hold. cbn [mbind result_bind].
  rewrite (get_arguments_before _ _ _ _ _ Ho Hfo), Hb. cbn [mbind result_bind].
  rewrite (get_arguments_last _ _ _ (set_arguments_function _ _ _ Hf)).
  cbn [mbind result_bind fn_arguments]. f_equal. f_equal.
  by rewrite alter_app_l by (by eapply lookup_lt_Some).
Qed.

Lemma delivered_entry (seen : list ChoiceDeltaToolCall) (ds : Deltas) (index : Z) :
  folded seen ds ->
  delivered index seen
  = match index_get index (tool_calls_by_index ds) with Some _ => true | None => false end.
Proof.
  intros [_ H]. specialize (H index). destruct (delivered index seen).
  - by destruct H as (l & o & f & -> & _).
  - by rewrite H.
Qed.

Lemma folded_step (seen : list ChoiceDeltaToolCall) (ds : Deltas)
    (d : ChoiceDeltaToolCall) (f : ChoiceDeltaToolCallFunction) :
  folded seen ds -> tcd_function d = Some f ->
  exists ds',
    tool_call_step {| objects := objects ds ++ [d];
                      tool_calls_by_index := tool_calls_by_index ds |}
                   (length (objects ds)) = Ok ds' /\
    folded (seen ++ [d]) ds'.
Proof.
  intros Hfolded Hf. pose proof Hfolded as [Hlen Hall].
  pose proof (delivered_entry seen ds (tcd_index d) Hfolded) as Hdel.
  destruct (index_get (tcd_index d) (tool_calls_by_index ds)) as [t|] eqn:Hget.
  - (* the index has its entry *)
    pose proof (Hall (tcd_index d)) as Hd. rewrite Hdel in Hd. simpl in Hd.
    destruct Hd as (t' & o & fo & Ht' & Ho & Hio & Hfo & Hb). rewrite Hget in Ht'.
    injection Ht' as <-.
    eexists. split; [by eapply tool_call_step_old|].
    split; [cbn [objects]; by rewrite !length_app, length_alter, Hlen|].
    intros q. cbn [objects tool_calls_by_index]. specialize (Hall q).
    rewrite delivered_app, first_fragment_app, fragments_app.
    destruct (Z.eqb_spec (tcd_index d) q) as [<-|Hne].
    + rewrite Hdel. simpl. exists t, (set_arguments
        ((first_fragment (tcd_index d) seen +:+ fragments (tcd_index d) seen)
         +:+ arguments_delta d) o), {|
        fn_arguments := Some ((first_fragment (tcd_index d) seen
                               +:+ fragments (tcd_index d) seen) +:+ arguments_delta d);
        fn_name := fn_name fo |}.
      split; [done|]. split.
      { rewrite lookup_app_l by (rewrite length_alter; by eapply lookup_lt_Some).
        by rewrite list_lookup_alter_eq, Ho. }
      split; [done|]. split; [by apply set_arguments_function|].
      simpl. by rewrite append_assoc.
    + rewrite orb_false_r, append_nil_r. destruct (delivered q seen); [|done].
      destruct Hall as (lq & oq & fq & Hlq & Hoq & Hiq & Hfq & Hbq).
      exists lq, oq, fq. split; [done|]. split; [|done].
      rewrite lookup_app_l by (rewrite length_alter; by eapply lookup_lt_Some).
      rewrite list_lookup_alter_ne; [done|]. intros ->. congruence.
  - (* the index is new *)
    eexists. split; [by eapply tool_call_step_new|].
    split; [cbn [objects]; by rewrite !length_app, Hlen|].
    intros q. cbn [objects tool_calls_by_index]. specialize (Hall q).
    rewrite delivered_app, first_fragment_app, fragments_app, index_get_app.
    destruct (Z.eqb_spec (tcd_index d) q) as [<-|Hne].
    + rewrite Hdel, Hget. simpl. rewrite (fragments_none _ _ Hdel). simpl.
      eexists _, _, _. split; [done|]. split; [by rewrite list_lookup_middle|].
      split; [done|]. split; [by apply set_arguments_function|done].
    + rewrite orb_false_r, append_nil_r. destruct (delivered q seen); [|by rewrite Hall].
      destruct Hall as (lq & oq & fq & Hlq & Hoq & Hiq & Hfq & Hbq).
      exists lq, oq, fq. rewrite Hlq. split; [done|]. split; [|done].
      by rewrite lookup_app_l by (by eapply lookup_lt_Some).
Qed.

Lemma tool_calls_loop_folded (deltas : list ChoiceDeltaToolCall) :
  forall seen ds,
    folded seen ds ->
    Forall (fun d => is_Some (tcd_function d)) deltas ->
    exists ds', tool_calls_loop ds deltas = Ok ds' /\ folded (seen ++ deltas) ds'.
Proof.
  induction deltas as [|d deltas IH]; intros seen ds Hfolded Hfn.
  - exists ds. by rewrite app_nil_r.
  - inversion Hfn as [|?? [f Hf] Hrest]; subst.
    destruct (folded_step seen ds d f Hfolded Hf) as (ds1 & Hstep & Hfolded1).
    destruct (IH (seen ++ [d]) ds1 Hfolded1 Hrest) as (ds' & Hloop & Hfolded').
    exists ds'. simpl. rewrite Hstep. simpl. split; [done|].
    by rewrite <- app_assoc in Hfolded'.
Qed.

(** What the aggregator holds for an index once a sequence of deltas is
    folded: the first fragment delivered for the index, then all the
    fragments delivered for it, the first one included. *)
Lemma aggregated_arguments (deltas : list ChoiceDeltaToolCall) (index : Z) :
  Forall (fun d => is_Some (tcd_function d)) deltas ->
  delivered index deltas = true ->
  exists ds,
    tool_calls_loop {| objects := []; tool_calls_by_index := [] |} deltas = Ok ds /\
    buffer ds index = Some (first_fragment index deltas +:+ fragments index deltas).
Proof.
  intros Hfn Hdel.
  destruct (tool_calls_loop_folded deltas [] {| objects := []; tool_calls_by_index := [] |})
    as (ds & Hloop & [_ Hall]); [by split| done |].
  exists ds. split; [done|]. specialize (Hall index). simpl in Hall. rewrite Hdel in Hall.
  destruct Hall as (l & o & f & Hl & Ho & _ & Hf & Hb).
  unfold buffer. rewrite Hl. simpl. rewrite Ho. simpl. rewrite Hf. simpl. done.
Qed.

Local Close Scope nat_scope.

(** when the first delta of every index brings no text, the buffer is the
    plain concatenation of the fragments *)
Lemma aggregated_arguments_empty_first (deltas : list ChoiceDeltaToolCall) (index : Z) :
  Forall (fun d => is_Some (tcd_function d)) deltas ->
  delivered index deltas = true ->
  first_fragment index deltas = EmptyString ->
  exists ds,
    tool_calls_loop {| objects := []; tool_calls_by_index := [] |} deltas = Ok ds /\
    buffer ds index = Some (fragments index deltas).
Proof.
  intros Hfn Hdel Hfirst.
  destruct (aggregated_arguments deltas index Hfn Hdel) as (ds & Hloop & Hbuf).
  exists ds. split; [done|]. by rewrite Hbuf, Hfirst.
Qed.

(** C1 on the code. One delta for index 0 that brings the whole
    arguments text: the fragments delivered for the index join to that
    text, but the aggregator, which makes the delta the entry of its index
    and then appends the delta's fragment to the entry, holds the text
    twice over; the doubled text is not JSON, and the call raises. *)
Theorem first_fragment_is_folded_twice :
  fragments 0 [tool_delta 0 (Some city_arguments)] = city_arguments /\
  (exists ds,
     tool_calls_loop {| objects := []; tool_calls_by_index := [] |}
       [tool_delta 0 (Some city_arguments)] = Ok ds /\
     buffer ds 0 = Some (city_arguments +:+ city_arguments)) /\
  Json.loads city_arguments = Ok (VDict [("city", VStr "Boston")]) /\
  (Chat_execute dumps_unused gpt_4o (streaming city_stream) text_prompt true None
     empty_world).1 = Err JSONDecodeError.
Proof.
  split; [reflexivity|]. split; [|split; vm_compute; reflexivity].
  eexists. split; vm_compute; reflexivity.
Qed.

(** ** The theorems at sample inputs *)

Lemma build_messages_system_dedup_witness :
  build_messages dumps_unused (system_prompt "B") (Some [bare_turn "A"; bare_turn "B"]) !! 0%nat
  = Some (system_message "A") /\
  build_messages dumps_unused (system_prompt "B") (Some [bare_turn "A"; bare_turn "B"]) !! 1%nat
  = Some (system_message "B") /\
  "A" <> "B".
Proof.
  split; [reflexivity|]. split; [reflexivity|].
  apply (proj2 (proj2 (build_messages_system_dedup dumps_unused (system_prompt "B")
                         (Some [bare_turn "A"; bare_turn "B"])))
           0%nat (system_message "A") (system_message "B")); reflexivity.
Defined.

Lemma build_kwargs_contract_witness :
  dict_get "temperature" (build_kwargs gpt_4o schema_prompt true) = Some (VFloat "0.5") /\
  dict_get "response_format" (build_kwargs gpt_4o schema_prompt true)
  = Some (VDict [("type", VStr "json_schema");
                 ("json_schema", VDict [("name", VStr "output"); ("schema", object_schema)])]).
Proof.
  split.
  - apply (proj1 (build_kwargs_contract gpt_4o schema_prompt true)).
    + apply list_elem_of_In. simpl. tauto.
    + discriminate.
    + discriminate.
  - apply (proj1 (proj2 (proj2 (proj2 (build_kwargs_contract gpt_4o schema_prompt true)))));
      reflexivity.
Defined.

Lemma set_usage_requires_three_counters_witness :
  set_usage empty_response (Some hello_usage)
  = Ok {| response_json := None; tool_calls := [];
          usage := Some {| input_tokens := VInt 5; output_tokens := VInt 2;
                           details := simplify_usage_dict [] |};
          _prompt_json := None |} /\
  exists k',
    k' ∈ ["prompt_tokens"; "completion_tokens"; "total_tokens"] /\
    dict_mem k' [("prompt_tokens", VInt 5)] = false /\
    set_usage empty_response (Some [("prompt_tokens", VInt 5)]) = Err (KeyError k').
Proof.
  split.
  - apply (proj1 (proj2 (proj2 (set_usage_requires_three_counters empty_response
                                  hello_usage)) ltac:(discriminate)) (VInt 5) (VInt 2)
             (VInt 7)); reflexivity.
  - apply (proj2 (proj2 (proj2 (set_usage_requires_three_counters empty_response
                                  [("prompt_tokens", VInt 5)])) ltac:(discriminate))
             "total_tokens").
    + apply list_elem_of_In. simpl. tauto.
    + reflexivity.
Defined.

(** ** What [combine_chunks] gathers *)

Lemma joined_app (l1 l2 : list string) : joined (l1 ++ l2) = joined l1 +:+ joined l2.
Proof.
  induction l1 as [|s l1 IH]; simpl; [done|].
  by rewrite IH, append_assoc.
Qed.

Lemma combine_choices_run (choices : list Choice) : forall c,
  match first_unreadable choices with
  | Some e => combine_choices c choices = Err e
  | None =>
      combine_choices c choices
      = Ok {| cc_content := cc_content c +:+ joined (map choice_piece choices);
              cc_role := default (cc_role c) (last (omap choice_role choices));
              cc_finish_reason :=
                match last (omap choice_finish choices) with
                | Some f => Some f
                | None => cc_finish_reason c
                end;
              cc_logprobs := cc_logprobs c ++ flat_map choice_logprobs_entry choices;
              cc_usage := cc_usage c |}
  end.
Proof.
  induction choices as [|choice rest IH]; intros c.
  - simpl. rewrite append_nil_r, app_nil_r. by destruct c.
  - destruct choice as [[delta|] fr lp|[text|] fr lp]; simpl; try done.
    + specialize (IH {| cc_content := match delta_content delta with
                                      | Some content => cc_content c +:+ content
                                      | None => cc_content c end;
                        cc_role := delta_role delta;
                        cc_finish_reason := match fr with Some _ => fr | None => cc_finish_reason c end;
                        cc_logprobs := cc_logprobs c ++ logprobs_entry None lp;
                        cc_usage := cc_usage c |}).
      destruct (first_unreadable rest); [done|]. rewrite IH. clear IH.
      cbn [cc_content cc_role cc_finish_reason cc_logprobs cc_usage omap list_omap choice_role
           choice_finish choice_logprobs_entry flat_map]. unfold omap. do 2 f_equal.
      * destruct (delta_content delta); simpl; by rewrite ?append_assoc.
      * rewrite last_cons. by destruct (last _).
      * destruct fr; rewrite ?last_cons; by destruct (last _).
      * by rewrite app_assoc.
    + specialize (IH {| cc_content := cc_content c +:+ text; cc_role := cc_role c;
                        cc_finish_reason := cc_finish_reason c;
                        cc_logprobs := cc_logprobs c ++ logprobs_entry (Some text) lp;
                        cc_usage := cc_usage c |}).
      destruct (first_unreadable rest); [done|]. rewrite IH. clear IH.
      cbn [cc_content cc_role cc_finish_reason cc_logprobs cc_usage omap list_omap choice_role
           choice_finish choice_logprobs_entry flat_map]. unfold omap. do 2 f_equal.
      * by rewrite append_assoc.
      * by rewrite app_assoc.
Qed.

Lemma first_unreadable_app (l1 l2 : list Choice) :
  first_unreadable (l1 ++ l2)
  = match first_unreadable l1 with
    | Some e => Some e
    | None => first_unreadable l2
    end.
Proof.
  induction l1 as [|[[?|] ? ?|[?|] ? ?] l1 IH]; simpl; done.
Qed.

Lemma first_unreadable_readable (choices : list Choice) :
  forallb readable choices
  = match first_unreadable choices with Some _ => false | None => true end.
Proof.
  induction choices as [|[[?|] ? ?|[?|] ? ?] l1 IH]; simpl; done.
Qed.

Lemma combine_items_run (chunks : list Chunk) : forall c,
  match first_unreadable (all_choices chunks) with
  | Some e => combine_items c chunks = Err e
  | None =>
      combine_items c chunks
      = Ok {| cc_content := cc_content c +:+ joined (map choice_piece (all_choices chunks));
              cc_role := default (cc_role c) (last (omap choice_role (all_choices chunks)));
              cc_finish_reason :=
                match last (omap choice_finish (all_choices chunks)) with
                | Some f => Some f
                | None => cc_finish_reason c
                end;
              cc_logprobs :=
                cc_logprobs c ++ flat_map choice_logprobs_entry (all_choices chunks);
              cc_usage := default (cc_usage c) (last (omap chunk_usage chunks)) |}
  end.
Proof.
  induction chunks as [|item rest IH]; intros c.
  - simpl. rewrite append_nil_r, app_nil_r. by destruct c.
  - unfold all_choices in *. simpl. rewrite first_unreadable_app.
    unfold combine_item.
    set (c1 := match chunk_usage item with Some usage => _ | None => c end).
    pose proof (combine_choices_run (chunk_choices item) c1) as Hc.
    destruct (first_unreadable (chunk_choices item)) as [e|]; [by rewrite Hc|].
    rewrite Hc. clear Hc. simpl.
    match goal with |- context [combine_items ?c' rest] => specialize (IH c') end.
    destruct (first_unreadable (flat_map chunk_choices rest)); [done|]. rewrite IH. clear IH.
    cbn [cc_content cc_role cc_finish_reason cc_logprobs cc_usage].
    rewrite map_app, joined_app, omap_app, omap_app, flat_map_app, !last_app.
    assert (cc_content c1 = cc_content c /\ cc_role c1 = cc_role c /\
            cc_finish_reason c1 = cc_finish_reason c /\ cc_logprobs c1 = cc_logprobs c /\
            cc_usage c1 = default (cc_usage c) (chunk_usage item)) as (-> & -> & -> & -> & ->).
    { subst c1. by destruct (chunk_usage item). }
    do 2 f_equal.
    + by rewrite append_assoc.
    + by destruct (last (omap choice_role (flat_map chunk_choices rest))).
    + by destruct (last (omap choice_finish (flat_map chunk_choices rest))).
    + by rewrite app_assoc.
    + unfold omap. destruct (chunk_usage item); simpl; rewrite ?last_cons; by destruct (last _).
Qed.

Lemma combine_chunks_run (chunks : list Chunk) :
  combine_chunks chunks
  = match first_unreadable (all_choices chunks) with
    | Some e => Err e
    | None =>
        Ok (VDict ([("content", VStr (joined (map choice_piece (all_choices chunks))));
                    ("role", opt_str (default None (last (omap choice_role (all_choices chunks)))));
                    ("finish_reason", opt_str (last (omap choice_finish (all_choices chunks))));
                    ("usage", VDict (default [] (last (omap chunk_usage chunks))))]
                   ++ match flat_map choice_logprobs_entry (all_choices chunks) with
                      | [] => []
                      | _ :: _ =>
                          [("logprobs",
                            VList (flat_map choice_logprobs_entry (all_choices chunks)))]
                      end
                   ++ match chunks with
                      | [] => []
                      | first :: _ =>
                          present "id" (opt_str (chunk_id first))
                          ++ present "object" (opt_str (chunk_object first))
                          ++ present "model" (opt_str (chunk_model first))
                          ++ present "created" (opt_int (chunk_created first))
                          ++ present "index" (opt_int (chunk_index first))
                      end))
    end.
Proof.
  unfold combine_chunks.
  pose proof (combine_items_run chunks
                {| cc_content := EmptyString; cc_role := None; cc_finish_reason := None;
                   cc_logprobs := []; cc_usage := [] |}) as H.
  destruct (first_unreadable (all_choices chunks)); rewrite H; [done|].
  simpl. do 4 f_equal.
  by destruct (last (omap choice_finish (all_choices chunks))).
Qed.

(** X1. [combine_chunks] raises exactly when some choice cannot be read:
    a legacy choice whose text is null ([content += None], a
    [TypeError]) or a chat choice whose delta is null (an
    [AttributeError]), the first such choice deciding which.  Otherwise
    the [content] of the payload is the text of every choice of every
    chunk, in order of arrival, joined with nothing between: the first
    choice of a chunk and the later ones alike. *)
Theorem combine_chunks_content (chunks : list Chunk) :
  match combine_chunks chunks with
  | Ok payload =>
      forallb readable (all_choices chunks) = true /\
      field "content" payload
      = Some (VStr (joined (map choice_piece (all_choices chunks))))
  | Err e =>
      forallb readable (all_choices chunks) = false /\
      first_unreadable (all_choices chunks) = Some e
  end.
Proof.
  rewrite combine_chunks_run, first_unreadable_readable.
  by destruct (first_unreadable (all_choices chunks)).
Qed.

(** X2. Of a payload that [combine_chunks] returns, [usage] is the usage
    of the last chunk that carries one, and the empty dict when none
    does; [finish_reason] is the last finish reason of a chat choice that
    is not null; and [role] is the role of the last chat choice, null
    included: a role set by an early delta is lost as soon as a later
    delta has none.  The choices of legacy completion chunks set neither
    [role] nor [finish_reason]. *)
Theorem combine_chunks_keeps_the_last (chunks : list Chunk) :
  match combine_chunks chunks with
  | Ok payload =>
      field "usage" payload = Some (VDict (default [] (last (omap chunk_usage chunks)))) /\
      field "finish_reason" payload
      = Some (opt_str (last (omap choice_finish (all_choices chunks)))) /\
      field "role" payload
      = Some (opt_str (default None (last (omap choice_role (all_choices chunks)))))
  | Err _ => True
  end.
Proof.
  rewrite combine_chunks_run.
  by destruct (first_unreadable (all_choices chunks)).
Qed.

(** X3. The identifying fields of a combined payload, [id], [object],
    [model], [created] and [index], are those of the first chunk alone,
    each left out when the first chunk has none; with no chunk at all
    the payload has none of them.  [logprobs] is there exactly when some
    choice brought log probabilities, and then lists them in order. *)
Theorem combine_chunks_identity (chunks : list Chunk) :
  match combine_chunks chunks with
  | Ok payload =>
      field "id" payload = (first ← head chunks; non_null (opt_str (chunk_id first))) /\
      field "object" payload = (first ← head chunks; non_null (opt_str (chunk_object first))) /\
      field "model" payload = (first ← head chunks; non_null (opt_str (chunk_model first))) /\
      field "created" payload = (first ← head chunks; non_null (opt_int (chunk_created first))) /\
      field "index" payload = (first ← head chunks; non_null (opt_int (chunk_index first))) /\
      field "logprobs" payload
      = match flat_map choice_logprobs_entry (all_choices chunks) with
        | [] => None
        | entries => Some (VList entries)
        end
  | Err _ => True
  end.
Proof.
  rewrite combine_chunks_run.
  destruct (first_unreadable (all_choices chunks)); [done|].
  destruct (flat_map choice_logprobs_entry (all_choices chunks)) as [|entry entries];
    destruct chunks as [|[u cs [i|] [o|] [m|] [c|] [x|]] rest]; by repeat split.
Qed.

(** ** What a run of the executors leaves behind *)

Lemma tool_calls_loop_app (l1 l2 : list ChoiceDeltaToolCall) : forall ds,
  tool_calls_loop ds (l1 ++ l2) = (tool_calls_loop ds l1 ≫= fun ds' => tool_calls_loop ds' l2).
Proof.
  induction l1 as [|d l1 IH]; intros ds; [done|]. simpl.
  unfold mbind at 1 3, result_bind.
  destruct (tool_call_step _ _) as [ds'|e]; [apply IH|done].
Qed.

Lemma chunk_tool_calls_Ok (ds ds' : Deltas) (chunk : Chunk) :
  chunk_tool_calls ds chunk = Ok ds' -> tool_calls_loop ds (chunk_deltas chunk) = Ok ds'.
Proof.
  unfold chunk_tool_calls, first_delta, chunk_deltas.
  destruct (chunk_choices chunk) as [|[[delta|] ? ?|? ? ?] ?]; simpl; congruence.
Qed.

Lemma chunk_content_Ok (chunk : Chunk) (content : option string) :
  chunk_content chunk = Ok content -> content = chunk_yield chunk.
Proof.
  unfold chunk_content, first_delta, chunk_yield.
  destruct (chunk_choices chunk) as [|[[delta|] ? ?|? ? ?] ?]; simpl; congruence.
Qed.

Lemma yield_content_run (content : option string) (w : world) :
  yield_content content w
  = (Ok tt, {| store := store w; response := response w;
               yielded := yielded w ++ option_texts content; calls := calls w |}).
Proof.
  destruct content; simpl; [done|]. rewrite app_nil_r. by destruct w.
Qed.

Lemma Chat_chunk_Ok (acc acc' : Accumulator) (chunk : Chunk) (w w' : world) :
  Chat_chunk acc chunk w = (Ok acc', w') ->
  chat_chunk chunk = true /\
  chunks acc' = chunks acc ++ [chunk] /\
  tool_calls_loop (deltas acc) (chunk_deltas chunk) = Ok (deltas acc') /\
  last_usage acc' = match chunk_usage chunk with
                    | Some u => Some u
                    | None => last_usage acc
                    end /\
  w' = {| store := store w; response := response w;
          yielded := yielded w ++ option_texts (chunk_yield chunk); calls := calls w |}.
Proof.
  unfold Chat_chunk, mbind, M_bind, lift.
  destruct (chunk_tool_calls (deltas acc) chunk) as [ds|] eqn:Hd; [|done].
  destruct (chunk_content chunk) as [content|] eqn:Hc; [|done].
  rewrite yield_content_run. intros [= <- <-]. simpl.
  split.
  { revert Hc. unfold chunk_content, first_delta, chat_chunk.
    by destruct (chunk_choices chunk) as [|[[delta|] ? ?|? ? ?] ?]. }
  apply chunk_tool_calls_Ok in Hd. apply chunk_content_Ok in Hc. by subst.
Qed.

Lemma option_texts_omap {A} (f : A -> option string) (l : list A) :
  omap f l = flat_map (fun x => option_texts (f x)) l.
Proof.
  induction l as [|x l IH]; [done|]. simpl. rewrite <- IH. by destruct (f x).
Qed.

Lemma Chat_loop_Ok (completion : list Chunk) : forall (acc acc' : Accumulator) (w w' : world),
  Chat_loop acc completion w = (Ok acc', w') ->
  forallb chat_chunk completion = true /\
  chunks acc' = chunks acc ++ completion /\
  tool_calls_loop (deltas acc) (flat_map chunk_deltas completion) = Ok (deltas acc') /\
  last_usage acc' = match last (omap chunk_usage completion) with
                    | Some u => Some u
                    | None => last_usage acc
                    end /\
  w' = {| store := store w; response := response w;
          yielded := yielded w ++ omap chunk_yield completion; calls := calls w |}.
Proof.
  induction completion as [|chunk rest IH]; intros acc acc' w w' H.
  - injection H as <- <-. simpl. rewrite !app_nil_r. by destruct w.
  - simpl in H. apply bind_Ok in H as (acc1 & w1 & H1 & H).
    apply Chat_chunk_Ok in H1 as (Hk1 & Hc1 & Hd1 & Hu1 & ->).
    apply IH in H as (Hk & Hc & Hd & Hu & ->). simpl.
    rewrite Hk1, Hk. split; [done|].
    rewrite Hc, Hc1, <- app_assoc. split; [done|].
    rewrite tool_calls_loop_app, Hd1. split; [done|]. split.
    + rewrite Hu, Hu1. unfold omap. simpl.
      destruct (chunk_usage chunk); rewrite ?last_cons; by destruct (last _).
    + f_equal. rewrite <- app_assoc. f_equal. by destruct (chunk_yield chunk).
Qed.

Lemma add_tool_calls_Ok (vs : list ChoiceDeltaToolCall) (w w' : world) :
  add_tool_calls vs w = (Ok tt, w') ->
  exists tcs, mapM make_tool_call vs = Ok tcs /\ w' = with_tool_calls tcs w.
Proof.
  intros H. pose proof (add_tool_calls_run vs w) as Hrun.
  destruct (mapM make_tool_call vs) as [tcs|e].
  - exists tcs. split; [done|]. congruence.
  - destruct Hrun as (w1 & Hrun). congruence.
Qed.

Lemma chat_create_Ok {A} (self : Model) (transport : Transport) (reply : Transport -> reply A)
    messages wire kwargs stream (a : A) (w w' : world) :
  chat_create self transport reply messages wire kwargs stream w = (Ok a, w') ->
  reply transport = Delivered a /\
  w' = {| store := store w; response := response w; yielded := yielded w;
          calls := calls w ++ [ChatCreate (model_arg self) messages wire kwargs stream] |}.
Proof.
  unfold chat_create, mbind, M_bind, record_call, lift, receive.
  destruct (reply transport); [|done]. by intros [= <- <-].
Qed.

Section Runs.
Variable json_dumps : value -> string.
Variable self : Model.
Variable transport : Transport.

(** what a completed streamed exchange leaves behind *)
Lemma Chat_stream_Ok messages wire kwargs (u : option (list (string * value)))
    (w w' : world) :
  Chat_stream self transport messages wire kwargs w = (Ok u, w') ->
  exists completion payload ds tcs,
    stream_reply transport = Delivered completion /\
    forallb chat_chunk completion = true /\
    combine_chunks completion = Ok payload /\
    tool_calls_loop no_deltas (flat_map chunk_deltas completion) = Ok ds /\
    mapM make_tool_call (values ds) = Ok tcs /\
    u = last (omap chunk_usage completion) /\
    w' = {| store := store w;
            response := {| response_json := Some (remove_dict_none_values payload);
                           tool_calls := tool_calls (response w) ++ tcs;
                           usage := usage (response w);
                           _prompt_json := _prompt_json (response w) |};
            yielded := yielded w ++ omap chunk_yield completion;
            calls := calls w ++ [ChatCreate (model_arg self) messages wire kwargs true] |}.
Proof.
  unfold Chat_stream. intros H.
  apply bind_Ok in H as (completion & w1 & Hc & H). apply chat_create_Ok in Hc as [Hr ->].
  apply bind_Ok in H as (acc & w2 & Hl & H). apply Chat_loop_Ok in Hl as (Hk & Hch & Hd & Hu & ->).
  apply bind_Ok in H as (payload & w3 & Hp & H). unfold lift in Hp.
  injection Hp as Hp <-. simpl in Hch. rewrite Hch in Hp.
  apply bind_Ok in H as ([] & w4 & Hj & H). injection Hj as <-.
  apply bind_Ok in H as ([] & w5 & Ht & H). apply add_tool_calls_Ok in Ht as (tcs & Ht & ->).
  injection H as <- <-.
  exists completion, payload, (deltas acc), tcs. repeat split; try done.
  rewrite Hu. simpl. by destruct (last _).
Qed.

(** what a completed exchange that is not streamed leaves behind *)
Lemma Chat_single_Ok messages wire kwargs (u : option (list (string * value)))
    (w w' : world) :
  Chat_single self transport messages wire kwargs w = (Ok u, w') ->
  exists completion counters message tcs,
    chat_reply transport = Delivered completion /\
    completion_usage completion = Some counters /\
    head (completion_choices completion) = Some message /\
    mapM make_tool_call (default [] (message_tool_calls message)) = Ok tcs /\
    u = Some counters /\
    w' = {| store := store w;
            response := {| response_json :=
                             Some (remove_dict_none_values (completion_dump completion));
                           tool_calls := tool_calls (response w) ++ tcs;
                           usage := usage (response w);
                           _prompt_json := _prompt_json (response w) |};
            yielded := yielded w ++ option_texts (message_content message);
            calls := calls w ++ [ChatCreate (model_arg self) messages wire kwargs false] |}.
Proof.
  unfold Chat_single. intros H.
  apply bind_Ok in H as (completion & w1 & Hc & H). apply chat_create_Ok in Hc as [Hr ->].
  apply bind_Ok in H as (counters & w2 & Hu & H). unfold lift in Hu.
  destruct (completion_usage completion) as [counters'|] eqn:Hcu; [|done].
  injection Hu as <- <-.
  apply bind_Ok in H as ([] & w3 & Hj & H). injection Hj as <-.
  apply bind_Ok in H as (message & w4 & Hm & H). unfold lift in Hm.
  destruct (completion_choices completion) as [|m rest] eqn:Hcc; [done|].
  injection Hm as <- <-.
  apply bind_Ok in H as ([] & w5 & Ht & H). apply add_tool_calls_Ok in Ht as (tcs & Ht & ->).
  apply bind_Ok in H as ([] & w6 & Hy & H). rewrite yield_content_run in Hy.
  injection Hy as <-. injection H as <- <-.
  exists completion, counters', m, tcs. rewrite Hcc. by repeat split.
Qed.

Lemma do_set_usage_Ok (u : option (list (string * value))) (w w' : world) :
  do_set_usage u w = (Ok tt, w') ->
  exists r, set_usage (response w) u = Ok r /\
    w' = {| store := store w; response := r; yielded := yielded w; calls := calls w |}.
Proof.
  unfold do_set_usage. destruct (set_usage (response w) u) as [r|]; [|done].
  intros [= <-]. by exists r.
Qed.

Lemma store_prompt_json_keeps (messages : val) (w : world) :
  yielded (store_prompt_json messages w).2 = yielded w /\
  calls (store_prompt_json messages w).2 = calls w /\
  response_json (response (store_prompt_json messages w).2) = response_json (response w) /\
  tool_calls (response (store_prompt_json messages w).2) = tool_calls (response w) /\
  usage (response (store_prompt_json messages w).2) = usage (response w).
Proof.
  unfold store_prompt_json, new_request, set_prompt_json, modify_response, mbind, M_bind.
  cbn [store response yielded calls]. by destruct (redact_data _ _ _).
Qed.

Lemma set_usage_keeps (r r' : Response) (u : option (list (string * value))) :
  set_usage r u = Ok r' ->
  response_json r' = response_json r /\ tool_calls r' = tool_calls r /\
  _prompt_json r' = _prompt_json r.
Proof.
  destruct u as [[|kv u]|]; [by intros [= <-]| |by intros [= <-]].
  unfold set_usage. generalize (kv :: u). intros l.
  destruct (dict_pop "prompt_tokens" l) as [[i l1]|]; [|done]. simpl.
  destruct (dict_pop "completion_tokens" l1) as [[o l2]|]; [|done]. simpl.
  destruct (dict_pop "total_tokens" l2) as [[t l3]|]; [|done]. simpl.
  by intros [= <-].
Qed.

Lemma either_flavour_Ok (f : flavour) (prompt : Prompt) (stream : bool)
    (conversation : option (list PrevResponse)) (w w' : world) :
  chat_execute f json_dumps self transport prompt stream conversation w = (Ok tt, w') ->
  Chat_execute json_dumps self transport prompt stream conversation w = (Ok tt, w').
Proof.
  destruct f; [done|]. simpl. intros H.
  destruct (executors_agree json_dumps self transport prompt stream conversation w)
    as (_ & _ & _ & Hok & Heq).
  rewrite H in Hok, Heq. simpl in Hok. rewrite Heq; [done|]. exact Hok.
Qed.
End Runs.

Lemma single_choice_pieces (completion : list Chunk) :
  forallb chat_chunk completion = true -> forallb single_choice completion = true ->
  joined (map choice_piece (all_choices completion)) = joined (omap chunk_yield completion).
Proof.
  induction completion as [|chunk rest IH]; [done|]. simpl.
  intros [Hk Hks]%andb_prop [Hs Hss]%andb_prop.
  unfold all_choices in *. simpl. rewrite map_app, joined_app, IH by done.
  change (omap chunk_yield (chunk :: rest))
    with (match chunk_yield chunk with
          | Some y => y :: omap chunk_yield rest
          | None => omap chunk_yield rest
          end).
  revert Hk Hs. unfold chat_chunk, single_choice, chunk_yield.
  destruct (chunk_choices chunk) as [|[[delta|] ? ?|? ? ?] [|? ?]]; try done.
  intros _ _. simpl. destruct (delta_content delta); simpl; [|done].
  by rewrite append_nil_r.
Qed.

Lemma new_Ok (t : value) (v : val) (w w1 : world) :
  new t w = (Ok v, w1) ->
  yielded w1 = yielded w /\ response w1 = response w /\ calls w1 = calls w.
Proof. unfold new. destruct (alloc t (store w)). by intros [= <- <-]. Qed.

Lemma Chat_execute_run {json_dumps self transport prompt stream conversation w w'} :
  Chat_execute json_dumps self transport prompt stream conversation w = (Ok tt, w') ->
  exists messages w1 u w2 r,
    (if stream
     then Chat_stream self transport messages
            (VList (build_messages json_dumps prompt conversation))
            (build_kwargs self prompt stream) w1
     else Chat_single self transport messages
            (VList (build_messages json_dumps prompt conversation))
            (build_kwargs self prompt stream) w1) = (Ok u, w2) /\
    yielded w1 = yielded w /\ response w1 = response w /\
    set_usage (response w2) u = Ok r /\
    yielded w' = yielded w2 /\
    response_json (response w') = response_json r /\
    tool_calls (response w') = tool_calls r /\
    usage (response w') = usage r.
Proof.
  unfold Chat_execute.
  destruct (truthy_str (p_system prompt) && negb (allows_system_prompt self)); [done|].
  intros H. apply bind_Ok in H as (messages & w1 & Hn & H).
  apply new_Ok in Hn as (Hy1 & Hr1 & _).
  apply bind_Ok in H as (u & w2 & Hrun & H).
  apply bind_Ok in H as ([] & w3 & Hu & H). apply do_set_usage_Ok in Hu as (r & Hu & ->).
  match type of H with store_prompt_json ?m ?w0 = _ =>
    destruct (store_prompt_json_keeps m w0) as (Hy & _ & Hj & Ht & Hus) end.
  rewrite H in Hy, Hj, Ht, Hus. simpl in *.
  eexists _, _, u, w2, r. split; [by destruct stream|]. done.
Qed.

(** X4. A streamed chat call that completes, synchronous or not, has
    shown the caller exactly the contents of the deltas of the first
    choices that are not null, the empty string included, one text per
    chunk and in order of arrival; and what it stores as the response is
    the stripped payload that [combine_chunks] makes of the chunks.  When
    no chunk has more than one choice, the texts shown, joined, are the
    [content] of that payload.  (With several choices in a chunk the
    caller is shown the first one only, while the payload joins them
    all.) *)
Theorem streamed_text_is_the_stored_content (f : flavour) (json_dumps : value -> string)
    (self : Model) (transport : Transport) (prompt : Prompt)
    (conversation : option (list PrevResponse)) (w w' : world) :
  chat_execute f json_dumps self transport prompt true conversation w = (Ok tt, w') ->
  exists completion payload,
    stream_reply transport = Delivered completion /\
    combine_chunks completion = Ok payload /\
    yielded w' = yielded w ++ omap chunk_yield completion /\
    response_json (response w') = Some (remove_dict_none_values payload) /\
    (forallb single_choice completion = true ->
     field "content" payload = Some (VStr (joined (omap chunk_yield completion)))).
Proof.
  intros H. apply either_flavour_Ok in H.
  destruct (Chat_execute_run H) as (messages & w1 & u & w2 & r & Hrun & Hy1 & Hr1 & Hu & Hy & Hj & _).
  apply Chat_stream_Ok in Hrun
    as (completion & payload & ds & tcs & Hreply & Hk & Hp & _ & _ & _ & ->).
  apply set_usage_keeps in Hu as (Hrj & _ & _). simpl in *.
  exists completion, payload. rewrite Hy, Hj, Hrj, Hy1. repeat split; try done.
  intros Hs. rewrite combine_chunks_run in Hp.
  destruct (first_unreadable (all_choices completion)); [done|]. injection Hp as <-.
  simpl. by rewrite single_choice_pieces.
Qed.

Lemma streamed_text_is_the_stored_content_witness :
  exists completion payload,
    stream_reply (streaming hello_stream) = Delivered completion /\
    combine_chunks completion = Ok payload /\
    yielded (Chat_execute dumps_unused gpt_4o (streaming hello_stream) text_prompt true None
               empty_world).2
    = yielded empty_world ++ omap chunk_yield completion /\
    response_json (response (Chat_execute dumps_unused gpt_4o (streaming hello_stream)
                               text_prompt true None empty_world).2)
    = Some (remove_dict_none_values payload) /\
    (forallb single_choice completion = true ->
     field "content" payload = Some (VStr (joined (omap chunk_yield completion)))).
Proof.
  apply (streamed_text_is_the_stored_content Synchronous dumps_unused gpt_4o
           (streaming hello_stream) text_prompt None empty_world).
  vm_compute. reflexivity.
Defined.

Lemma set_usage_Some (r r' : Response) (u : list (string * value)) :
  u <> [] -> set_usage r (Some u) = Ok r' ->
  exists i o,
    dict_get "prompt_tokens" u = Some i /\
    dict_get "completion_tokens" u = Some o /\
    dict_mem "total_tokens" u = true /\
    input_tokens <$> usage r' = Some i /\
    output_tokens <$> usage r' = Some o.
Proof.
  intros Hne. rewrite set_usage_nonempty by done. unfold dict_pop.
  destruct (dict_get "prompt_tokens" u) as [i|] eqn:Hi; [|done]. simpl.
  rewrite dict_get_remove_ne by done.
  destruct (dict_get "completion_tokens" u) as [o|] eqn:Ho; [|done]. simpl.
  rewrite !dict_get_remove_ne by done.
  destruct (dict_get "total_tokens" u) as [t|] eqn:Ht; [|done]. simpl.
  intros [= <-]. exists i, o. repeat split; try done.
  apply dict_mem_get. rewrite Ht. eauto.
Qed.

Lemma set_usage_usage (r1 r2 r1' : Response) (u : option (list (string * value))) :
  set_usage r1 u = Ok r1' -> usage r1 = usage r2 ->
  exists r2', set_usage r2 u = Ok r2' /\ usage r2' = usage r1'.
Proof.
  destruct u as [[|kv u]|].
  - intros [= <-] ?. by exists r2.
  - unfold set_usage. generalize (kv :: u). intros l.
    destruct (dict_pop "prompt_tokens" l) as [[i l1]|]; [|done]. simpl.
    destruct (dict_pop "completion_tokens" l1) as [[o l2]|]; [|done]. simpl.
    destruct (dict_pop "total_tokens" l2) as [[t l3]|]; [|done]. simpl.
    intros [= <-] _. eauto.
  - intros [= <-] ?. by exists r2.
Qed.

(** X5. The usage a streamed chat call records is taken from the last
    chunk that reports one, earlier reports being overwritten, not
    summed: a call that completes has found the three counters in that
    report and has set the input and output counts from it.  When no
    chunk reports usage, or the last report is empty, the usage of the
    response is left as it was. *)
Theorem streamed_usage_is_the_last_report (f : flavour) (json_dumps : value -> string)
    (self : Model) (transport : Transport) (prompt : Prompt)
    (conversation : option (list PrevResponse)) (w w' : world) :
  chat_execute f json_dumps self transport prompt true conversation w = (Ok tt, w') ->
  exists completion,
    stream_reply transport = Delivered completion /\
    match last (omap chunk_usage completion) with
    | None | Some [] => usage (response w') = usage (response w)
    | Some report =>
        exists i o,
          dict_get "prompt_tokens" report = Some i /\
          dict_get "completion_tokens" report = Some o /\
          dict_mem "total_tokens" report = true /\
          input_tokens <$> usage (response w') = Some i /\
          output_tokens <$> usage (response w') = Some o
    end.
Proof.
  intros H. apply either_flavour_Ok in H.
  destruct (Chat_execute_run H)
    as (messages & w1 & u & w2 & r & Hrun & Hy1 & Hr1 & Hu & _ & _ & _ & Hus).
  apply Chat_stream_Ok in Hrun
    as (completion & payload & ds & tcs & Hreply & _ & _ & _ & _ & -> & ->).
  exists completion. split; [done|]. rewrite Hus. simpl in Hu.
  destruct (last (omap chunk_usage completion)) as [[|kv report]|].
  - injection Hu as <-. simpl. by rewrite Hr1.
  - by apply set_usage_Some in Hu.
  - injection Hu as <-. simpl. by rewrite Hr1.
Qed.

Lemma streamed_usage_is_the_last_report_witness :
  exists completion,
    stream_reply (streaming hello_stream) = Delivered completion /\
    match last (omap chunk_usage completion) with
    | None | Some [] =>
        usage (response (Chat_execute dumps_unused gpt_4o (streaming hello_stream) text_prompt
                           true None empty_world).2)
        = usage (response empty_world)
    | Some report =>
        exists i o,
          dict_get "prompt_tokens" report = Some i /\
          dict_get "completion_tokens" report = Some o /\
          dict_mem "total_tokens" report = true /\
          input_tokens <$> usage (response (Chat_execute dumps_unused gpt_4o
                                              (streaming hello_stream) text_prompt true None
                                              empty_world).2) = Some i /\
          output_tokens <$> usage (response (Chat_execute dumps_unused gpt_4o
                                               (streaming hello_stream) text_prompt true None
                                               empty_world).2) = Some o
    end.
Proof.
  apply (streamed_usage_is_the_last_report Synchronous dumps_unused gpt_4o
           (streaming hello_stream) text_prompt None empty_world).
  vm_compute. reflexivity.
Defined.

(** X6. A chat call that is not streamed completes, synchronous or not,
    only on a reply that reports usage and has at least one choice.  It
    reads the first choice alone: the tool calls of its message are
    parsed and recorded in order, its content is shown to the caller as
    one text when it is not null, and nothing else is shown; the
    response stored is the stripped dump of the reply. *)
Theorem single_reply_is_read_from_the_first_choice (f : flavour)
    (json_dumps : value -> string) (self : Model) (transport : Transport) (prompt : Prompt)
    (conversation : option (list PrevResponse)) (w w' : world) :
  chat_execute f json_dumps self transport prompt false conversation w = (Ok tt, w') ->
  exists completion counters message tcs,
    chat_reply transport = Delivered completion /\
    completion_usage completion = Some counters /\
    head (completion_choices completion) = Some message /\
    mapM make_tool_call (default [] (message_tool_calls message)) = Ok tcs /\
    yielded w' = yielded w ++ option_texts (message_content message) /\
    tool_calls (response w') = tool_calls (response w) ++ tcs /\
    response_json (response w')
    = Some (remove_dict_none_values (completion_dump completion)).
Proof.
  intros H. apply either_flavour_Ok in H.
  destruct (Chat_execute_run H)
    as (messages & w1 & u & w2 & r & Hrun & Hy1 & Hr1 & Hu & Hy & Hj & Ht & _).
  apply Chat_single_Ok in Hrun
    as (completion & counters & message & tcs & Hreply & Hc & Hm & Htcs & -> & ->).
  apply set_usage_keeps in Hu as (Hrj & Hrt & _). simpl in *.
  exists completion, counters, message, tcs.
  rewrite Hy, Hj, Ht, Hrj, Hrt, Hy1, Hr1. by repeat split.
Qed.

Lemma single_reply_is_read_from_the_first_choice_witness :
  exists completion counters message tcs,
    chat_reply (replying hello_completion) = Delivered completion /\
    completion_usage completion = Some counters /\
    head (completion_choices completion) = Some message /\
    mapM make_tool_call (default [] (message_tool_calls message)) = Ok tcs /\
    yielded (Chat_execute dumps_unused gpt_4o (replying hello_completion) text_prompt false
               None empty_world).2
    = yielded empty_world ++ option_texts (message_content message) /\
    tool_calls (response (Chat_execute dumps_unused gpt_4o (replying hello_completion)
                            text_prompt false None empty_world).2)
    = tool_calls (response empty_world) ++ tcs /\
    response_json (response (Chat_execute dumps_unused gpt_4o (replying hello_completion)
                               text_prompt false None empty_world).2)
    = Some (remove_dict_none_values (completion_dump completion)).
Proof.
  apply (single_reply_is_read_from_the_first_choice Synchronous dumps_unused gpt_4o
           (replying hello_completion) text_prompt None empty_world).
  vm_compute. reflexivity.
Defined.

(** X7. A reply to a call that is not streamed which reports no usage
    makes the executor raise an [AttributeError]
    ([completion.usage.model_dump()] on [None]), and one that reports
    usage but has no choice an [IndexError].  Either way the call has
    been made and the reply received, but nothing is shown to the
    caller, and no tool call, no usage and no request are recorded on
    the response. *)
Theorem single_reply_needs_usage_and_a_choice (f : flavour) (json_dumps : value -> string)
    (self : Model) (transport : Transport) (prompt : Prompt)
    (conversation : option (list PrevResponse)) (completion : ChatCompletion) (w : world) :
  truthy_str (p_system prompt) && negb (allows_system_prompt self) = false ->
  chat_reply transport = Delivered completion ->
  completion_usage completion = None \/ completion_choices completion = [] ->
  exists messages w',
    chat_execute f json_dumps self transport prompt false conversation w
    = (Err (match completion_usage completion with
            | None => AttributeError
            | Some _ => IndexError
            end), w') /\
    calls w' = calls w ++ [ChatCreate (model_arg self) messages
                             (VList (build_messages json_dumps prompt conversation))
                             (build_kwargs self prompt false) false] /\
    yielded w' = yielded w /\
    tool_calls (response w') = tool_calls (response w) /\
    usage (response w') = usage (response w) /\
    _prompt_json (response w') = _prompt_json (response w).
Proof.
  intros Hguard Hreply Hmissing.
  assert (exists messages w1,
            new (VList (build_messages json_dumps prompt conversation)) w = (Ok messages, w1) /\
            response w1 = response w /\ yielded w1 = yielded w /\ calls w1 = calls w)
    as (messages & w1 & Hn & Hr & Hy & Hc).
  { unfold new. destruct (alloc _ (store w)) as [v h]. by eexists _, _. }
  exists messages.
  destruct f; simpl; unfold Chat_execute, AsyncChat_execute; rewrite Hguard;
    rewrite (bind_run _ _ _ _ _ Hn);
    unfold Chat_single, AsyncChat_single, chat_create, mbind, M_bind, record_call, lift,
      set_response_json, modify_response, receive; rewrite Hreply;
    cbn [store response yielded calls];
    (destruct (completion_usage completion) as [counters|];
     [destruct Hmissing as [|Hchoices]; [done|]; rewrite Hchoices|]);
    eexists; (split; [reflexivity|]); cbn [store response yielded calls tool_calls usage
                                            _prompt_json]; by rewrite ?Hr, ?Hy, ?Hc.
Qed.

Lemma single_reply_needs_usage_and_a_choice_witness :
  exists messages w',
    chat_execute Synchronous dumps_unused gpt_4o (replying unmetered_completion) text_prompt
      false None empty_world
    = (Err AttributeError, w') /\
    calls w' = calls empty_world
               ++ [ChatCreate (model_arg gpt_4o) messages
                     (VList (build_messages dumps_unused text_prompt None))
                     (build_kwargs gpt_4o text_prompt false) false] /\
    yielded w' = yielded empty_world /\
    tool_calls (response w') = tool_calls (response empty_world) /\
    usage (response w') = usage (response empty_world) /\
    _prompt_json (response w') = _prompt_json (response empty_world).
Proof.
  apply (single_reply_needs_usage_and_a_choice Synchronous dumps_unused gpt_4o
           (replying unmetered_completion) text_prompt None unmetered_completion empty_world);
    [reflexivity|reflexivity|by left].
Defined.

(** ** [Completion.execute] *)

Lemma join_lines_Some (texts : list string) :
  join_lines (map Some texts) = Ok (String.concat newline texts).
Proof.
  induction texts as [|t texts IH]; [done|].
  destruct texts as [|t' texts]; [done|].
  change (join_lines (map Some (t :: t' :: texts)))
    with (r ← join_lines (map Some (t' :: texts)); Ok (t +:+ String (Json.byte 10) r)).
  rewrite IH. reflexivity.
Qed.

Lemma join_lines_None (lines : list (option string)) :
  None ∈ lines -> join_lines lines = Err TypeError.
Proof.
  induction lines as [|[t|] lines IH]; intros Hin.
  - by apply elem_of_nil in Hin.
  - apply elem_of_cons in Hin as [|Hin]; [done|]. specialize (IH Hin).
    destruct lines as [|l lines]; [by apply elem_of_nil in Hin|].
    change (join_lines (Some t :: l :: lines))
      with (r ← join_lines (l :: lines); Ok (t +:+ String (Json.byte 10) r)).
    by rewrite IH.
  - done.
Qed.

Lemma keeps_ret {A B} (aspect : world -> B) (a : A) : keeps aspect (mret a).
Proof. by intros w. Qed.

Lemma keeps_lift {A B} (aspect : world -> B) (r : result A) : keeps aspect (lift r).
Proof. by intros w. Qed.

Lemma keeps_raise {A B} (aspect : world -> B) (e : exn) : keeps aspect (@raise A e).
Proof. by intros w. Qed.

Lemma keeps_bind {A B C} (aspect : world -> C) (m : M A) (k : A -> M B) :
  keeps aspect m -> (forall a, keeps aspect (k a)) -> keeps aspect (m ≫= k).
Proof.
  intros Hm Hk w. unfold mbind, M_bind. specialize (Hm w).
  destruct (m w) as [[a|e] w1]; [|done]. simpl in Hm. by rewrite Hk.
Qed.

Lemma keeps_if {A B} (aspect : world -> B) (b : bool) (m1 m2 : M A) :
  keeps aspect m1 -> keeps aspect m2 -> keeps aspect (if b then m1 else m2).
Proof. by destruct b. Qed.

Lemma keeps_new {B} (aspect : world -> B) (t : value) :
  (forall h w, aspect {| store := h; response := response w; yielded := yielded w;
                         calls := calls w |} = aspect w) ->
  keeps aspect (new t).
Proof. intros H w. unfold new. destruct (alloc t (store w)). apply H. Qed.

Lemma keeps_store_prompt_json {B} (aspect : world -> B) (messages : val) :
  (forall h v w, aspect {| store := h;
                           response := {| response_json := response_json (response w);
                                          tool_calls := tool_calls (response w);
                                          usage := usage (response w);
                                          _prompt_json := v |};
                           yielded := yielded w; calls := calls w |} = aspect w) ->
  keeps aspect (store_prompt_json messages).
Proof.
  intros H w.
  unfold store_prompt_json, new_request, set_prompt_json, modify_response, mbind, M_bind.
  cbn [store response yielded calls]. destruct (redact_data _ _ _); simpl.
  - apply (H _ _ w).
  - rewrite <- (H (store w ++ [ODict [("messages", messages)]]) (_prompt_json (response w)) w).
    by destruct w as [? [] ? ?].
Qed.

Lemma keeps_yield_content {B} (aspect : world -> B) (content : option string) :
  (forall y w, aspect {| store := store w; response := response w; yielded := y;
                         calls := calls w |} = aspect w) ->
  keeps aspect (yield_content content).
Proof. intros H w. rewrite yield_content_run. apply H. Qed.

Lemma keeps_Completion_loop {B} (aspect : world -> B) (completion : list Chunk) :
  (forall y w, aspect {| store := store w; response := response w; yielded := y;
                         calls := calls w |} = aspect w) ->
  forall chunks, keeps aspect (Completion_loop chunks completion).
Proof.
  intros H. induction completion as [|chunk rest IH]; intros chunks; simpl.
  - apply keeps_ret.
  - apply keeps_bind; [apply keeps_lift|]. intros content.
    apply keeps_bind; [by apply keeps_yield_content|]. intros _. apply IH.
Qed.

Lemma keeps_exchange {B} (aspect : world -> B) (transport : Transport) (stream : bool) :
  (forall y w, aspect {| store := store w; response := response w; yielded := y;
                         calls := calls w |} = aspect w) ->
  (forall j w, aspect {| store := store w;
                         response := {| response_json := j;
                                        tool_calls := tool_calls (response w);
                                        usage := usage (response w);
                                        _prompt_json := _prompt_json (response w) |};
                         yielded := yielded w; calls := calls w |} = aspect w) ->
  keeps aspect (Completion_exchange transport stream).
Proof.
  intros Hy Hr.
  assert (forall v, keeps aspect (set_response_json v)) as Hj.
  { intros v w. apply (Hr (Some v) w). }
  unfold Completion_exchange. destruct stream.
  - apply keeps_bind; [apply keeps_lift|]. intros completion.
    apply keeps_bind; [by apply keeps_Completion_loop|]. intros chunks.
    apply keeps_bind; [apply keeps_lift|]. intros combined. apply Hj.
  - apply keeps_bind; [apply keeps_lift|]. intros completion.
    apply keeps_bind; [apply Hj|]. intros _.
    destruct (text_choices completion); [apply keeps_raise|].
    intros w. apply Hy.
Qed.

Lemma Completion_execute_unfold (self : Model) (transport : Transport) (prompt : Prompt)
    (stream : bool) (conversation : option (list PrevResponse)) :
  Completion_execute self transport prompt stream conversation
  = if truthy_str (p_system prompt)
    then raise (NotImplementedError
                  "System prompts are not supported for OpenAI completion models")
    else
      messages ← new (VList (map opt_str (completion_lines prompt conversation)));
      text ← lift (join_lines (completion_lines prompt conversation));
      record_call (CompletionCreate (model_arg self) text (build_kwargs self prompt stream)
                     stream);;
      Completion_exchange transport stream;;
      store_prompt_json messages.
Proof. reflexivity. Qed.

(** X8. [Completion.execute] sends as its prompt the prompt and the
    text of every earlier response, in order, then the prompt of this
    call, joined by line feeds, in one call to the legacy endpoint.
    When one of these is null (a prompt with no text), the join raises a
    [TypeError]: no call is made, nothing is shown and the response is
    untouched. *)
Theorem completion_sends_the_joined_texts (self : Model) (transport : Transport)
    (prompt : Prompt) (stream : bool) (conversation : option (list PrevResponse))
    (w : world) :
  truthy_str (p_system prompt) = false ->
  (forall texts,
     completion_lines prompt conversation = map Some texts ->
     calls (Completion_execute self transport prompt stream conversation w).2
     = calls w ++ [CompletionCreate (model_arg self) (String.concat newline texts)
                     (build_kwargs self prompt stream) stream]) /\
  (None ∈ completion_lines prompt conversation ->
   (Completion_execute self transport prompt stream conversation w).1 = Err TypeError /\
   calls (Completion_execute self transport prompt stream conversation w).2 = calls w /\
   yielded (Completion_execute self transport prompt stream conversation w).2 = yielded w /\
   response (Completion_execute self transport prompt stream conversation w).2
   = response w).
Proof.
  intros Hguard. rewrite Completion_execute_unfold, Hguard.
  assert (exists messages w1,
            new (VList (map opt_str (completion_lines prompt conversation))) w
            = (Ok messages, w1) /\
            response w1 = response w /\ yielded w1 = yielded w /\ calls w1 = calls w)
    as (messages & w1 & Hn & Hr & Hy & Hc).
  { unfold new. destruct (alloc _ (store w)) as [v h]. by eexists _, _. }
  rewrite (bind_run _ _ _ _ _ Hn). split.
  - intros texts ->. rewrite join_lines_Some.
    unfold mbind at 1, M_bind, lift. unfold mbind at 1, M_bind, record_call.
    match goal with |- calls (?m ?w0).2 = _ =>
      assert (keeps calls m) as Hk; [|by rewrite (Hk w0), <- Hc] end.
    apply keeps_bind; [by apply keeps_exchange|]. intros _.
    by apply keeps_store_prompt_json.
  - intros Hnone. rewrite (join_lines_None _ Hnone). unfold mbind, M_bind, lift. simpl.
    done.
Qed.

Lemma completion_sends_the_joined_texts_witness :
  calls (Completion_execute instruct (completing hello_text) text_prompt false
           (Some [hi_hello]) empty_world).2
  = calls empty_world
    ++ [CompletionCreate (model_arg instruct) (String.concat newline ["Hi"; "Hello"; "Hi"])
          (build_kwargs instruct text_prompt false) false].
Proof.
  apply (completion_sends_the_joined_texts instruct (completing hello_text) text_prompt false
           (Some [hi_hello]) empty_world); reflexivity.
Defined.

(** X9. [Completion.execute] never records a tool call and never
    records usage: whatever the prompt, the reply and the outcome, the
    tool calls and the usage of the response are as they were before
    the call, even when the request carried tools. *)
Theorem completion_records_no_tool_call_and_no_usage (self : Model) (transport : Transport)
    (prompt : Prompt) (stream : bool) (conversation : option (list PrevResponse))
    (w : world) :
  tool_calls (response (Completion_execute self transport prompt stream conversation w).2)
  = tool_calls (response w) /\
  usage (response (Completion_execute self transport prompt stream conversation w).2)
  = usage (response w).
Proof.
  assert (forall B (aspect : world -> B),
            (forall h w, aspect {| store := h; response := response w; yielded := yielded w;
                                   calls := calls w |} = aspect w) ->
            (forall y w, aspect {| store := store w; response := response w; yielded := y;
                                   calls := calls w |} = aspect w) ->
            (forall c w, aspect {| store := store w; response := response w;
                                   yielded := yielded w; calls := c |} = aspect w) ->
            (forall j v w, aspect {| store := store w;
                                     response := {| response_json := j;
                                                    tool_calls := tool_calls (response w);
                                                    usage := usage (response w);
                                                    _prompt_json := v |};
                                     yielded := yielded w; calls := calls w |} = aspect w) ->
            keeps aspect (Completion_execute self transport prompt stream conversation)) as H.
  { intros B aspect Hs Hy Hc Hr. rewrite Completion_execute_unfold.
    destruct (truthy_str (p_system prompt)); [apply keeps_raise|].
    apply keeps_bind; [by apply keeps_new|]. intros messages.
    apply keeps_bind; [apply keeps_lift|]. intros text.
    apply keeps_bind; [intros w0; apply Hc|]. intros _.
    apply keeps_bind; [apply keeps_exchange; [done|]|].
    - intros j w0. apply (Hr j (_prompt_json (response w0)) w0).
    - intros _. apply keeps_store_prompt_json. intros h v w0.
      etrans; [|apply (Hs h w0)].
      apply (Hr (response_json (response w0)) v
                {| store := h; response := response w0; yielded := yielded w0;
                   calls := calls w0 |}). }
  split.
  - by apply (H _ (fun w => tool_calls (response w))).
  - by apply (H _ (fun w => usage (response w))).
Qed.

Lemma chunk_text_Ok (chunk : Chunk) (content : option string) :
  chunk_text chunk = Ok content -> text_chunk chunk = true /\ content = chunk_text_yield chunk.
Proof.
  unfold chunk_text, text_chunk, chunk_text_yield.
  destruct (chunk_choices chunk) as [|[? ? ?|? ? ?] ?]; simpl; by intros [= <-].
Qed.

Lemma Completion_loop_Ok (completion : list Chunk) : forall (chunks chunks' : list Chunk) w w',
  Completion_loop chunks completion w = (Ok chunks', w') ->
  forallb text_chunk completion = true /\
  chunks' = chunks ++ completion /\
  w' = {| store := store w; response := response w;
          yielded := yielded w ++ omap chunk_text_yield completion; calls := calls w |}.
Proof.
  induction completion as [|chunk rest IH]; intros chunks chunks' w w' H.
  - injection H as <- <-. simpl. rewrite !app_nil_r. by destruct w.
  - simpl in H. apply bind_Ok in H as (content & w1 & Hc & H).
    unfold lift in Hc. injection Hc as Hc <-. apply chunk_text_Ok in Hc as [Hk ->].
    apply bind_Ok in H as ([] & w2 & Hy & H). rewrite yield_content_run in Hy.
    injection Hy as <-. apply IH in H as (Hks & -> & ->). simpl.
    rewrite Hk, Hks, <- !app_assoc. repeat split. f_equal. f_equal.
    by destruct (chunk_text_yield chunk).
Qed.

Lemma Completion_exchange_Ok (transport : Transport) (stream : bool) (w w' : world) :
  Completion_exchange transport stream w = (Ok tt, w') ->
  store w' = store w /\ calls w' = calls w /\
  tool_calls (response w') = tool_calls (response w) /\
  if stream
  then exists completion payload,
         stream_reply transport = Delivered completion /\
         forallb text_chunk completion = true /\
         combine_chunks completion = Ok payload /\
         yielded w' = yielded w ++ omap chunk_text_yield completion /\
         response_json (response w') = Some (remove_dict_none_values payload)
  else exists completion text,
         text_reply transport = Delivered completion /\
         head (text_choices completion) = Some text /\
         yielded w' = yielded w ++ [text] /\
         response_json (response w') = Some (remove_dict_none_values (text_dump completion)).
Proof.
  unfold Completion_exchange. destruct stream; intros H.
  - apply bind_Ok in H as (completion & w1 & Hr & H). unfold lift, receive in Hr.
    destruct (stream_reply transport) as [c|] eqn:Hreply; [|done]. injection Hr as <- <-.
    apply bind_Ok in H as (chunks & w2 & Hl & H).
    apply Completion_loop_Ok in Hl as (Hk & -> & ->).
    apply bind_Ok in H as (payload & w3 & Hp & H). unfold lift in Hp.
    injection Hp as Hp <-. injection H as <-. simpl.
    repeat split. by exists c, payload.
  - apply bind_Ok in H as (completion & w1 & Hr & H). unfold lift, receive in Hr.
    destruct (text_reply transport) as [c|] eqn:Hreply; [|done]. injection Hr as <- <-.
    apply bind_Ok in H as ([] & w2 & Hj & H). injection Hj as <-.
    destruct (text_choices c) as [|text rest] eqn:Hc; [done|]. injection H as <-. simpl.
    repeat split. exists c, text. by rewrite Hc.
Qed.

Lemma redact_texts (lines : list (option string)) :
  redact (VList (map opt_str lines)) = Ok (VList (map opt_str lines)).
Proof.
  rewrite redact_list.
  assert (mapM redact (map opt_str lines) = Ok (map opt_str lines)) as ->; [|done].
  induction lines as [|[t|] lines IH]; [done| |]; simpl; by rewrite IH.
Qed.

Lemma depth_texts (lines : list (option string)) :
  depth (VList (map opt_str lines)) = 1%nat.
Proof.
  simpl. f_equal. induction lines as [|[t|] lines IH]; [done| |]; simpl; by rewrite IH.
Qed.

(** X10. A call of [Completion.execute] that completes keeps as the
    request of the response a new dict whose [messages] entry is the
    list of the texts that were joined into the prompt, in order and
    word for word: redaction finds nothing to rewrite in a list of
    strings, whatever the strings hold. *)
Theorem completion_request_is_stored_as_sent (self : Model) (transport : Transport)
    (prompt : Prompt) (stream : bool) (conversation : option (list PrevResponse))
    (w w' : world) :
  Completion_execute self transport prompt stream conversation w = (Ok tt, w') ->
  exists request messages,
    _prompt_json (response w') = Some (Ref request) /\
    store w' !! request = Some (ODict [("messages", messages)]) /\
    reads (store w') messages (VList (map opt_str (completion_lines prompt conversation))).
Proof.
  rewrite Completion_execute_unfold.
  destruct (truthy_str (p_system prompt)); [done|]. intros H.
  apply bind_Ok in H as (messages & w1 & Hn & H). rewrite new_layout in Hn.
  set (t := VList (map opt_str (completion_lines prompt conversation))) in *.
  assert (messages = (layout (length (store w)) t).1 /\
          store w1 = store w ++ (layout (length (store w)) t).2) as [-> Hs1].
  { by injection Hn as <- <-. }
  clear Hn.
  apply bind_Ok in H as (text & w2 & Hj & H). unfold lift in Hj. injection Hj as _ <-.
  apply bind_Ok in H as ([] & w3 & Hc & H). injection Hc as <-.
  apply bind_Ok in H as ([] & w4 & He & H).
  apply Completion_exchange_Ok in He as (Hs4 & _). simpl in Hs4.
  destruct (store_prompt_json_fresh t t (store w) w4) as (d' & Hlen & Hreads & Hrun).
  { congruence. }
  { unfold t. rewrite depth_texts. lia. }
  { apply redact_texts. }
  rewrite Hrun in H. injection H as <-. simpl.
  eexists _, _. split; [done|]. split; [apply lookup_segment_end|].
  apply Hreads, seg_at_app.
Qed.

Lemma completion_request_is_stored_as_sent_witness :
  exists request messages,
    _prompt_json (response (Completion_execute instruct (completing hello_text) text_prompt
                              false (Some [hi_hello]) empty_world).2)
    = Some (Ref request) /\
    store (Completion_execute instruct (completing hello_text) text_prompt false
             (Some [hi_hello]) empty_world).2 !! request
    = Some (ODict [("messages", messages)]) /\
    reads (store (Completion_execute instruct (completing hello_text) text_prompt false
                    (Some [hi_hello]) empty_world).2) messages
      (VList (map opt_str (completion_lines text_prompt (Some [hi_hello])))).
Proof.
  apply (completion_request_is_stored_as_sent instruct (completing hello_text) text_prompt
           false (Some [hi_hello]) empty_world).
  vm_compute. reflexivity.
Defined.

(** X11. A call of [Completion.execute] that completes has shown the
    caller, when streamed, the text of the first choice of every chunk
    that has one that is not null, in order, and stores the stripped
    payload that [combine_chunks] makes of the chunks; when not streamed,
    exactly one text, that of the first choice of the reply, and stores
    the stripped dump of the reply. *)
Theorem completion_shows_the_first_choice (self : Model) (transport : Transport)
    (prompt : Prompt) (stream : bool) (conversation : option (list PrevResponse))
    (w w' : world) :
  Completion_execute self transport prompt stream conversation w = (Ok tt, w') ->
  if stream
  then exists completion payload,
         stream_reply transport = Delivered completion /\
         combine_chunks completion = Ok payload /\
         yielded w' = yielded w ++ omap chunk_text_yield completion /\
         response_json (response w') = Some (remove_dict_none_values payload)
  else exists completion text,
         text_reply transport = Delivered completion /\
         head (text_choices completion) = Some text /\
         yielded w' = yielded w ++ [text] /\
         response_json (response w') = Some (remove_dict_none_values (text_dump completion)).
Proof.
  rewrite Completion_execute_unfold.
  destruct (truthy_str (p_system prompt)); [done|]. intros H.
  apply bind_Ok in H as (messages & w1 & Hn & H). apply new_Ok in Hn as (Hy1 & Hr1 & _).
  apply bind_Ok in H as (text & w2 & Hj & H). unfold lift in Hj. injection Hj as _ <-.
  apply bind_Ok in H as ([] & w3 & Hc & H). injection Hc as <-.
  apply bind_Ok in H as ([] & w4 & He & H).
  apply Completion_exchange_Ok in He as (_ & _ & _ & He). simpl in He.
  destruct (store_prompt_json_keeps messages w4) as (Hy & _ & Hrj & _).
  rewrite H in Hy, Hrj. simpl in Hy, Hrj. rewrite Hy, Hrj, <- Hy1.
  destruct stream.
  - destruct He as (completion & payload & ? & ? & ? & ? & ?). by exists completion, payload.
  - done.
Qed.

Lemma completion_shows_the_first_choice_witness :
  exists completion text,
    text_reply (completing hello_text) = Delivered completion /\
    head (text_choices completion) = Some text /\
    yielded (Completion_execute instruct (completing hello_text) text_prompt false
               (Some [hi_hello]) empty_world).2
    = yielded empty_world ++ [text] /\
    response_json (response (Completion_execute instruct (completing hello_text) text_prompt
                               false (Some [hi_hello]) empty_world).2)
    = Some (remove_dict_none_values (text_dump completion)).
Proof.
  apply (completion_shows_the_first_choice instruct (completing hello_text) text_prompt false
           (Some [hi_hello]) empty_world).
  vm_compute. reflexivity.
Defined.

(** ** More on the message builder *)

Section MoreMessages.
Variable json_dumps : value -> string.

Lemma with_role_app (role : string) (l1 l2 : list value) :
  with_role role (l1 ++ l2) = with_role role l1 ++ with_role role l2.
Proof. apply filter_app. Qed.

Lemma with_role_tool_messages (results : list ToolResult) :
  with_role "tool" (map tool_message results) = map tool_message results.
Proof.
  induction results as [|r results IH]; [done|]. simpl.
  unfold with_role in *. rewrite filter_cons_True by done. by rewrite IH.
Qed.

Lemma with_role_system_step (current system : option string) :
  with_role "tool" (system_step current system).1 = [].
Proof.
  unfold system_step. destruct system as [[|a s]|]; try done.
  by destruct (differs (String a s) current).
Qed.

Lemma with_role_turn_body (r : PrevResponse) :
  with_role "tool" (turn_body json_dumps r) = map tool_message (p_tool_results (r_prompt r)).
Proof.
  unfold turn_body. rewrite !with_role_app, with_role_tool_messages.
  destruct (r_attachments r), (p_prompt (r_prompt r)) as [[|? ?]|], (r_text r),
    (r_tool_calls r); simpl; by rewrite ?app_nil_r.
Qed.

Lemma with_role_history (responses : list PrevResponse) : forall current,
  with_role "tool" (history_messages json_dumps current responses).1
  = map tool_message (flat_map (fun r => p_tool_results (r_prompt r)) responses).
Proof.
  induction responses as [|r responses IH]; intros current; [done|]. simpl.
  unfold turn_messages.
  pose proof (with_role_system_step current (p_system (r_prompt r))) as Hs.
  destruct (system_step current (p_system (r_prompt r))) as [sys current'].
  specialize (IH current').
  destruct (history_messages json_dumps current' responses) as [ms current''].
  simpl in *. rewrite !with_role_app, Hs, with_role_turn_body, IH, map_app. done.
Qed.

Lemma with_role_prompt_body (prompt : Prompt) :
  with_role "tool" (prompt_body prompt) = map tool_message (p_tool_results prompt).
Proof.
  unfold prompt_body. rewrite with_role_app, with_role_tool_messages.
  destruct (p_attachments prompt), (p_prompt prompt) as [[|? ?]|]; simpl;
    by rewrite ?app_nil_r.
Qed.
End MoreMessages.

(** X12. Every tool result of the conversation and of the prompt is sent
    as one tool message, and the tool messages of the list built are
    these and no others, in the order of the turns, those of the prompt
    last. *)
Theorem build_messages_tool_results (json_dumps : value -> string) (prompt : Prompt)
    (conversation : option (list PrevResponse)) :
  with_role "tool" (build_messages json_dumps prompt conversation)
  = map tool_message (tool_results_of prompt conversation).
Proof.
  unfold build_messages, tool_results_of.
  destruct conversation as [responses|]; simpl.
  - pose proof (with_role_history json_dumps responses None) as Hh.
    destruct (history_messages json_dumps None responses) as [ms current]. simpl in Hh.
    rewrite !with_role_app, Hh, with_role_system_step, with_role_prompt_body, map_app. done.
  - rewrite !with_role_app, with_role_system_step, with_role_prompt_body. done.
Qed.

Section WellFormed.
Variable json_dumps : value -> string.

Lemma well_formed_tool_messages (results : list ToolResult) :
  Forall (fun m => well_formed m = true) (map tool_message results).
Proof. apply Forall_fmap, Forall_forall. by intros r _. Qed.

Lemma well_formed_system_step (current system : option string) :
  Forall (fun m => well_formed m = true) (system_step current system).1.
Proof.
  unfold system_step. destruct system as [[|a s]|]; try done.
  destruct (differs (String a s) current); [|done]. by repeat constructor.
Qed.

Lemma well_formed_attachment_message (text : option string) (a : Attachment)
    (attachments : list Attachment) :
  well_formed (attachment_message text (a :: attachments)) = true.
Proof. by destruct text as [[|? ?]|]. Qed.

Lemma well_formed_turn_body (r : PrevResponse) :
  Forall (fun m => well_formed m = true) (turn_body json_dumps r).
Proof.
  unfold turn_body. repeat apply Forall_app_2.
  - destruct (r_attachments r) as [|a atts].
    + destruct (p_prompt (r_prompt r)) as [[|? ?]|]; by repeat constructor.
    + constructor; [apply well_formed_attachment_message|done].
  - apply well_formed_tool_messages.
  - destruct (r_text r); by repeat constructor.
  - destruct (r_tool_calls r); by repeat constructor.
Qed.

Lemma well_formed_history (responses : list PrevResponse) : forall current,
  Forall (fun m => well_formed m = true) (history_messages json_dumps current responses).1.
Proof.
  induction responses as [|r responses IH]; intros current; [done|]. simpl.
  unfold turn_messages.
  pose proof (well_formed_system_step current (p_system (r_prompt r))) as Hs.
  destruct (system_step current (p_system (r_prompt r))) as [sys current'].
  specialize (IH current').
  destruct (history_messages json_dumps current' responses) as [ms current''].
  cbn [fst] in *.
  apply Forall_app_2; [apply Forall_app_2; [done|apply well_formed_turn_body]|done].
Qed.

Lemma well_formed_prompt_body (prompt : Prompt) :
  Forall (fun m => well_formed m = true) (prompt_body prompt).
Proof.
  unfold prompt_body. apply Forall_app_2; [apply well_formed_tool_messages|].
  destruct (p_attachments prompt) as [|a atts].
  - destruct (p_prompt prompt) as [[|? ?]|]; by repeat constructor.
  - constructor; [apply well_formed_attachment_message|done].
Qed.
End WellFormed.

(** X13. Every message that [build_messages] returns is one the chat
    endpoint takes: a system, user or assistant text is never empty, the
    parts of a user message with attachments are never none, a tool
    message has the id of its call and its output, and an assistant
    message has either a text or a list of tool calls that is not empty,
    never both: the text and the tool calls of one earlier response go
    into two messages. *)
Theorem build_messages_well_formed (json_dumps : value -> string) (prompt : Prompt)
    (conversation : option (list PrevResponse)) :
  forallb well_formed (build_messages json_dumps prompt conversation) = true.
Proof.
  apply forallb_forall. intros m Hm. apply list_elem_of_In in Hm.
  revert m Hm. apply Forall_forall. unfold build_messages.
  destruct conversation as [responses|].
  - pose proof (well_formed_history json_dumps responses None) as Hh.
    destruct (history_messages json_dumps None responses) as [ms current]. simpl in Hh.
    apply Forall_app_2; [done|].
    apply Forall_app_2; [apply well_formed_system_step|apply well_formed_prompt_body].
  - apply Forall_app_2; [done|].
    apply Forall_app_2; [apply well_formed_system_step|apply well_formed_prompt_body].
Qed.

Lemma history_messages_app (json_dumps : value -> string) (l1 l2 : list PrevResponse) :
  forall current,
    history_messages json_dumps current (l1 ++ l2)
    = ((history_messages json_dumps current l1).1
       ++ (history_messages json_dumps (history_messages json_dumps current l1).2 l2).1,
       (history_messages json_dumps (history_messages json_dumps current l1).2 l2).2).
Proof.
  induction l1 as [|r l1 IH]; intros current; simpl.
  - by destruct (history_messages json_dumps current l2).
  - destruct (turn_messages json_dumps current r) as [ms current']. rewrite IH.
    destruct (history_messages json_dumps current' l1) as [ms1 current1]. simpl.
    destruct (history_messages json_dumps current1 l2) as [ms2 current2]. simpl.
    by rewrite app_assoc.
Qed.

Lemma empty_prompt_body (prompt : Prompt) (current : option string) :
  empty_prompt prompt = true ->
  (system_step current (p_system prompt)).1 ++ prompt_body prompt = [].
Proof.
  unfold empty_prompt, system_step, prompt_body.
  destruct (p_system prompt) as [[|? ?]|], (p_tool_results prompt), (p_attachments prompt),
    (p_prompt prompt) as [[|? ?]|]; done.
Qed.

(** X14. A longer history only appends, and what the history
    contributes does not depend on the prompt of the call: the messages
    built for a conversation, whatever the prompt, begin with the
    messages built for any beginning of its history and a prompt that
    brings nothing. *)
Theorem build_messages_history_prefix (json_dumps : value -> string) (nothing prompt : Prompt)
    (responses more : list PrevResponse) :
  empty_prompt nothing = true ->
  build_messages json_dumps nothing (Some responses)
  `prefix_of` build_messages json_dumps prompt (Some (responses ++ more)).
Proof.
  intros Hq. unfold build_messages. rewrite history_messages_app.
  destruct (history_messages json_dumps None responses) as [ms current]. simpl.
  rewrite (empty_prompt_body nothing current Hq), app_nil_r.
  destruct (history_messages json_dumps current more) as [ms' current'].
  simpl. rewrite <- app_assoc. by eexists.
Qed.

Lemma build_messages_history_prefix_witness :
  build_messages dumps_unused silent_prompt (Some [hi_hello])
  `prefix_of` build_messages dumps_unused text_prompt (Some ([hi_hello] ++ [hi_hello])).
Proof.
  apply (build_messages_history_prefix dumps_unused silent_prompt text_prompt [hi_hello]
           [hi_hello]).
  reflexivity.
Defined.

(** X15. With no conversation, [build_messages] returns no message at
    all exactly when the prompt brings nothing: no system text, no tool
    result, no attachment and no text.  And whenever the prompt has a
    text or an attachment, its user message is the last message of the
    list, after the system message and the tool results of the
    prompt. *)
Theorem build_messages_ends_with_the_prompt (json_dumps : value -> string) (prompt : Prompt)
    (conversation : option (list PrevResponse)) :
  no_message (build_messages json_dumps prompt None) = empty_prompt prompt /\
  match prompt_user_message prompt with
  | Some message => last (build_messages json_dumps prompt conversation) = Some message
  | None => True
  end.
Proof.
  split.
  - unfold build_messages, empty_prompt, system_step, prompt_body. simpl.
    destruct (p_system prompt) as [[|? ?]|], (p_tool_results prompt),
      (p_attachments prompt), (p_prompt prompt) as [[|? ?]|]; done.
  - unfold build_messages, prompt_user_message, prompt_body.
    destruct (match conversation with
              | Some responses => history_messages json_dumps None responses
              | None => ([], None)
              end) as [ms current].
    destruct (p_attachments prompt) as [|a atts].
    + destruct (p_prompt prompt) as [[|? ?]|]; [done| |done].
      by rewrite !app_assoc, last_snoc.
    + by rewrite !app_assoc, last_snoc.
Qed.

(** ** Attachments and their redaction *)

Lemma startswith_inv (p s : string) : startswith p s = true -> exists r, s = p +:+ r.
Proof.
  revert s. induction p as [|a p IH]; intros s; [by exists s|].
  destruct s as [|b s]; [done|].
  change (startswith (String a p) (String b s))
    with (if Ascii.eqb a b then startswith p s else false).
  destruct (Ascii.eqb_spec a b) as [<-|]; [|done].
  intros [r ->]%IH. by exists r.
Qed.

Lemma attachment_pdf (attachment : Attachment) :
  is_pdf attachment = true ->
  _attachment attachment
  = VDict [("type", VStr "file");
           ("file", VDict [("filename", VStr (att_id attachment +:+ ".pdf"));
                           ("file_data",
                             VStr ("data:application/pdf;base64,"
                                   +:+ att_base64 attachment))])].
Proof.
  unfold is_pdf, _attachment. intros ->.
  destruct (negb (truthy_str (att_url attachment)) || startswith "audio/" (att_type attachment));
    by destruct (att_base64 attachment).
Qed.

Lemma attachment_audio (attachment : Attachment) :
  is_audio attachment = true ->
  _attachment attachment
  = VDict [("type", VStr "input_audio");
           ("input_audio", VDict [("data", VStr (att_base64 attachment));
                                  ("format", VStr (audio_format attachment))])].
Proof.
  unfold is_audio, _attachment, audio_format. intros Ha. rewrite Ha, orb_true_r.
  apply startswith_inv in Ha as [r ->]. reflexivity.
Qed.

Lemma attachment_image (attachment : Attachment) :
  is_image attachment = true ->
  _attachment attachment
  = VDict [("type", VStr "image_url");
           ("image_url",
             VDict [("url",
                     VStr match att_url attachment with
                          | Some (String a s) => String a s
                          | _ => "data:" +:+ att_type attachment +:+ ";base64,"
                                 +:+ att_base64 attachment
                          end)])].
Proof.
  unfold is_image, _attachment. intros Hi.
  assert (startswith "audio/" (att_type attachment) = false /\
          (att_type attachment =? "application/pdf")%string = false) as [Ha Hp].
  { apply startswith_inv in Hi as [r ->]. by split. }
  rewrite Hi, Ha, Hp. by destruct (att_url attachment) as [[|? ?]|].
Qed.

Lemma attachment_other (attachment : Attachment) :
  is_pdf attachment = false -> is_image attachment = false -> is_audio attachment = false ->
  _attachment attachment
  = VDict [("type", VStr "input_audio");
           ("input_audio",
             VDict [("data", VStr (if truthy_str (att_url attachment) then EmptyString
                                   else att_base64 attachment));
                    ("format", VStr "mp3")])].
Proof.
  unfold is_pdf, is_image, is_audio, _attachment. intros -> -> Ha. rewrite Ha.
  destruct (String.eqb_spec (att_type attachment) "audio/wav") as [E|_].
  { by rewrite E in Ha. }
  by destruct (truthy_str (att_url attachment)).
Qed.

(** X16. The URL of an attachment is used for images only.  A PDF and an
    audio attachment are always sent inline: the part built for them is
    the same whatever the URL, and none.  An image is sent by its URL
    when it has one, and as a data URL made of its type and its base64
    content when it has none. *)
Theorem attachment_url_is_for_images (attachment : Attachment) (url url' : option string) :
  (is_pdf attachment || is_audio attachment = true ->
   _attachment (with_url attachment url) = _attachment (with_url attachment url')) /\
  (is_image attachment = true ->
   _attachment (with_url attachment url)
   = VDict [("type", VStr "image_url");
            ("image_url",
              VDict [("url",
                      VStr match url with
                           | Some (String a s) => String a s
                           | _ => "data:" +:+ att_type attachment +:+ ";base64,"
                                  +:+ att_base64 attachment
                           end)])]).
Proof.
  split.
  - intros [Hp|Ha]%orb_prop.
    + by rewrite !attachment_pdf.
    + by rewrite !attachment_audio.
  - intros Hi. by rewrite attachment_image.
Qed.

Lemma attachment_url_is_for_images_witness :
  _attachment (with_url report (Some "https://example.com/report.pdf"))
  = _attachment (with_url report None).
Proof.
  apply (attachment_url_is_for_images report (Some "https://example.com/report.pdf") None).
  reflexivity.
Defined.

(** X17. An attachment whose type is not a PDF, an image or audio is
    sent as an audio part all the same, in the format [mp3]; and when it
    has a URL its content is never read, so that the part holds no data
    at all. *)
Theorem attachment_of_another_type_is_sent_as_mp3 (attachment : Attachment) :
  is_pdf attachment = false -> is_image attachment = false -> is_audio attachment = false ->
  _attachment attachment
  = VDict [("type", VStr "input_audio");
           ("input_audio",
             VDict [("data", VStr (if truthy_str (att_url attachment) then EmptyString
                                   else att_base64 attachment));
                    ("format", VStr "mp3")])].
Proof. apply attachment_other. Qed.

Lemma attachment_of_another_type_is_sent_as_mp3_witness :
  _attachment clip
  = VDict [("type", VStr "input_audio");
           ("input_audio", VDict [("data", VStr EmptyString); ("format", VStr "mp3")])].
Proof.
  apply (attachment_of_another_type_is_sent_as_mp3 clip); reflexivity.
Defined.

(** X18. What redaction makes of the part built for an attachment.  The
    file part of a PDF is kept whole, base64 data included: the redactor
    knows [image_url] and [input_audio] only.  The part of an image sent
    by a URL that is not a data URL is kept as it is, and the URL of any
    other image part becomes the placeholder.  The data of every other
    part becomes the audio placeholder, its format being kept. *)
Theorem redacted_attachment (attachment : Attachment) :
  redact (_attachment attachment)
  = Ok (if is_pdf attachment then _attachment attachment
        else if is_image attachment then
          match att_url attachment with
          | Some (String a s) =>
              if is_data_url (String a s)
              then VDict [("type", VStr "image_url");
                          ("image_url", VDict [("url", VStr DATA_PLACEHOLDER)])]
              else _attachment attachment
          | _ => VDict [("type", VStr "image_url");
                        ("image_url", VDict [("url", VStr DATA_PLACEHOLDER)])]
          end
        else VDict [("type", VStr "input_audio");
                    ("input_audio",
                      VDict [("data", VStr AUDIO_PLACEHOLDER);
                             ("format", VStr (if is_audio attachment
                                              then audio_format attachment else "mp3"))])]).
Proof.
  destruct (is_pdf attachment) eqn:Hp; [by rewrite attachment_pdf|].
  destruct (is_image attachment) eqn:Hi.
  - rewrite attachment_image by done.
    destruct (att_url attachment) as [[|a s]|]; simpl.
    + done.
    + unfold redact_entry, is_data_url. simpl.
      by destruct (startswith "data:" (String a s)).
    + done.
  - destruct (is_audio attachment) eqn:Ha.
    + by rewrite attachment_audio.
    + by rewrite attachment_other.
Qed.

(** X19. [redact_data] works in place.  Run on a structure that has
    just been built, with room on the stack for its depth, it creates
    no object, leaves every object
    that was there before the structure untouched, and rewrites the
    objects of the structure so that it reads as the redacted tree,
    whenever that redaction does not raise. *)
Theorem redact_data_in_place (t t' : value) (h : heap) (n : nat) :
  (depth t < n)%nat -> redact t = Ok t' ->
  exists h',
    redact_data n (alloc t h).1 (alloc t h).2 = Ok h' /\
    length h' = length (alloc t h).2 /\
    (forall l, (l < length h)%nat -> h' !! l = h !! l) /\
    reads h' (alloc t h).1 t'.
Proof.
  intros Hd Hr. rewrite alloc_layout. cbn [fst snd].
  destruct (redact_data_refines t n t' h [] Hd Hr) as (d' & Hlen & Hrun & Hreads).
  rewrite !app_nil_r in Hrun. exists (h ++ d'). split; [done|].
  split; [by rewrite !length_app, Hlen|]. split.
  - intros l Hl. by apply lookup_app_l.
  - apply Hreads. pose proof (seg_at_app h d' []) as H. by rewrite app_nil_r in H.
Qed.

Lemma redact_data_in_place_witness :
  exists h',
    redact_data 3 (alloc image_part []).1 (alloc image_part []).2 = Ok h' /\
    length h' = length (alloc image_part []).2 /\
    (forall l, (l < length ([] : heap))%nat -> h' !! l = ([] : heap) !! l) /\
    reads h' (alloc image_part []).1 image_part_redacted.
Proof.
  apply (redact_data_in_place image_part image_part_redacted [] 3).
  - simpl. lia.
  - reflexivity.
Defined.

Section PlainMessages.
Variable json_dumps : value -> string.

Lemma mapM_redact_plain (l : list value) :
  Forall (fun x => plain x = true -> redact x = Ok x) l ->
  forallb plain l = true -> mapM redact l = Ok l.
Proof.
  induction 1 as [|x l Hx Hl IH]; [done|]. simpl.
  intros [Hpx Hpl]%andb_prop. by rewrite (Hx Hpx), (IH Hpl).
Qed.

Lemma redact_plain (x : value) : plain x = true -> redact x = Ok x.
Proof.
  induction x as [a|l IH|d IH] using value_nested_ind; [done| |].
  - intros Hp. rewrite redact_list, mapM_redact_plain; done.
  - intros Hp. rewrite redact_dict.
    assert (mapM (fun kx => x' ← redact_entry redact kx.1 kx.2; mret (kx.1, x')) d = Ok d)
      as ->; [|done].
    simpl in Hp. induction IH as [|[k x] d Hx Hd IHd]; [done|]. simpl in *.
    apply andb_prop in Hp as [[[Hi Ha]%andb_prop Hpx]%andb_prop Hpd].
    apply negb_true_iff in Hi, Ha.
    rewrite redact_entry_plain, (Hx Hpx); [|by intros ->..]. simpl.
    by rewrite (IHd Hpd).
Qed.

Lemma plain_tool_messages (results : list ToolResult) :
  forallb plain (map tool_message results) = true.
Proof.
  induction results as [|r results IH]; [done|]. simpl. rewrite IH.
  by destruct (tr_tool_call_id r).
Qed.

Lemma plain_tool_calls_message (tcs : list ToolCall) :
  plain (tool_calls_message json_dumps tcs) = true.
Proof.
  unfold tool_calls_message. simpl. rewrite !andb_true_r.
  induction tcs as [|tc tcs IH]; [done|]. simpl. rewrite IH.
  by destruct (tc_tool_call_id tc), (tc_name tc).
Qed.

Lemma plain_system_step (current system : option string) :
  forallb plain (system_step current system).1 = true.
Proof.
  unfold system_step. destruct system as [[|a s]|]; try done.
  by destruct (differs (String a s) current).
Qed.

Lemma plain_turn_body (r : PrevResponse) :
  r_attachments r = [] -> forallb plain (turn_body json_dumps r) = true.
Proof.
  unfold turn_body. intros ->. rewrite !forallb_app, plain_tool_messages.
  assert (forallb plain match r_tool_calls r with
                        | _ :: _ => [tool_calls_message json_dumps (r_tool_calls r)]
                        | [] => []
                        end = true) as ->.
  { destruct (r_tool_calls r); [done|]. cbn [forallb]. by rewrite plain_tool_calls_message. }
  by destruct (p_prompt (r_prompt r)) as [[|? ?]|], (r_text r).
Qed.

Lemma plain_history (responses : list PrevResponse) : forall current,
  forallb (fun r => match r_attachments r with [] => true | _ => false end) responses = true ->
  forallb plain (history_messages json_dumps current responses).1 = true.
Proof.
  induction responses as [|r responses IH]; intros current; [done|]. simpl.
  intros [Hr Hrs]%andb_prop. unfold turn_messages.
  pose proof (plain_system_step current (p_system (r_prompt r))) as Hs.
  destruct (system_step current (p_system (r_prompt r))) as [sys current'].
  specialize (IH current' Hrs).
  destruct (history_messages json_dumps current' responses) as [ms current''].
  cbn [fst] in *. rewrite !forallb_app, Hs, IH, plain_turn_body; [done|].
  by destruct (r_attachments r).
Qed.

Lemma plain_build_messages (prompt : Prompt) (conversation : option (list PrevResponse)) :
  no_attachments prompt conversation = true ->
  plain (VList (build_messages json_dumps prompt conversation)) = true.
Proof.
  unfold no_attachments. intros [Hp Hc]%andb_prop. simpl. unfold build_messages.
  assert (forallb plain (prompt_body prompt) = true) as Hb.
  { unfold prompt_body. rewrite forallb_app, plain_tool_messages.
    destruct (p_attachments prompt); [|done]. by destruct (p_prompt prompt) as [[|? ?]|]. }
  destruct conversation as [responses|]; simpl in Hc.
  - pose proof (plain_history responses None Hc) as Hh.
    destruct (history_messages json_dumps None responses) as [ms current]. simpl in Hh.
    by rewrite !forallb_app, Hh, plain_system_step, Hb.
  - by rewrite !forallb_app, plain_system_step, Hb.
Qed.
End PlainMessages.

(** X20. A chat request that carries no attachment, in the prompt or in
    the history, is recorded exactly as it was sent: redaction returns
    the message list unchanged, whatever the texts hold, and after a
    call that completes, synchronous or not, the request kept on the
    response reads as the very messages the endpoint received. *)
Theorem request_without_attachments_is_recorded_as_sent (f : flavour)
    (json_dumps : value -> string) (self : Model) (transport : Transport) (prompt : Prompt)
    (stream : bool) (conversation : option (list PrevResponse)) (w w' : world) :
  no_attachments prompt conversation = true ->
  redact (VList (build_messages json_dumps prompt conversation))
  = Ok (VList (build_messages json_dumps prompt conversation)) /\
  (chat_execute f json_dumps self transport prompt stream conversation w = (Ok tt, w') ->
   exists request messages,
     _prompt_json (response w') = Some (Ref request) /\
     store w' !! request = Some (ODict [("messages", messages)]) /\
     reads (store w') messages (VList (build_messages json_dumps prompt conversation))).
Proof.
  intros Hn.
  assert (redact (VList (build_messages json_dumps prompt conversation))
          = Ok (VList (build_messages json_dumps prompt conversation))) as Hr.
  { by apply redact_plain, plain_build_messages. }
  split; [done|]. intros H. apply either_flavour_Ok in H.
  destruct (Chat_execute_Ok json_dumps self transport prompt stream conversation w w' _
              eq_refl H) as (redacted & d' & Hr' & Hlen & Hreads & Hs & Hp & Hc).
  rewrite Hr in Hr'. injection Hr' as <-.
  eexists _, _. split; [exact Hp|]. rewrite Hs. split; [apply lookup_segment_end|].
  apply Hreads, seg_at_app.
Qed.

Lemma request_without_attachments_is_recorded_as_sent_witness :
  redact (VList (build_messages dumps_unused text_prompt (Some [hi_hello])))
  = Ok (VList (build_messages dumps_unused text_prompt (Some [hi_hello]))).
Proof.
  apply (request_without_attachments_is_recorded_as_sent Synchronous dumps_unused gpt_4o
           (streaming hello_stream) text_prompt true (Some [hi_hello]) empty_world
           empty_world).
  reflexivity.
Defined.

(** ** [redact_data] on a fresh structure whose redaction raises *)

Local Open Scope nat_scope.

(** the cases of one loop turn that raises *)
Lemma redact_entry_Err_cases (rec : value -> result value) key x e :
  redact_entry rec key x = Err e ->
  (key = "image_url" /\ e = AttributeError /\
   exists d v, x = VDict d /\ dict_get "url" d = Some v /\ forall u, v <> VStr u)
  \/
  (rec x = Err e /\
   (key = "image_url" ->
    forall d, x = VDict d ->
      dict_get "url" d = None \/
      exists u, dict_get "url" d = Some (VStr u) /\ startswith "data:" u = false) /\
   (key = "input_audio" -> forall d, x = VDict d -> dict_mem "data" d = false)).
Proof.
  unfold redact_entry.
  destruct (String.eqb_spec key "image_url") as [->|Hi]; simpl.
  - destruct x as [a|l|d]; try (intros H; right; split; [done|split; [|done]]; by intros).
    destruct (dict_get "url" d) as [[[| | | |u]| |]|] eqn:Hu;
      try (intros [= <-]; left; split; [done|]; split; [done|]; eexists _, _;
           split; [done|]; split; [done|]; by intros).
    + destruct (startswith "data:" u) eqn:Hs; [done|].
      intros H. right. split; [done|]. split; [|done].
      intros _ d' [= <-]. right. eauto.
    + intros H. right. split; [done|]. split; [|done].
      intros _ d' [= <-]. by left.
  - destruct (String.eqb_spec key "input_audio") as [->|Ha]; simpl.
    + destruct x as [a|l|d]; try (intros H; right; split; [done|split; [done|]]; by intros).
      destruct (dict_mem "data" d) eqn:Hm; [done|].
      intros H. right. split; [done|]. split; [done|]. by intros _ d' [= <-].
    + intros H. right. done.
Qed.

(** what a fresh dict holds under a key: an atom as it is, a list or a
    dict by reference *)
Lemma layout_entries_get (kts : list (string * value)) (k : string) (t : value) :
  forall base,
    dict_get k kts = Some t ->
    exists v, dict_get k (layout_all layout_entry base kts).1 = Some v /\
              match t with
              | VAtom a => v = Imm a
              | _ => exists l, v = Ref l
              end.
Proof.
  induction kts as [|[k0 t0] kts IH]; intros base; simpl; [done|].
  destruct (layout base t0) as [v d] eqn:Hl. specialize (IH (base + length d)%nat).
  destruct (layout_all layout_entry (base + length d) kts) as [kvs D]. simpl in *.
  destruct (String.eqb k0 k); [|done]. intros [= ->]. exists v. split; [done|].
  destruct t as [a|l|dt]; simpl in Hl.
  - by injection Hl as <- _.
  - destruct (layout_all layout base l). injection Hl as <- _. eauto.
  - destruct (layout_all layout_entry base dt). injection Hl as <- _. eauto.
Qed.

Lemma redact_step_fails (n : nat) (key : string) (t : value) (e : exn)
    (pre post : list obj) :
  fails_at n t -> (depth t < n)%nat ->
  redact_entry redact key t = Err e ->
  redact_step (redact_data n) key (layout (length pre) t).1
    (pre ++ (layout (length pre) t).2 ++ post)
  = Err e.
Proof.
  intros IH Hdepth H.
  destruct (redact_entry_Err_cases _ _ _ _ H)
    as [(-> & -> & dt & v & -> & Hu & Hv)|(Hr & Hi & Ha)].
  - unfold redact_step. rewrite heap_dict_layout. simpl.
    destruct (layout_entries_get dt "url" v (length pre) Hu) as (v' & -> & Hv').
    destruct v as [[| | | |u]|items|items].
    1-4: by subst v'.
    + by destruct (Hv u).
    + by destruct Hv' as [l ->].
    + by destruct Hv' as [l ->].
  - assert (redact_step (redact_data n) key (layout (length pre) t).1
              (pre ++ (layout (length pre) t).2 ++ post)
            = redact_data n (layout (length pre) t).1
                (pre ++ (layout (length pre) t).2 ++ post)) as ->; [|by apply IH].
    unfold redact_step. rewrite heap_dict_layout.
    destruct (String.eqb_spec key "image_url") as [->|Hne]; simpl.
    + destruct t as [a|l|dt]; try done.
      destruct (Hi eq_refl dt eq_refl) as [Hn|(u & Hu & Hs)].
      * by rewrite (dict_get_none_keys _ _ _ (layout_entries_keys dt (length pre)) Hn).
      * by rewrite (layout_entries_atom _ _ _ _ Hu), Hs.
    + destruct (String.eqb_spec key "input_audio") as [->|Hne']; simpl; [|done].
      destruct t as [a|l|dt]; try done.
      by rewrite (dict_get_keys "data" _ _ (layout_entries_keys dt (length pre))),
        (Ha eq_refl dt eq_refl).
Qed.

Lemma list_loop_fails (n : nat) (ts : list value) :
  Forall (fails_at n) ts ->
  forall e pre post,
    Forall (fun t => depth t < n) ts ->
    mapM redact ts = Err e ->
    list_loop (redact_data n) (layout_all layout (length pre) ts).1
      (pre ++ (layout_all layout (length pre) ts).2 ++ post)
    = Err e.
Proof.
  induction 1 as [|t ts Ht Hts IH]; intros e pre post Hd Hm; [done|].
  inversion Hd as [|?? Hdt Hds]; subst.
  simpl in Hm |- *. unfold mbind, result_bind in Hm.
  destruct (redact t) as [t'|e'] eqn:Hr.
  - destruct (mapM redact ts) as [ts'|e''] eqn:Hrs; [done|]. injection Hm as ->.
    destruct (redact_data_refines t n t' pre
                ((layout_all layout (length pre + length (layout (length pre) t).2) ts).2
                 ++ post) Hdt Hr) as (d' & Hlen & Hrun & Hreads).
    specialize (IH e (pre ++ d') post Hds eq_refl).
    rewrite length_app, Hlen in IH.
    destruct (layout (length pre) t) as [v d]. simpl in *.
    destruct (layout_all layout (length pre + length d) ts) as [vs D]. simpl in *.
    rewrite <- !app_assoc. rewrite Hrun. simpl.
    rewrite <- !app_assoc in IH. exact IH.
  - injection Hm as ->.
    specialize (Ht e pre
                  ((layout_all layout (length pre + length (layout (length pre) t).2) ts).2
                   ++ post) Hdt Hr).
    destruct (layout (length pre) t) as [v d]. simpl in *.
    destruct (layout_all layout (length pre + length d) ts) as [vs D]. simpl in *.
    rewrite <- !app_assoc. by rewrite Ht.
Qed.

Lemma dict_loop_fails (n : nat) (kts : list (string * value)) :
  Forall (fun kt => fails_at n kt.2) kts ->
  forall e pre post seen l,
    Forall (fun kt => depth kt.2 < n) kts ->
    mapM (fun kx => x' ← redact_entry redact kx.1 kx.2; mret (kx.1, x')) kts = Err e ->
    (forall D', length D' = length (layout_all layout_entry (length pre) kts).2 ->
                (pre ++ D' ++ post) !! l
                = Some (ODict (seen ++ (layout_all layout_entry (length pre) kts).1))) ->
    dict_loop (redact_data n) l (length seen)
      (length (layout_all layout_entry (length pre) kts).1)
      (pre ++ (layout_all layout_entry (length pre) kts).2 ++ post)
    = Err e.
Proof.
  induction 1 as [|[k t] kts Ht Hts IH]; intros e pre post seen l Hd Hm Hl; [done|].
  inversion Hd as [|?? Hdt Hds]; subst. simpl in Hdt, Ht.
  simpl in Hm. unfold mbind, result_bind, mret, result_ret in Hm.
  specialize (Hl ((layout (length pre) t).2
                  ++ (layout_all layout_entry
                        (length pre + length (layout (length pre) t).2) kts).2)) as Hl0.
  destruct (redact_entry redact k t) as [t'|e'] eqn:Hr.
  - destruct (mapM _ kts) as [kts'|e''] eqn:Hrs; [done|]. injection Hm as ->.
    destruct (redact_step_layout n k t t' pre
                ((layout_all layout_entry (length pre + length (layout (length pre) t).2)
                    kts).2 ++ post) (redact_data_refines t n) Hdt Hr)
      as (d' & Hlen & Hrun & Hreads).
    specialize (IH e (pre ++ d') post (seen ++ [(k, (layout (length pre) t).1)]) l Hds).
    rewrite length_app, Hlen in IH.
    simpl in Hl, Hl0 |- *. destruct (layout (length pre) t) as [v d]. simpl in *.
    destruct (layout_all layout_entry (length pre + length d) kts) as [kvs D]. simpl in *.
    rewrite Hl0 by done. rewrite list_lookup_middle by done.
    rewrite <- !app_assoc. rewrite Hrun. simpl.
    rewrite length_app in IH. simpl in IH.
    replace (length seen + 1) with (S (length seen)) in IH by lia.
    rewrite <- !app_assoc in IH. apply IH; [done|].
    intros D' HD'. rewrite <- !app_assoc. simpl.
    specialize (Hl (d' ++ D')). rewrite <- !app_assoc in Hl. apply Hl.
    rewrite !length_app. lia.
  - injection Hm as ->.
    pose proof (redact_step_fails n k t e pre
                  ((layout_all layout_entry (length pre + length (layout (length pre) t).2)
                      kts).2 ++ post) Ht Hdt Hr) as Hrun.
    simpl in Hl, Hl0 |- *. destruct (layout (length pre) t) as [v d]. simpl in *.
    destruct (layout_all layout_entry (length pre + length d) kts) as [kvs D]. simpl in *.
    rewrite Hl0 by done. rewrite list_lookup_middle by done.
    rewrite <- !app_assoc. by rewrite Hrun.
Qed.

(** Run on a fresh structure with room for its depth, [redact_data]
    raises what the redaction of the tree raises. *)
Lemma redact_data_fails (t : value) : forall n, fails_at n t.
Proof.
  induction t as [a|l IH|d IH] using value_nested_ind; intros n e pre post Hdepth Hr.
  - done.
  - destruct n as [|n]; [lia|]. simpl in Hdepth.
    rewrite redact_list in Hr.
    destruct (mapM redact l) as [l'|e'] eqn:Hl; [done|]. injection Hr as ->.
    pose proof (list_loop_fails n l (Forall_impl _ _ _ IH (fun t H => H n)) e pre
                  ([OList (layout_all layout (length pre) l).1] ++ post)
                  (max_list_bound depth l n ltac:(lia)) Hl) as HRun.
    simpl. destruct (layout_all layout (length pre) l) as [vs D]. simpl in *.
    rewrite lookup_segment_last. rewrite <- !app_assoc. simpl. exact HRun.
  - destruct n as [|n]; [lia|]. simpl in Hdepth.
    rewrite redact_dict in Hr.
    destruct (mapM _ d) as [d'|e'] eqn:Hd; [done|]. injection Hr as ->.
    assert (dict_loop (redact_data n)
              (length pre + length (layout_all layout_entry (length pre) d).2)
              (length ([] : list (string * val)))
              (length (layout_all layout_entry (length pre) d).1)
              (pre ++ (layout_all layout_entry (length pre) d).2
               ++ [ODict (layout_all layout_entry (length pre) d).1] ++ post)
            = Err e) as HRun.
    { apply (dict_loop_fails n d (Forall_impl _ _ _ IH (fun t H => H n)) e pre
               ([ODict (layout_all layout_entry (length pre) d).1] ++ post) []
               (length pre + length (layout_all layout_entry (length pre) d).2)
               (max_list_bound_entries d n ltac:(lia)) Hd).
      intros D' HD'. rewrite <- HD'. rewrite (app_assoc D').
      apply lookup_segment_last. }
    simpl. destruct (layout_all layout_entry (length pre) d) as [kvs D]. simpl in *.
    rewrite lookup_segment_last. rewrite <- !app_assoc. simpl. exact HRun.
Qed.

Lemma redact_raises (t : value) : forall e, redact t = Err e -> e = AttributeError.
Proof.
  induction t as [a|l IH|d IH] using value_nested_ind; intros e; [done| |].
  - rewrite redact_list. destruct (mapM redact l) as [l'|e'] eqn:Hl; [done|].
    intros [= ->]. clear -IH Hl. revert e Hl. induction IH as [|t ts Ht _ IHts]; [done|].
    simpl. unfold mbind, result_bind. intros e.
    destruct (redact t) as [t'|e'] eqn:Hr; [|intros [= ->]; by apply Ht].
    destruct (mapM redact ts) as [ts'|e'']; [done|]. intros [= ->]. by apply IHts.
  - rewrite redact_dict. destruct (mapM _ d) as [d'|e'] eqn:Hd; [done|].
    intros [= ->]. clear -IH Hd. revert e Hd. induction IH as [|[k t] kts Ht _ IHts]; [done|].
    simpl. unfold mbind, result_bind, mret, result_ret. intros e.
    destruct (redact_entry redact k t) as [t'|e'] eqn:Hr.
    + destruct (mapM _ kts) as [kts'|e'']; [done|]. intros [= ->]. by apply IHts.
    + intros [= ->].
      destruct (redact_entry_Err_cases _ _ _ _ Hr) as [(_ & -> & _)|(Hr' & _)]; [done|].
      by apply Ht.
Qed.

Local Close Scope nat_scope.

(** X21. The in-place redactor and the redaction of the tree succeed and
    raise together.  Run on a structure that has just been built, with
    room on the stack for its depth, [redact_data] either completes and
    leaves a structure that reads as the redacted tree, or raises an
    [AttributeError], and no other exception, as the redaction of the
    tree then does.  An [image_url] entry holding a dict whose [url] is
    not a string (a null, a number, a list), on which [startswith] is
    not defined, makes it raise. *)
Theorem redact_data_raises_only_attribute_errors (t : value) (h : heap) (n : nat) :
  (depth t < n)%nat ->
  match redact_data n (alloc t h).1 (alloc t h).2 with
  | Ok h' => exists t', redact t = Ok t' /\ reads h' (alloc t h).1 t'
  | Err e => e = AttributeError /\ redact t = Err AttributeError
  end /\
  (forall d v,
     dict_get "url" d = Some v -> (forall u, v <> VStr u) ->
     redact (VDict [("image_url", VDict d)]) = Err AttributeError).
Proof.
  intros Hd. split.
  - rewrite alloc_layout. cbn [fst snd].
    destruct (redact t) as [t'|e] eqn:Hr.
    + destruct (redact_data_refines t n t' h [] Hd Hr) as (d' & Hlen & Hrun & Hreads).
      rewrite !app_nil_r in Hrun. rewrite Hrun. exists t'. split; [done|].
      apply Hreads. pose proof (seg_at_app h d' []) as H. by rewrite app_nil_r in H.
    + pose proof (redact_data_fails t n e h [] Hd Hr) as Hrun.
      rewrite !app_nil_r in Hrun. rewrite Hrun.
      apply redact_raises in Hr as ->. done.
  - intros d v Hu Hv. rewrite redact_dict. simpl. unfold redact_entry. simpl. rewrite Hu.
    destruct v as [[| | | |u]| |]; try done. by destruct (Hv u).
Qed.

Lemma redact_data_raises_only_attribute_errors_witness :
  match redact_data 3 (alloc image_part_without_url []).1
          (alloc image_part_without_url []).2 with
  | Ok h' => exists t', redact image_part_without_url = Ok t' /\
                        reads h' (alloc image_part_without_url []).1 t'
  | Err e => e = AttributeError /\ redact image_part_without_url = Err AttributeError
  end.
Proof.
  apply (redact_data_raises_only_attribute_errors image_part_without_url [] 3).
  simpl. lia.
Defined.

(** ** The validator of [logit_bias] *)

Example validate_sample :
  validate_logit_bias ascii_int no_floats
    (BiasText ("{" +:+ quoted "1712" +:+ ": -100, " +:+ quoted "892" +:+ ": 100}"))
  = Valid (Some [(1712, -100); (892, 100)]).
Proof. vm_compute. reflexivity. Qed.

Section Validator.
Variable int_of_str : string -> option Z.
Variable int_of_float : string -> outcome Z.

Lemma validate_item_Valid (validated validated' : list (Z * Z)) (key : atom) (x : value) :
  validate_item int_of_str int_of_float validated key x = Valid validated' ->
  exists int_key int_value,
    int int_of_str int_of_float (VAtom key) = Valid int_key /\
    int int_of_str int_of_float x = Valid int_value /\
    -100 <= int_value <= 100 /\
    validated' = int_set int_key int_value validated.
Proof.
  unfold validate_item, except_value_error, mbind, outcome_bind.
  destruct (int int_of_str int_of_float (VAtom key)) as [int_key|[m| |e]]; try done.
  destruct (int int_of_str int_of_float x) as [int_value|[m| |e]]; try done.
  destruct (-100 <=? int_value) eqn:Hlo; [|done].
  destruct (int_value <=? 100) eqn:Hhi; [|done]. simpl.
  intros [= <-]. exists int_key, int_value. repeat split; try done; lia.
Qed.



Lemma int_set_range (k v : Z) (d : list (Z * Z)) :
  -100 <= v <= 100 ->
  Forall (fun kv => -100 <= kv.2 <= 100) d ->
  Forall (fun kv => -100 <= kv.2 <= 100) (int_set k v d).
Proof.
  intros Hv. induction 1 as [|[k' v'] d Hkv Hd IH]; simpl.
  - constructor; [done|constructor].
  - destruct (k' =? k); by constructor.
Qed.

Lemma int_set_keys (k v : Z) (d : list (Z * Z)) :
  map fst (int_set k v d) = if decide (k ∈ map fst d) then map fst d else map fst d ++ [k].
Proof.
  induction d as [|[k' v'] d IH]; simpl; [done|].
  destruct (Z.eqb_spec k' k) as [->|Hne]; simpl.
  - rewrite decide_True; [done|]. apply elem_of_cons. by left.
  - rewrite IH. destruct (decide (k ∈ map fst d)) as [Hin|Hout].
    + rewrite decide_True; [done|]. apply elem_of_cons. by right.
    + rewrite decide_False; [done|]. rewrite elem_of_cons. intros [?|?]; congruence.
Qed.

Lemma int_set_NoDup (k v : Z) (d : list (Z * Z)) :
  NoDup (map fst d) -> NoDup (map fst (int_set k v d)).
Proof.
  intros Hd. rewrite int_set_keys. destruct (decide (k ∈ map fst d)); [done|].
  apply NoDup_app. split; [done|]. split; [|apply NoDup_singleton].
  intros x Hx [->|[]%elem_of_nil]%elem_of_cons. done.
Qed.

Lemma validate_items_Valid (items : list (atom * value)) :
  forall validated validated',
    validate_items int_of_str int_of_float validated items = Valid validated' ->
    Forall (fun kv => -100 <= kv.2 <= 100) validated -> NoDup (map fst validated) ->
    Forall (fun kv => -100 <= kv.2 <= 100) validated' /\ NoDup (map fst validated').
Proof.
  induction items as [|[key x] items IH]; intros validated validated'.
  - by intros [= <-].
  - simpl. unfold mbind, outcome_bind.
    destruct (validate_item _ _ validated key x) as [d|e] eqn:Hi; [|done].
    apply validate_item_Valid in Hi as (int_key & int_value & _ & _ & Hr & ->).
    intros H Hf Hn. apply (IH _ _ H); [by apply int_set_range|by apply int_set_NoDup].
Qed.

Lemma int_set_fresh (k v : Z) (d : list (Z * Z)) :
  k ∉ map fst d -> int_set k v d = d ++ [(k, v)].
Proof.
  induction d as [|[k' v'] d IH]; simpl; [done|].
  rewrite not_elem_of_cons. intros [Hne Hout].
  destruct (Z.eqb_spec k' k); [congruence|]. by rewrite IH.
Qed.

Lemma validate_items_again (d : list (Z * Z)) :
  forall validated,
    Forall (fun kv => -100 <= kv.2 <= 100) d -> NoDup (map fst (validated ++ d)) ->
    validate_items int_of_str int_of_float validated
      (map (fun kv => (AInt kv.1, VInt kv.2)) d)
    = Valid (validated ++ d).
Proof.
  induction d as [|[k v] d IH]; intros validated Hr Hn.
  - by rewrite app_nil_r.
  - inversion Hr as [|?? Hv Hd]; subst. simpl in Hv |- *.
    unfold validate_item, except_value_error, mbind at 2 3, outcome_bind. simpl.
    assert ((-100 <=? v) && (v <=? 100) = true) as ->.
    { apply andb_true_intro. split; lia. }
    unfold mbind, outcome_bind. rewrite int_set_fresh.
    + rewrite IH; [by rewrite <- app_assoc|done|by rewrite <- app_assoc].
    + rewrite map_app in Hn. apply NoDup_app in Hn as (_ & Hn & _).
      intros Hin. apply (Hn k Hin). simpl. apply elem_of_cons. by left.
Qed.
End Validator.

(** X22. Whatever [int] makes of strings and floats, a bias map that
    [validate_logit_bias] accepts, given as a dict or as JSON text, comes
    back with integer keys that are all different and with integer
    values that all lie between -100 and 100; and the validated map is
    a fixed point: given again as the value of [logit_bias], it is
    accepted and returned as it is. *)
Theorem validated_logit_bias_is_in_range (int_of_str : string -> option Z)
    (int_of_float : string -> outcome Z) (logit_bias : LogitBias)
    (validated : list (Z * Z)) :
  validate_logit_bias int_of_str int_of_float logit_bias = Valid (Some validated) ->
  Forall (fun kv => -100 <= kv.2 <= 100) validated /\
  NoDup (map fst validated) /\
  validate_logit_bias int_of_str int_of_float (as_bias validated) = Valid (Some validated).
Proof.
  intros H.
  assert (Forall (fun kv => -100 <= kv.2 <= 100) validated /\ NoDup (map fst validated))
    as [Hr Hn].
  { destruct logit_bias as [|text|items]; simpl in H; [done| |].
    - destruct (Json.loads text) as [v|]; [|done].
      destruct (items_of v) as [items|]; [|done]. simpl in H.
      destruct (validate_items _ _ [] items) as [d|] eqn:Hv; [|done].
      injection H as <-. apply (validate_items_Valid _ _ _ _ _ Hv); constructor.
    - destruct (validate_items _ _ [] items) as [d|] eqn:Hv; [|done].
      injection H as <-. apply (validate_items_Valid _ _ _ _ _ Hv); constructor. }
  split; [done|]. split; [done|].
  unfold as_bias. simpl. by rewrite (validate_items_again _ _ validated []).
Qed.

Lemma validated_logit_bias_is_in_range_witness :
  Forall (fun kv => -100 <= kv.2 <= 100) [(1712, -100); (892, 100)] /\
  NoDup (map fst [(1712, -100); (892, 100)]) /\
  validate_logit_bias ascii_int no_floats (as_bias [(1712, -100); (892, 100)])
  = Valid (Some [(1712, -100); (892, 100)]).
Proof.
  apply (validated_logit_bias_is_in_range ascii_int no_floats
           (BiasDict [(AStr "1712", VInt (-100)); (AInt 892, VStr "100")])).
  vm_compute. reflexivity.
Defined.



(** ** Models, their attachment types and their clients *)

(** X24. Every attachment type that [_Shared.__init__] lets a model
    accept has a branch of its own in [_attachment]: it is a PDF or an
    image, accepted by vision models only, or it is audio, accepted by
    audio models only, and then the format named is right for it,
    [wav] for [audio/wav] and [mp3] for [audio/mpeg].  So the part of
    an accepted attachment is never built by the fallback for unknown
    types, and a model with neither vision nor audio accepts nothing. *)
Theorem accepted_types_have_their_own_part (vision audio : bool) (attachment : Attachment) :
  att_type attachment ∈ init_attachment_types vision audio ->
  (vision = true /\ is_pdf attachment || is_image attachment = true) \/
  (audio = true /\ is_audio attachment = true /\
   ((att_type attachment = "audio/wav" /\ audio_format attachment = "wav") \/
    (att_type attachment = "audio/mpeg" /\ audio_format attachment = "mp3"))).
Proof.
  unfold init_attachment_types, is_pdf, is_image, is_audio, audio_format.
  rewrite elem_of_app. intros [Hv|Ha].
  - left. destruct vision; [|by apply elem_of_nil in Hv]. split; [done|].
    unfold vision_types in Hv. rewrite !elem_of_cons, elem_of_nil in Hv.
    destruct Hv as [->|[->|[->|[->|[->|[]]]]]]; reflexivity.
  - right. destruct audio; [|by apply elem_of_nil in Ha]. split; [done|].
    unfold audio_types in Ha. rewrite !elem_of_cons, elem_of_nil in Ha.
    destruct Ha as [->|[->|[]]]; (split; [reflexivity|]); [left|right]; by split.
Qed.

Lemma accepted_types_have_their_own_part_witness :
  (false = true /\ is_pdf wave || is_image wave = true) \/
  (true = true /\ is_audio wave = true /\
   ((att_type wave = "audio/wav" /\ audio_format wave = "wav") \/
    (att_type wave = "audio/mpeg" /\ audio_format wave = "mp3"))).
Proof.
  apply (accepted_types_have_their_own_part false true wave).
  apply list_elem_of_In. simpl. tauto.
Defined.

Section Clients.
Variable get_key : value -> result value.
Variable show_responses : option string.

End Clients.




Lemma register_each_app (good : list value) (made : list Registration)
    (rest : list value) :
  mapM extra_model_registration good = Ok made ->
  register_each (good ++ rest) = (made ++ (register_each rest).1, (register_each rest).2).
Proof.
  revert made. induction good as [|entry good IH]; intros made.
  - intros [= <-]. simpl. by destruct (register_each rest).
  - simpl. unfold mbind, result_bind.
    destruct (extra_model_registration entry) as [registration|]; [|done].
    destruct (mapM extra_model_registration good) as [made'|]; [|done].
    intros [= <-]. rewrite (IH made' eq_refl). done.
Qed.

(** X26. How the extra models are read.  A file that holds nothing
    ([yaml.safe_load] returns [None]) raises a [TypeError], and so does
    an entry that is not a dict.  An entry must have [model_id] and [model_name]: the first of
    the two that is missing raises a [KeyError].  The entries are
    registered in order, one by one: those before an entry that raises
    have been registered when the exception leaves, those after never
    are; and when no entry raises, every entry is registered. *)
Theorem extra_models_are_registered_up_to_the_first_error :
  register_extra_models VNone = ([], Some TypeError) /\
  (forall entry,
     dict_mem "model_id" entry = false ->
     extra_model_registration (VDict entry) = Err (KeyError "model_id")) /\
  (forall entry,
     dict_mem "model_id" entry = true -> dict_mem "model_name" entry = false ->
     extra_model_registration (VDict entry) = Err (KeyError "model_name")) /\
  (forall entry,
     (forall d, entry <> VDict d) -> extra_model_registration entry = Err TypeError) /\
  (forall good made bad e rest,
     mapM extra_model_registration good = Ok made ->
     extra_model_registration bad = Err e ->
     register_extra_models (VList (good ++ bad :: rest)) = (made, Some e)) /\
  (forall entries made,
     mapM extra_model_registration entries = Ok made ->
     register_extra_models (VList entries) = (made, None)).
Proof.
  split; [done|]. split; [|split; [|split; [|split]]].
  - intros entry Hm. unfold extra_model_registration, subscript.
    apply dict_mem_false_get in Hm. by rewrite Hm.
  - intros entry Hi Hn. unfold extra_model_registration, subscript.
    apply dict_mem_get in Hi as [model_id Hi]. apply dict_mem_false_get in Hn.
    by rewrite Hi, Hn.
  - intros [a|l|d] Hd; [done|done|]. by destruct (Hd d).
  - intros good made bad e rest Hg Hb. unfold register_extra_models. simpl.
    rewrite (register_each_app good made _ Hg). simpl. rewrite Hb. simpl.
    by rewrite app_nil_r.
  - intros entries made Hm. unfold register_extra_models. simpl.
    pose proof (register_each_app entries made [] Hm) as H. rewrite app_nil_r in H.
    rewrite H. simpl. by rewrite app_nil_r.
Qed.

Lemma extra_models_are_registered_up_to_the_first_error_witness :
  exists made,
    mapM extra_model_registration [local_entry] = Ok made /\
    register_extra_models (VList ([local_entry] ++ VDict [("model_id", VStr "x")] :: []))
    = (made, Some (KeyError "model_name")).
Proof.
  eexists. split; [reflexivity|].
  pose proof extra_models_are_registered_up_to_the_first_error as (_ & _ & _ & _ & H & _).
  apply H; reflexivity.
Defined.

(** ** The identity of the tool calls of a streamed reply *)

Local Open Scope nat_scope.

Lemma first_deltas_snoc (deltas : list ChoiceDeltaToolCall) (d : ChoiceDeltaToolCall) :
  forall seen,
    first_deltas seen (deltas ++ [d])
    = first_deltas seen deltas
      ++ (if delivered (tcd_index d) (seen ++ deltas) then [] else [d]).
Proof.
  induction deltas as [|x deltas IH]; intros seen; simpl.
  - by rewrite !app_nil_r.
  - rewrite IH, <- !app_assoc. done.
Qed.

Lemma call_identity_set_arguments (a : string) (d : ChoiceDeltaToolCall) :
  call_identity (set_arguments a d) = call_identity d.
Proof. unfold call_identity, set_arguments. simpl. by destruct (tcd_function d). Qed.

Lemma identified_step (seen : list ChoiceDeltaToolCall) (ds : Deltas)
    (d : ChoiceDeltaToolCall) (f : ChoiceDeltaToolCallFunction) :
  folded seen ds -> identified seen ds -> tcd_function d = Some f ->
  exists ds',
    tool_call_step {| objects := objects ds ++ [d];
                      tool_calls_by_index := tool_calls_by_index ds |}
                   (length (objects ds)) = Ok ds' /\
    folded (seen ++ [d]) ds' /\ identified (seen ++ [d]) ds'.
Proof.
  intros Hfolded Hid Hf.
  destruct (folded_step seen ds d f Hfolded Hf) as (ds' & Hstep & Hfolded').
  exists ds'. split; [done|]. split; [done|].
  pose proof Hfolded as [Hlen Hall].
  pose proof (delivered_entry seen ds (tcd_index d) Hfolded) as Hdel.
  unfold identified in *. rewrite first_deltas_snoc. simpl.
  destruct (index_get (tcd_index d) (tool_calls_by_index ds)) as [t|] eqn:Hget.
  - pose proof (Hall (tcd_index d)) as Hd. rewrite Hdel in Hd. simpl in Hd.
    destruct Hd as (t' & o & fo & Ht' & Ho & Hio & Hfo & Hb). rewrite Hget in Ht'.
    injection Ht' as <-.
    rewrite (tool_call_step_old _ _ d o f fo t _ Hf Hget Ho Hfo Hb) in Hstep.
    injection Hstep as <-. rewrite Hdel, app_nil_r. cbn [objects tool_calls_by_index].
    eapply Forall2_impl; [exact Hid|]. intros [i l] d0 [Hi (o0 & Ho0 & Hc)].
    split; [done|]. simpl in *.
    rewrite lookup_app_l by (rewrite length_alter; by eapply lookup_lt_Some).
    destruct (decide (l = t)) as [->|Hne].
    + rewrite list_lookup_alter_eq, Ho0. simpl. eexists. split; [done|].
      by rewrite call_identity_set_arguments.
    + rewrite list_lookup_alter_ne by done. eauto.
  - rewrite (tool_call_step_new _ _ d f Hf Hget) in Hstep.
    injection Hstep as <-. rewrite Hdel. cbn [objects tool_calls_by_index].
    apply Forall2_app.
    + eapply Forall2_impl; [exact Hid|]. intros [i l] d0 [Hi (o0 & Ho0 & Hc)].
      split; [done|]. simpl in *. exists o0. split; [|done].
      by rewrite lookup_app_l by (by eapply lookup_lt_Some).
    + constructor; [|constructor]. split; [done|]. simpl. eexists.
      split; [by rewrite list_lookup_middle|]. by rewrite call_identity_set_arguments.
Qed.

Lemma tool_calls_loop_identified (deltas : list ChoiceDeltaToolCall) :
  forall seen ds,
    folded seen ds -> identified seen ds ->
    forallb has_function deltas = true ->
    exists ds', tool_calls_loop ds deltas = Ok ds' /\
                folded (seen ++ deltas) ds' /\ identified (seen ++ deltas) ds'.
Proof.
  induction deltas as [|d deltas IH]; intros seen ds Hfolded Hid Hfn.
  - exists ds. by rewrite app_nil_r.
  - simpl in Hfn. apply andb_prop in Hfn as [Hf Hrest]. unfold has_function in Hf.
    destruct (tcd_function d) as [f|] eqn:Hfd; [|done].
    destruct (identified_step seen ds d f Hfolded Hid Hfd) as (ds1 & Hstep & Hfolded1 & Hid1).
    destruct (IH (seen ++ [d]) ds1 Hfolded1 Hid1 Hrest) as (ds' & Hloop & Hfolded' & Hid').
    exists ds'. simpl. rewrite Hstep. simpl. split; [done|].
    by rewrite <- app_assoc in Hfolded', Hid'.
Qed.

Lemma tool_calls_loop_no_function (deltas : list ChoiceDeltaToolCall) :
  forall seen ds,
    folded seen ds ->
    forallb has_function deltas = false ->
    tool_calls_loop ds deltas = Err AttributeError.
Proof.
  induction deltas as [|d deltas IH]; intros seen ds Hfolded Hfn; [done|].
  simpl in Hfn |- *. unfold has_function in Hfn at 1.
  destruct (tcd_function d) as [f|] eqn:Hfd.
  - destruct (folded_step seen ds d f Hfolded Hfd) as (ds1 & Hstep & Hfolded1).
    rewrite Hstep. simpl. by apply (IH (seen ++ [d])).
  - unfold tool_call_step, get_arguments. cbn [objects].
    by rewrite list_lookup_middle, Hfd.
Qed.

Lemma identified_values (seen : list ChoiceDeltaToolCall) (ds : Deltas) :
  identified seen ds ->
  map call_identity (values ds) = map call_identity (first_deltas [] seen).
Proof.
  unfold identified, values.
  induction 1 as [|[i l] d dict firsts [Hi (o & Ho & Hc)] _ IH]; [done|].
  change (omap (fun il => objects ds !! il.2) ((i, l) :: dict))
    with (match objects ds !! l with
          | Some y => y :: omap (fun il => objects ds !! il.2) dict
          | None => omap (fun il => objects ds !! il.2) dict
          end).
  simpl in Ho. rewrite Ho. cbn [map]. by rewrite Hc, IH.
Qed.

Local Close Scope nat_scope.

Lemma aggregated_identities (deltas : list ChoiceDeltaToolCall) :
  match tool_calls_loop no_deltas deltas with
  | Ok ds =>
      forallb has_function deltas = true /\
      map call_identity (values ds) = map call_identity (first_deltas [] deltas)
  | Err e => e = AttributeError /\ forallb has_function deltas = false
  end.
Proof.
  assert (folded [] no_deltas) as Hf0 by (by split).
  assert (identified [] no_deltas) as Hi0 by constructor.
  destruct (forallb has_function deltas) eqn:Hfn.
  - destruct (tool_calls_loop_identified deltas [] no_deltas Hf0 Hi0 Hfn)
      as (ds & -> & _ & Hid). split; [done|]. by apply identified_values.
  - by rewrite (tool_calls_loop_no_function deltas [] no_deltas Hf0 Hfn).
Qed.

Lemma make_tool_call_name (d : ChoiceDeltaToolCall) (tc : ToolCall) :
  make_tool_call d = Ok tc ->
  call_name tc = ((call_identity d).1.2, (call_identity d).2).
Proof.
  unfold make_tool_call, call_name, call_identity.
  destruct (tcd_function d) as [f|]; [|done]. simpl.
  destruct (Json.loads _) as [arguments|]; [|done]. simpl. by intros [= <-].
Qed.

Lemma make_tool_calls_names (ds : list ChoiceDeltaToolCall) (tcs : list ToolCall) :
  mapM make_tool_call ds = Ok tcs ->
  map call_name tcs = map (fun i => (i.1.2, i.2)) (map call_identity ds).
Proof.
  intros H. apply mapM_Ok in H.
  induction H as [|d tc ds tcs Hd _ IH]; [done|]. simpl.
  by rewrite (make_tool_call_name d tc Hd), IH.
Qed.

(** X27. The tool calls of a streamed reply are named by the first
    delta of their index.  The loop that folds the deltas raises an
    [AttributeError] exactly when some delta has no [function];
    otherwise it keeps one entry for each index, in the order in which
    the indices first appear, with the id and the function name of the
    first delta delivered for the index, whatever the later deltas of
    that index carry.  A streamed chat call that completes, synchronous
    or not, adds to the response one tool call for each of these
    entries, in that order, with that id and that name. *)
Theorem streamed_tool_calls_are_named_by_their_first_delta (f : flavour)
    (json_dumps : value -> string) (self : Model) (transport : Transport) (prompt : Prompt)
    (conversation : option (list PrevResponse)) (w w' : world) :
  (forall deltas,
     match tool_calls_loop no_deltas deltas with
     | Ok ds =>
         forallb has_function deltas = true /\
         map call_identity (values ds) = map call_identity (first_deltas [] deltas)
     | Err e => e = AttributeError /\ forallb has_function deltas = false
     end) /\
  (chat_execute f json_dumps self transport prompt true conversation w = (Ok tt, w') ->
   exists completion tcs,
     stream_reply transport = Delivered completion /\
     tool_calls (response w') = tool_calls (response w) ++ tcs /\
     map call_name tcs
     = map (fun d => (tcd_id d, tcd_function d ≫= fn_name))
           (first_deltas [] (flat_map chunk_deltas completion))).
Proof.
  split; [apply aggregated_identities|].
  intros H. apply either_flavour_Ok in H.
  destruct (Chat_execute_run H)
    as (messages & w1 & u & w2 & r & Hrun & Hy1 & Hr1 & Hu & _ & _ & Ht & _).
  apply Chat_stream_Ok in Hrun
    as (completion & payload & ds & tcs & Hreply & _ & _ & Hloop & Htcs & _ & ->).
  apply set_usage_keeps in Hu as (_ & Hrt & _). simpl in Hrt.
  exists completion, tcs. split; [done|]. split; [by rewrite Ht, Hrt, Hr1|].
  rewrite (make_tool_calls_names _ _ Htcs).
  pose proof (aggregated_identities (flat_map chunk_deltas completion)) as Hid.
  rewrite Hloop in Hid. destruct Hid as [_ ->]. by rewrite map_map.
Qed.

Lemma streamed_tool_calls_are_named_by_their_first_delta_witness :
  exists completion tcs,
    stream_reply (streaming named_stream) = Delivered completion /\
    tool_calls (response (Chat_execute dumps_unused gpt_4o (streaming named_stream)
                            text_prompt true None empty_world).2)
    = tool_calls (response empty_world) ++ tcs /\
    map call_name tcs
    = map (fun d => (tcd_id d, tcd_function d ≫= fn_name))
          (first_deltas [] (flat_map chunk_deltas completion)).
Proof.
  apply (streamed_tool_calls_are_named_by_their_first_delta Synchronous dumps_unused gpt_4o
           (streaming named_stream) text_prompt None empty_world).
  vm_compute. reflexivity.
Defined.

(** ** More on the request parameters *)

Lemma dict_get_absent {V} k (d : list (string * V)) :
  k ∉ map fst d -> dict_get k d = None.
Proof.
  induction d as [|[k0 v0] d IH]; [done|]. simpl. rewrite not_elem_of_cons.
  intros [Hne Hout]. destruct (String.eqb_spec k0 k); [congruence|]. by apply IH.
Qed.

Lemma json_object_option (prompt : Prompt) :
  truthy (default VNone (dict_get "json_object"
                           (not_nulls (options_items (p_options prompt)))))
  = default false (json_object (p_options prompt)).
Proof.
  rewrite dict_get_not_nulls by apply options_keys_NoDup. simpl.
  by destruct (json_object (p_options prompt)) as [[]|].
Qed.

Lemma build_kwargs_base (self : Model) (prompt : Prompt) (k : string) :
  k <> "json_object" -> k <> "max_tokens" ->
  dict_get k
    match dict_mem "max_tokens"
            (dict_remove "json_object" (not_nulls (options_items (p_options prompt)))),
          default_max_tokens self with
    | false, Some n =>
        dict_set "max_tokens" (VInt n)
          (dict_remove "json_object" (not_nulls (options_items (p_options prompt))))
    | _, _ => dict_remove "json_object" (not_nulls (options_items (p_options prompt)))
    end
  = dict_get k (options_items (p_options prompt)) ≫= non_null.
Proof.
  intros. rewrite <- dict_get_not_nulls by apply options_keys_NoDup.
  kwargs_other; done.
Qed.

Lemma build_kwargs_response_format (self : Model) (prompt : Prompt) (stream : bool) :
  dict_get "response_format" (build_kwargs self prompt stream)
  = let json_format :=
      if default false (json_object (p_options prompt))
      then Some (VDict [("type", VStr "json_object")]) else None in
    match p_schema prompt with
    | Some schema =>
        if truthy schema
        then Some (VDict [("type", VStr "json_schema");
                          ("json_schema",
                            VDict [("name", VStr "output"); ("schema", schema)])])
        else json_format
    | None => json_format
    end.
Proof.
  unfold build_kwargs. rewrite json_object_option.
  pose proof (build_kwargs_base self prompt "response_format") as Hbase.
  revert Hbase.
  generalize (match dict_mem "max_tokens"
                      (dict_remove "json_object"
                         (not_nulls (options_items (p_options prompt)))),
                    default_max_tokens self with
              | false, Some n =>
                  dict_set "max_tokens" (VInt n)
                    (dict_remove "json_object"
                       (not_nulls (options_items (p_options prompt))))
              | _, _ =>
                  dict_remove "json_object" (not_nulls (options_items (p_options prompt)))
              end).
  intros kw Hbase. specialize (Hbase ltac:(done) ltac:(done)). simpl in Hbase.
  destruct stream, (p_tools prompt), (p_schema prompt) as [schema|];
    try destruct (truthy schema);
    destruct (default false (json_object (p_options prompt))); cbn zeta;
    repeat (rewrite dict_get_set_ne by congruence);
    rewrite ?dict_get_set_eq; done.
Qed.

Lemma build_kwargs_tools (self : Model) (prompt : Prompt) (stream : bool) :
  dict_get "tools" (build_kwargs self prompt stream)
  = match p_tools prompt with
    | [] => None
    | _ :: _ => Some (VList (map tool_descriptor (p_tools prompt)))
    end.
Proof.
  unfold build_kwargs.
  pose proof (build_kwargs_base self prompt "tools") as Hbase.
  revert Hbase.
  generalize (match dict_mem "max_tokens"
                      (dict_remove "json_object"
                         (not_nulls (options_items (p_options prompt)))),
                    default_max_tokens self with
              | false, Some n =>
                  dict_set "max_tokens" (VInt n)
                    (dict_remove "json_object"
                       (not_nulls (options_items (p_options prompt))))
              | _, _ =>
                  dict_remove "json_object" (not_nulls (options_items (p_options prompt)))
              end).
  intros kw Hbase. specialize (Hbase ltac:(done) ltac:(done)). simpl in Hbase.
  destruct stream, (p_tools prompt), (p_schema prompt) as [schema|];
    try destruct (truthy schema);
    destruct (truthy _);
    repeat (rewrite dict_get_set_ne by congruence);
    rewrite ?dict_get_set_eq; done.
Qed.

(** X28. Of the parameters built, [response_format] is the JSON-schema
    constraint when the prompt has a schema that is not empty; failing
    that it is the JSON-object format when the option [json_object] is
    true; and else there is none.  [tools] is there exactly when the
    prompt has tools, and describes them in order, a description that
    is empty being sent as null.  And no parameter has a name other
    than those of the options, [response_format], [tools] and
    [stream_options]. *)
Theorem build_kwargs_format_and_tools (self : Model) (prompt : Prompt) (stream : bool) :
  dict_get "response_format" (build_kwargs self prompt stream)
  = (let json_format :=
       if default false (json_object (p_options prompt))
       then Some (VDict [("type", VStr "json_object")]) else None in
     match p_schema prompt with
     | Some schema =>
         if truthy schema
         then Some (VDict [("type", VStr "json_schema");
                           ("json_schema",
                             VDict [("name", VStr "output"); ("schema", schema)])])
         else json_format
     | None => json_format
     end) /\
  dict_get "tools" (build_kwargs self prompt stream)
  = match p_tools prompt with
    | [] => None
    | _ :: _ => Some (VList (map tool_descriptor (p_tools prompt)))
    end /\
  (forall k,
     is_Some (dict_get k (build_kwargs self prompt stream)) -> k ∈ parameter_names).
Proof.
  split; [apply build_kwargs_response_format|]. split; [apply build_kwargs_tools|].
  intros k [v Hv]. destruct (decide (k ∈ parameter_names)) as [|Hout]; [done|]. exfalso.
  unfold parameter_names in Hout. rewrite !not_elem_of_cons in Hout.
  destruct Hout as (? & ? & ? & ? & ? & ? & ? & ? & ? & ? & ? & ? & ? & _).
  destruct (String.eqb_spec k "json_object") as [->|Hj].
  { by rewrite build_kwargs_json_object in Hv. }
  rewrite build_kwargs_other in Hv by done.
  rewrite dict_get_absent in Hv; [done|].
  rewrite options_keys, !not_elem_of_cons. repeat split; try done. apply not_elem_of_nil.
Qed.
